(** * Streaming export formatters: a shallow embedding

    The development follows [lib/formatters.js] (the four [Transform]
    subclasses and [prepareValue]) and [measureExport] of the benchmark
    driver.

    Modelling conventions.
    - A JavaScript string is a [string]: the sequence of bytes of its UTF-8
      encoding.  Every character the formatters test for or insert is ASCII,
      so a replacement on code units and on bytes coincide.
    - A JavaScript object is its list of own enumerable properties in
      property order; a property read that finds no own property yields
      [undefined].  Property names are names of data properties: the
      members inherited from [Object.prototype], the accessor [__proto__]
      among them, are outside the model ([inherited_name], [proto_key]),
      and a statement that depends on a read or a write under such a name
      says so.
    - A JavaScript number that is an integer is exact up to 2^53; the
      integers the development prints stay below.
    - Objects and arrays nested in a row live in a heap and are referred to
      by address, so that shared and circular structures exist.
    - Inside a function, a thrown exception, a rejected promise and
      [callback(err)] are all [Throw]; what becomes of a [Throw] that leaves
      [_transform] is decided where the stream is run.
    - What depends on the timing of a run (how far the sink has come when
      the run is cut short, from where a row step was called) is an
      explicit [schedule]. *)

From Stdlib Require Import List String Ascii ZArith NArith Lia Bool Arith.
From Stdlib Require Import DecimalString DecimalFacts DecimalPos DecimalN.
Import ListNotations.
Local Open Scope string_scope.

(** ** Outcomes *)

Inductive error : Type :=
| RangeError_InvalidTimeValue
| TypeError_CircularStructure
| TypeError_UndefinedWriter
| Error_UnknownFormat (fmt : string)
| ExternalError (msg : string)
| OutOfFuel.

Inductive result (A : Type) : Type :=
| Ok (a : A)
| Throw (e : error).

Arguments Ok {A} a.
Arguments Throw {A} e.

Definition bind {A B : Type} (r : result A) (k : A -> result B) : result B :=
  match r with
  | Ok a => k a
  | Throw e => Throw e
  end.

Notation "x <- c1 ;; c2" := (bind c1 (fun x => c2))
  (at level 61, c1 at next level, right associativity).

Fixpoint mapM {A B : Type} (f : A -> result B) (l : list A) : result (list B) :=
  match l with
  | [] => Ok []
  | x :: l' => y <- f x ;; ys <- mapM f l' ;; Ok (y :: ys)
  end.

(** ** Text *)

Definition dquote : ascii := "034"%char.
Definition dq : string := String dquote EmptyString.
Definition nl : string := String "010"%char EmptyString.

(** [s.includes(c)] for a one-character needle. *)
Fixpoint includes (c : ascii) (s : string) : bool :=
  match s with
  | EmptyString => false
  | String a s' => if Ascii.eqb a c then true else includes c s'
  end.

(** [s.replace(/c/g, r)] for a one-character pattern [c] and a replacement
    text [r] without [$]. *)
Fixpoint replace_all (c : ascii) (r : string) (s : string) : string :=
  match s with
  | EmptyString => EmptyString
  | String a s' =>
      if Ascii.eqb a c then r ++ replace_all c r s'
      else String a (replace_all c r s')
  end.

Fixpoint repeat_char (c : ascii) (n : nat) : string :=
  match n with
  | O => EmptyString
  | S n' => String c (repeat_char c n')
  end.

Fixpoint str_forall (p : ascii -> bool) (s : string) : bool :=
  match s with
  | EmptyString => true
  | String a s' => p a && str_forall p s'
  end.

Fixpoint str_take (n : nat) (s : string) : string :=
  match n, s with
  | S n', String a s' => String a (str_take n' s')
  | _, _ => EmptyString
  end.

Fixpoint str_drop (n : nat) (s : string) : string :=
  match n, s with
  | S n', String _ s' => str_drop n' s'
  | _, _ => s
  end.

(** ** Numbers

    A finite Number is given by the decimal that [Number::toString] prints
    for it: [Finite neg m e] is the double whose shortest round-trip decimal
    is [(-1)^neg * m * 10^e].  [m = 0] is zero of either sign. *)

Inductive number : Type :=
| NaN
| Infinity (neg : bool)
| Finite (neg : bool) (m : N) (e : Z).

(** The number of an integer [z]; a JavaScript number holds it when
    [|z| <= 2^53]. *)
Definition of_Z (z : Z) : number := Finite (z <? 0)%Z (Z.abs_N z) 0.

Definition is_finite (n : number) : bool :=
  match n with
  | Finite _ _ _ => true
  | _ => false
  end.

Definition digits_of (m : N) : string := NilEmpty.string_of_uint (N.to_uint m).

(** The digits without their trailing zeros, and how many were dropped. *)
Fixpoint strip_zeros (s : string) : string * nat :=
  match s with
  | EmptyString => (EmptyString, O)
  | String c s' =>
      let (t, z) := strip_zeros s' in
      match t with
      | EmptyString =>
          if Ascii.eqb c "0" then (EmptyString, S z) else (String c EmptyString, z)
      | _ => (String c t, z)
      end
  end.

Definition exponent_part (n : Z) : string :=
  let ex := (n - 1)%Z in
  "e" ++ (if (ex <? 0)%Z then "-" else "+") ++ digits_of (Z.abs_N ex).

(** [Number::toString] (radix 10) on a positive finite number with
    significant digits [ds] ([k] of them) and decimal point position [n]:
    the number is [0.ds * 10^n]. *)
Definition positive_to_string (ds : string) (n : Z) : string :=
  let k := Z.of_nat (String.length ds) in
  if ((k <=? n) && (n <=? 21))%Z then
    ds ++ repeat_char "0" (Z.to_nat (n - k))
  else if ((0 <? n) && (n <=? 21))%Z then
    str_take (Z.to_nat n) ds ++ "." ++ str_drop (Z.to_nat n) ds
  else if ((-6 <? n) && (n <=? 0))%Z then
    "0." ++ repeat_char "0" (Z.to_nat (- n)) ++ ds
  else if (k =? 1)%Z then
    ds ++ exponent_part n
  else
    str_take 1 ds ++ "." ++ str_drop 1 ds ++ exponent_part n.

Definition Number_toString (x : number) : string :=
  match x with
  | NaN => "NaN"
  | Infinity false => "Infinity"
  | Infinity true => "-Infinity"
  | Finite _ 0%N _ => "0"
  | Finite neg m e =>
      let (ds, z) := strip_zeros (digits_of m) in
      (if neg then "-" else EmptyString)
        ++ positive_to_string ds (e + Z.of_nat z + Z.of_nat (String.length ds))
  end.

(** ** Dates

    A Date is its time value: milliseconds since the epoch, or [None] for
    the invalid Date (time value NaN). *)

Fixpoint pad_digits (width : nat) (n : Z) : string :=
  match width with
  | O => EmptyString
  | S w =>
      pad_digits w (n / 10)
        ++ String (ascii_of_nat (48 + Z.to_nat (n mod 10))) EmptyString
  end.

(** Year, month and day of the proleptic Gregorian calendar for a day
    number counted from 1970-01-01. *)
Definition civil_from_days (days : Z) : Z * Z * Z :=
  let z := (days + 719468)%Z in
  let era := (z / 146097)%Z in
  let doe := (z - era * 146097)%Z in
  let yoe := ((doe - doe / 1460 + doe / 36524 - doe / 146096) / 365)%Z in
  let doy := (doe - (365 * yoe + yoe / 4 - yoe / 100))%Z in
  let mp := ((5 * doy + 2) / 153)%Z in
  let d := (doy - (153 * mp + 2) / 5 + 1)%Z in
  let m := (if (mp <? 10)%Z then mp + 3 else mp - 9)%Z in
  let y := (yoe + era * 400 + (if (m <=? 2)%Z then 1 else 0))%Z in
  (y, m, d).

Definition year_string (y : Z) : string :=
  if ((0 <=? y) && (y <=? 9999))%Z then pad_digits 4 y
  else (if (y <? 0)%Z then "-" else "+") ++ pad_digits 6 (Z.abs y).

Definition iso_string (t : Z) : string :=
  let '(y, m, d) := civil_from_days (t / 86400000) in
  let ms := (t mod 86400000)%Z in
  year_string y ++ "-" ++ pad_digits 2 m ++ "-" ++ pad_digits 2 d
    ++ "T" ++ pad_digits 2 (ms / 3600000)
    ++ ":" ++ pad_digits 2 (ms / 60000 mod 60)
    ++ ":" ++ pad_digits 2 (ms / 1000 mod 60)
    ++ "." ++ pad_digits 3 (ms mod 1000) ++ "Z".

(** [Date.prototype.toISOString]. *)
Definition Date_toISOString (tv : option Z) : result string :=
  match tv with
  | Some t => Ok (iso_string t)
  | None => Throw RangeError_InvalidTimeValue
  end.

(** ** Values, rows and the heap *)

Inductive value : Type :=
| VUndefined
| VNull
| VBoolean (b : bool)
| VNumber (n : number)
| VString (s : string)
| VDate (tv : option Z)
| VRef (a : nat).

(** The own properties of an object, in property order. *)
Definition props (A : Type) : Type := list (string * A).

Definition object : Type := props value.

Inductive hobj : Type :=
| HObject (props : object)
| HArray (items : list value).

(** An address beyond the end of the heap denotes an object without own
    properties. *)
Definition heap : Type := list hobj.

Definition row : Type := object.

(** The names that every ordinary object inherits from [Object.prototype]:
    a read under one of them that finds no own property yields the
    inherited member, not [undefined]. *)
Definition inherited_name (k : string) : bool :=
  existsb (String.eqb k)
    [ "constructor"; "hasOwnProperty"; "isPrototypeOf"; "propertyIsEnumerable";
      "toLocaleString"; "toString"; "valueOf"; "__proto__"; "__defineGetter__";
      "__defineSetter__"; "__lookupGetter__"; "__lookupSetter__" ].

(** [o[k]] as a read of the own properties of [o]: for a key that [o] does
    not have it is the read of the language unless [inherited_name k]. *)
Fixpoint get_prop (o : object) (k : string) : value :=
  match o with
  | [] => VUndefined
  | (k', v) :: o' => if String.eqb k' k then v else get_prop o' k
  end.

Fixpoint has_key {A : Type} (o : props A) (k : string) : bool :=
  match o with
  | [] => false
  | (k', _) :: o' => if String.eqb k' k then true else has_key o' k
  end.

(** *** Property order

    Own property keys enumerate array indices first, in ascending numeric
    order, then the other keys in the order of their creation. *)

Definition is_digit (c : ascii) : bool :=
  let n := nat_of_ascii c in (48 <=? n)%nat && (n <=? 57)%nat.

Fixpoint decimal_value (s : string) (acc : N) : N :=
  match s with
  | EmptyString => acc
  | String c s' => decimal_value s' (10 * acc + N.of_nat (nat_of_ascii c - 48))%N
  end.

(** A key is an array index when it is the canonical decimal of an integer
    below 2^32 - 1. *)
Definition array_index (k : string) : option N :=
  match k with
  | EmptyString => None
  | _ =>
      if str_forall is_digit k then
        let n := decimal_value k 0 in
        if (String.eqb (digits_of n) k && (n <? 4294967295)%N)%bool
        then Some n else None
      else None
  end.

(** Does a new key [k] go before the existing key [k']? *)
Definition goes_before (k k' : string) : bool :=
  match array_index k, array_index k' with
  | Some n, Some n' => (n <? n')%N
  | Some _, None => true
  | None, _ => false
  end.

Fixpoint update_prop {A : Type} (o : props A) (k : string) (v : A) : props A :=
  match o with
  | [] => []
  | (k', v') :: o' =>
      if String.eqb k' k then (k', v) :: o' else (k', v') :: update_prop o' k v
  end.

Fixpoint insert_prop {A : Type} (o : props A) (k : string) (v : A) : props A :=
  match o with
  | [] => [(k, v)]
  | (k', v') :: o' =>
      if goes_before k k' then (k, v) :: (k', v') :: o'
      else (k', v') :: insert_prop o' k v
  end.

(** The key whose assignment calls the setter of [Object.prototype] and
    creates no property. *)
Definition proto_key : string := "__proto__".

(** [o[k] = v] on an ordinary object, for a key other than [proto_key]. *)
Definition set_prop {A : Type} (o : props A) (k : string) (v : A) : props A :=
  if has_key o k then update_prop o k v else insert_prop o k v.

(** ** JSON documents and [JSON.stringify] *)

Unset Elimination Schemes.

Inductive json : Type :=
| JNull
| JBool (b : bool)
| JNum (lexeme : string)
| JStr (s : string)
| JArr (elements : list json)
| JObj (members : list (string * json)).

Set Elimination Schemes.

Definition hex_digit (n : nat) : ascii :=
  ascii_of_nat (if (n <? 10)%nat then 48 + n else 87 + n).

(** One character of [QuoteJSONString]. *)
Definition json_escape_char (c : ascii) : string :=
  let n := nat_of_ascii c in
  if (n =? 8)%nat then "\b"
  else if (n =? 9)%nat then "\t"
  else if (n =? 10)%nat then "\n"
  else if (n =? 12)%nat then "\f"
  else if (n =? 13)%nat then "\r"
  else if (n =? 34)%nat then String "\" dq
  else if (n =? 92)%nat then "\\"
  else if (n <? 32)%nat then
    "\u00" ++ String (hex_digit (n / 16)) (String (hex_digit (n mod 16)) EmptyString)
  else String c EmptyString.

Fixpoint json_escape (s : string) : string :=
  match s with
  | EmptyString => EmptyString
  | String c s' => json_escape_char c ++ json_escape s'
  end.

Definition json_quote (s : string) : string := dq ++ json_escape s ++ dq.

Fixpoint json_print (j : json) : string :=
  match j with
  | JNull => "null"
  | JBool true => "true"
  | JBool false => "false"
  | JNum lexeme => lexeme
  | JStr s => json_quote s
  | JArr elements => "[" ++ String.concat "," (map json_print elements) ++ "]"
  | JObj members =>
      "{" ++ String.concat ","
               (map (fun m => json_quote (fst m) ++ ":" ++ json_print (snd m)) members)
          ++ "}"
  end.

(** The members of [SerializeJSONObject]: properties whose value is
    undefined are left out. *)
Fixpoint ser_members (ser : value -> result json) (props : object)
  : result (list (string * json)) :=
  match props with
  | [] => Ok []
  | (k, v) :: props' =>
      match v with
      | VUndefined => ser_members ser props'
      | _ => j <- ser v ;; ms <- ser_members ser props' ;; Ok ((k, j) :: ms)
      end
  end.

(** [SerializeJSONProperty], with the stack of the objects being
    serialized.  An undefined array element is serialized as null (object
    members are filtered by [ser_members]); a non-finite number is null; a
    Date is replaced by its [toJSON()], null for the invalid Date. *)
Fixpoint to_json (fuel : nat) (h : heap) (stack : list nat) (v : value)
  : result json :=
  match v with
  | VUndefined => Ok JNull
  | VNull => Ok JNull
  | VBoolean b => Ok (JBool b)
  | VNumber n => Ok (if is_finite n then JNum (Number_toString n) else JNull)
  | VString s => Ok (JStr s)
  | VDate (Some t) => Ok (JStr (iso_string t))
  | VDate None => Ok JNull
  | VRef a =>
      if existsb (Nat.eqb a) stack then Throw TypeError_CircularStructure
      else
        match nth_error h a with
        | None => Ok (JObj [])
        | Some o =>
            match fuel with
            | O => Throw OutOfFuel
            | S f =>
                match o with
                | HArray items =>
                    es <- mapM (to_json f h (a :: stack)) items ;; Ok (JArr es)
                | HObject props =>
                    ms <- ser_members (to_json f h (a :: stack)) props ;;
                    Ok (JObj ms)
                end
            end
        end
  end.

(** No chain of distinct nested objects is longer than the heap. *)
Definition enough_fuel (h : heap) : nat := S (List.length h).

(** [JSON.stringify(v)] for a value other than undefined ([JSON.stringify]
    of undefined is undefined, not a string; the formatters never pass
    it). *)
Definition JSON_stringify (h : heap) (v : value) : result string :=
  j <- to_json (enough_fuel h) h [] v ;; Ok (json_print j).

(** [JSON.stringify(o)] for an object [o] that was just built and that
    nothing refers to. *)
Definition fresh_object_json (h : heap) (o : object) : result json :=
  ms <- ser_members (to_json (enough_fuel h) h []) o ;; Ok (JObj ms).

Definition JSON_stringify_fresh (h : heap) (o : object) : result string :=
  j <- fresh_object_json h o ;; Ok (json_print j).

(** ** [prepareValue] *)

Definition typeof (v : value) : string :=
  match v with
  | VUndefined => "undefined"
  | VBoolean _ => "boolean"
  | VNumber _ => "number"
  | VString _ => "string"
  | VNull | VDate _ | VRef _ => "object"
  end.

Definition is_nullish (v : value) : bool :=
  match v with
  | VNull | VUndefined => true
  | _ => false
  end.

Definition instanceof_Date (v : value) : option (option Z) :=
  match v with
  | VDate tv => Some tv
  | _ => None
  end.

(** [String(v)] on a primitive. *)
Definition String_of (v : value) : string :=
  match v with
  | VUndefined => "undefined"
  | VNull => "null"
  | VBoolean true => "true"
  | VBoolean false => "false"
  | VNumber n => Number_toString n
  | VString s => s
  | VDate _ | VRef _ => "[object Object]"
  end.

Definition prepareValue (h : heap) (val : value) : result string :=
  if is_nullish val then Ok EmptyString
  else
    match instanceof_Date val with
    | Some tv => Date_toISOString tv
    | None =>
        if String.eqb (typeof val) "object" then JSON_stringify h val
        else Ok (String_of val)
    end.

(** ** Column projection *)

Record column : Type := { source : string; target : string }.

(** ** The [Transform] interface

    What a formatter contributes to the stream: the chunks pushed by its
    constructor, by the asynchronous [_construct], by [_transform] for each
    row, and by [_flush] at the end of the input.

    [guarded] tells how a failure of [_transform] leaves it.  When the body
    runs inside [try] and the handler calls [callback(err)], the stream is
    destroyed with the error.  Otherwise the exception is thrown out of
    [_transform]: Node requires errors of [_write] and [_transform] to go
    through the callback, and what becomes of the exception depends on who
    called [_transform] (see [pipeline]). *)

(** What a step of a stream does with the callback it is given.  It calls
    it, after its pushes or with an error ([Called]; so is a step that
    throws), or it pushes and never calls it ([Silent]): the stream then
    waits for the callback for ever. *)
Inductive reply (A : Type) : Type :=
| Called (r : result A)
| Silent (pushed : list string).

Arguments Called {A} r.
Arguments Silent {A} pushed.

Coercion Called : result >-> reply.

Record Formatter : Type := {
  fstate : Type;
  construct : fstate * list string;
  fopen : fstate -> reply (fstate * list string);
  transform : heap -> fstate -> row -> reply (fstate * list string);
  flush : fstate -> reply (list string);
  guarded : bool
}.

(** Defaults of [Transform]: no [_construct], no [_flush]. *)
Definition default_open {S : Type} (st : S) : reply (S * list string) := Ok (st, []).
Definition default_flush {S : Type} (st : S) : reply (list string) := Ok [].

(** *** [JSONStreamFormatter] *)

Record json_state : Type := { isFirst : bool }.

Definition json_output (columns : list column) (chunk : row) : object :=
  fold_left
    (fun output col => set_prop output (target col) (get_prop chunk (source col)))
    columns [].

Definition json_construct : json_state * list string :=
  ({| isFirst := true |}, ["["]).

Definition json_transform (columns : list column) (h : heap) (st : json_state)
    (chunk : row) : result (json_state * list string) :=
  let output := json_output columns chunk in
  let prefix := if isFirst st then EmptyString else "," in
  match JSON_stringify_fresh h output with
  | Ok s => Ok ({| isFirst := false |}, [prefix ++ s])
  | Throw err => Throw err
  end.

Definition json_flush (st : json_state) : result (list string) := Ok ["]"].

Definition JSONStreamFormatter (columns : list column) : Formatter :=
  {| fstate := json_state;
     construct := json_construct;
     fopen := default_open;
     transform := fun h st chunk => json_transform columns h st chunk;
     flush := fun st => json_flush st;
     guarded := true |}.

(** *** [CSVStreamFormatter] *)

Definition csv_header (columns : list column) : string :=
  String.concat "," (map target columns) ++ nl.

Definition csv_quote (val : string) : string :=
  let val := if includes dquote val then replace_all dquote (dq ++ dq) val else val in
  dq ++ val ++ dq.

Definition csv_field (h : heap) (chunk : row) (col : column) : result string :=
  val <- prepareValue h (get_prop chunk (source col)) ;;
  Ok (csv_quote val).

Definition csv_transform (columns : list column) (h : heap) (st : unit)
    (chunk : row) : result (unit * list string) :=
  fields <- mapM (csv_field h chunk) columns ;;
  Ok (tt, [String.concat "," fields ++ nl]).

Definition CSVStreamFormatter (columns : list column) : Formatter :=
  {| fstate := unit;
     construct := (tt, [csv_header columns]);
     fopen := default_open;
     transform := fun h st chunk => csv_transform columns h st chunk;
     flush := default_flush;
     guarded := false |}.

(** *** [XMLStreamFormatter] *)

Definition xml_open : string :=
  "<?xml version=" ++ dq ++ "1.0" ++ dq ++ " encoding=" ++ dq ++ "UTF-8" ++ dq
    ++ "?>" ++ nl ++ "<records>" ++ nl.

Definition xml_escape (val : string) : string :=
  replace_all "'" "&apos;"
    (replace_all dquote "&quot;"
       (replace_all ">" "&gt;"
          (replace_all "<" "&lt;"
             (replace_all "&" "&amp;" val)))).

Definition xml_element (h : heap) (chunk : row) (rowXml : string) (col : column)
  : result string :=
  val <- prepareValue h (get_prop chunk (source col)) ;;
  Ok (rowXml ++ "    <" ++ target col ++ ">" ++ xml_escape val
             ++ "</" ++ target col ++ ">" ++ nl).

Fixpoint foldM {A B : Type} (f : A -> B -> result A) (l : list B) (a : A)
  : result A :=
  match l with
  | [] => Ok a
  | x :: l' => a' <- f a x ;; foldM f l' a'
  end.

Definition xml_transform (columns : list column) (h : heap) (st : unit)
    (chunk : row) : result (unit * list string) :=
  rowXml <- foldM (xml_element h chunk) columns ("  <record>" ++ nl) ;;
  Ok (tt, [rowXml ++ "  </record>" ++ nl]).

Definition xml_flush (st : unit) : result (list string) := Ok ["</records>"].

Definition XMLStreamFormatter (columns : list column) : Formatter :=
  {| fstate := unit;
     construct := (tt, [xml_open]);
     fopen := default_open;
     transform := fun h st chunk => xml_transform columns h st chunk;
     flush := fun st => xml_flush st;
     guarded := false |}.

(** ** [ParquetStreamFormatter]

    The parquetjs writer is an external collaborator: what it writes when
    it is opened on a schema, when a row is appended and when it is closed
    is left open, and so is whether each of these steps succeeds.

    The writer writes to the object that [_construct] hands to
    [openStream]: its [write] pushes the buffer on the formatter and
    returns a promise; it takes no callback.  So what the writer writes is
    what the formatter pushes, and a step of the writer that waits for the
    callback of a write never settles ([Silent], with what it wrote before).
    A step that fails is taken to have written nothing. *)

Record field_def : Type := { ftype : string; optional : bool }.

Definition schema : Type := props field_def.

Definition find_prop {A : Type} (o : props A) (k : string) : option A :=
  match find (fun p => String.eqb (fst p) k) o with
  | Some p => Some (snd p)
  | None => None
  end.

Definition parquet_schema_defs (columns : list column) : schema :=
  fold_left
    (fun schemaDefs col =>
       set_prop schemaDefs (target col) {| ftype := "UTF8"; optional := true |})
    columns [].

(** The row handed to [appendRow]. *)
Definition parquet_row (columns : list column) (h : heap) (chunk : row)
  : result (props string) :=
  foldM
    (fun row col =>
       val <- prepareValue h (get_prop chunk (source col)) ;;
       Ok (set_prop row (target col) val))
    columns [].

Section Parquet.

Variable writer : Type.
Variable openStream : schema -> reply (writer * list string).
Variable appendRow : writer -> props string -> reply (writer * list string).
Variable close : writer -> reply (list string).

(** [yields] counts the calls of [setImmediate]. *)
Record parquet_state : Type := {
  pschema : schema;
  pwriter : option writer;
  rowCount : nat;
  yields : nat
}.

Definition parquet_construct (columns : list column)
  : parquet_state * list string :=
  ({| pschema := parquet_schema_defs columns;
      pwriter := None;
      rowCount := 0;
      yields := 0 |}, []).

Definition parquet_open (st : parquet_state)
  : reply (parquet_state * list string) :=
  match openStream (pschema st) with
  | Called (Ok (w, cs)) =>
      Ok ({| pschema := pschema st; pwriter := Some w;
             rowCount := rowCount st; yields := yields st |}, cs)
  | Called (Throw err) => Throw err
  | Silent cs => Silent cs
  end.

Definition parquet_transform (columns : list column) (h : heap)
    (st : parquet_state) (chunk : row) : reply (parquet_state * list string) :=
  match parquet_row columns h chunk with
  | Throw err => Throw err
  | Ok row =>
      match pwriter st with
      | None => Throw TypeError_UndefinedWriter
      | Some w =>
          match appendRow w row with
          | Called (Ok (w', cs)) =>
              let count := S (rowCount st) in
              Ok ({| pschema := pschema st; pwriter := Some w'; rowCount := count;
                     yields := if (count mod 1000 =? 0)%nat then S (yields st)
                               else yields st |}, cs)
          | Called (Throw err) => Throw err
          | Silent cs => Silent cs
          end
      end
  end.

Definition parquet_flush (st : parquet_state) : reply (list string) :=
  match pwriter st with
  | Some w => close w
  | None => Ok []
  end.

Definition ParquetStreamFormatter (columns : list column) : Formatter :=
  {| fstate := parquet_state;
     construct := parquet_construct columns;
     fopen := parquet_open;
     transform := parquet_transform columns;
     flush := parquet_flush;
     guarded := true |}.

End Parquet.

(** ** Running a formatter over a source

    The source delivers [rows] and then either ends ([None]) or fails
    ([Some e]).  One row is in flight at a time; the first failure ends the
    run and [_flush] runs only after a clean end of input. *)

(** How a run ends: everything was flushed ([Finished]); a stream was
    destroyed with an error ([Destroyed]); an exception left [_transform]
    and no stream caught it ([Uncaught]); a step never called its callback
    ([Stalled]).  For the formatter taken alone ([feed], [emit], [export])
    every exception that leaves [_transform] is [Uncaught]; whether Node
    catches it depends on the caller of [_transform] and is decided in
    [pipeline]. *)
Inductive ending : Type :=
| Finished
| Destroyed (e : error)
| Uncaught (e : error)
| Stalled.

Fixpoint feed (F : Formatter) (h : heap) (st : fstate F) (rows : list row)
    (src_end : option error) : list string * ending :=
  match rows with
  | [] =>
      match src_end with
      | Some e => ([], Destroyed e)
      | None =>
          match flush F st with
          | Called (Ok cs) => (cs, Finished)
          | Called (Throw e) => ([], Destroyed e)
          | Silent cs => (cs, Stalled)
          end
      end
  | r :: rows' =>
      match transform F h st r with
      | Called (Throw e) => ([], if guarded F then Destroyed e else Uncaught e)
      | Called (Ok (st', cs)) =>
          let (cs', res) := feed F h st' rows' src_end in
          ((cs ++ cs')%list, res)
      | Silent cs => (cs, Stalled)
      end
  end.

(** The chunks the formatter pushes, in order, and how its run ends. *)
Definition emit (F : Formatter) (h : heap) (rows : list row)
    (src_end : option error) : list string * ending :=
  let (st0, cs0) := construct F in
  match fopen F st0 with
  | Called (Throw e) => (cs0, Destroyed e)
  | Silent cs1 => ((cs0 ++ cs1)%list, Stalled)
  | Called (Ok (st1, cs1)) =>
      let (cs, res) := feed F h st1 rows src_end in
      ((cs0 ++ cs1 ++ cs)%list, res)
  end.

(** The bytes of a finished export. *)
Definition export (F : Formatter) (h : heap) (rows : list row) : reply string :=
  match emit F h rows None with
  | (cs, Finished) => Ok (String.concat EmptyString cs)
  | (_, Destroyed e) => Throw e
  | (_, Uncaught e) => Throw e
  | (cs, Stalled) => Silent cs
  end.

(** ** The pipeline *)

Record Sink : Type := {
  sstate : Type;
  swrite : sstate -> string -> result sstate
}.

(** The chunks are written in order until the sink refuses one: the sink
    afterwards, the chunks it received, and the outcome. *)
Fixpoint write_all (K : Sink) (k : sstate K) (cs : list string)
  : sstate K * list string * result unit :=
  match cs with
  | [] => (k, [], Ok tt)
  | c :: cs' =>
      match swrite K k c with
      | Ok k' =>
          let '(k'', received, res) := write_all K k' cs' in
          (k'', c :: received, res)
      | Throw e => (k, [], Throw e)
      end
  end.

(** What the timing of a run decides.  The streams buffer, so when a run is
    cut short the sink has taken [delivered] of the chunks pushed so far, and
    the rest is dropped.  A row step is called from the write of the source
    or, when the sink was not ready, later from a read of the formatter's
    output: Node catches what [_transform] throws only in the second case
    ([in_read]) and destroys the stream with it.  While a step waits for
    its callback the source is read on until the buffers are full, so its
    failure is noticed only when it comes early enough ([source_drained]). *)
Record schedule : Type := {
  delivered : nat;
  in_read : bool;
  source_drained : bool
}.

(** What reaches the sink: everything of a finished run, and of a run that
    is cut short what the sink had taken. *)
Definition reach (T : schedule) (cs : list string) (res : ending) : list string :=
  match res with
  | Finished => cs
  | _ => firstn (delivered T) cs
  end.

(** How the pipeline ends when the run of the formatter ended with [res]
    and the sink refused nothing. *)
Definition end_of_run (T : schedule) (src_end : option error) (res : ending)
  : ending :=
  match res with
  | Uncaught e => if in_read T then Destroyed e else Uncaught e
  | Stalled =>
      match src_end with
      | Some e => if source_drained T then Destroyed e else Stalled
      | None => Stalled
      end
  | _ => res
  end.

(** [pipeline(source, formatter, sink)] of [stream/promises]: the sink
    afterwards, the chunks it received, and how the run ends.  The promise
    resolves on [Finished], once the sink has taken every chunk, and
    rejects on [Destroyed]; on [Uncaught] the exception reaches no stream
    and on [Stalled] nothing more happens: the promise stays pending. *)
Definition pipeline (T : schedule) (F : Formatter) (K : Sink) (h : heap)
    (rows : list row) (src_end : option error) (k0 : sstate K)
  : sstate K * list string * ending :=
  let (cs, res) := emit F h rows src_end in
  let '(k, received, wres) := write_all K k0 (reach T cs res) in
  (k, received,
   match wres with
   | Throw e => Destroyed e
   | Ok _ => end_of_run T src_end res
   end).

(** ** [measureExport] *)

(** What the function does to its surroundings: calls of
    [client.release()] and lines of [console.error]. *)
Record world : Type := {
  released : nat;
  console_errors : list error
}.

(** An asynchronous function returns a value, throws (its promise
    rejects), is cut short by an exception raised outside it that nothing
    catches, or waits for ever for a promise that never settles. *)
Inductive settled (A : Type) : Type :=
| Resolved (a : A)
| Rejected (e : error)
| Crashed (e : error)
| Pending.

Arguments Resolved {A} a.
Arguments Rejected {A} e.
Arguments Crashed {A} e.
Arguments Pending {A}.

Definition M (A : Type) : Type := world -> world * settled A.

Definition ret {A : Type} (a : A) : M A := fun w => (w, Resolved a).

Definition throw {A : Type} (e : error) : M A := fun w => (w, Rejected e).

Definition lift {A : Type} (r : result A) : M A :=
  fun w => (w, match r with Ok a => Resolved a | Throw e => Rejected e end).

(** [await pipeline(...)]. *)
Definition await (en : ending) : M unit :=
  fun w => (w, match en with
               | Finished => Resolved tt
               | Destroyed e => Rejected e
               | Uncaught e => Crashed e
               | Stalled => Pending
               end).

Definition bindM {A B : Type} (m : M A) (k : A -> M B) : M B :=
  fun w =>
    match m w with
    | (w', Resolved a) => k a w'
    | (w', Rejected e) => (w', Rejected e)
    | (w', Crashed e) => (w', Crashed e)
    | (w', Pending) => (w', Pending)
    end.

Notation "x <~ c1 ;; c2" := (bindM c1 (fun x => c2))
  (at level 61, c1 at next level, right associativity).

(** [try { body } catch (err) { handler } finally { finalizer }]: the
    handler and the finalizer run for what the body returns or throws, not
    for an exception raised outside it, and not while the body waits. *)
Definition try_catch_finally {A : Type} (body : M A) (handler : error -> M A)
    (finalizer : M unit) : M A :=
  fun w =>
    let (w1, r1) := body w in
    let (w2, r2) :=
      match r1 with
      | Rejected err => handler err w1
      | _ => (w1, r1)
      end in
    match r2 with
    | Crashed e => (w2, Crashed e)
    | Pending => (w2, Pending)
    | _ =>
        let (w3, r3) := finalizer w2 in
        (w3, match r3 with
             | Resolved _ => r2
             | Rejected e => Rejected e
             | Crashed e => Crashed e
             | Pending => Pending
             end)
    end.

Definition client_release : M unit :=
  fun w => ({| released := S (released w); console_errors := console_errors w |},
            Resolved tt).

Definition console_error (err : error) : M unit :=
  fun w => ({| released := released w;
               console_errors := (console_errors w ++ [err])%list |}, Resolved tt).

Record null_state : Type := {
  bytesWritten : nat;
  chunkCount : nat;
  peakMem : nat
}.

(** The timing fields of the result are left out; the memory figure is in
    whole megabytes. *)
Record report : Type := {
  rformat : string;
  fileSizeBytes : nat;
  peakMemoryMB : nat
}.

Section Measure.

Variable writer : Type.
Variable openStream : schema -> reply (writer * list string).
Variable appendRow : writer -> props string -> reply (writer * list string).
Variable close : writer -> reply (list string).

(** The heap in use, in megabytes, when the sink samples it at a chunk
    count. *)
Variable heapUsedMB : nat -> nat.

(** The timing of the run. *)
Variable timing : schedule.

Definition getFormatter (columns : list column) (fmt : string) : result Formatter :=
  if String.eqb fmt "json" then Ok (JSONStreamFormatter columns)
  else if String.eqb fmt "csv" then Ok (CSVStreamFormatter columns)
  else if String.eqb fmt "xml" then Ok (XMLStreamFormatter columns)
  else if String.eqb fmt "parquet" then
    Ok (ParquetStreamFormatter writer openStream appendRow close columns)
  else Throw (Error_UnknownFormat fmt).

Definition null_write (st : null_state) (chunk : string) : result null_state :=
  let count := S (chunkCount st) in
  Ok {| bytesWritten := bytesWritten st + String.length chunk;
        chunkCount := count;
        peakMem :=
          if (count mod 500 =? 0)%nat then
            let used := heapUsedMB count in
            if (peakMem st <? used)%nat then used else peakMem st
          else peakMem st |}.

Definition nullStream : Sink := {| sstate := null_state; swrite := null_write |}.

(** The row source is the connection ([pool_connect], which may reject),
    the rows the query stream delivers and how the stream ends. *)
Definition measureExport (pool_connect : result unit) (format : string)
    (queryRows : list row) (queryEnd : option error) (h : heap)
    (columns : list column) : M report :=
  client <~ lift pool_connect ;;
  formatter <~ lift (getFormatter columns format) ;;
  try_catch_finally
    (let '(sink, _, res) :=
       pipeline timing formatter nullStream h queryRows queryEnd
         {| bytesWritten := 0; chunkCount := 0; peakMem := 0 |} in
     _ <~ await res ;;
     ret {| rformat := format;
            fileSizeBytes := bytesWritten sink;
            peakMemoryMB := peakMem sink |})
    (fun err => _ <~ console_error err ;; throw err)
    client_release.

End Measure.

(** * Vocabulary of the properties

    Definitions that follow the words of the specification, a reader for
    what the encoders write, and sample data. *)

Definition demo_columns : list column :=
  [ {| source := "id"; target := "id" |};
    {| source := "name"; target := "name" |};
    {| source := "value"; target := "val" |};
    {| source := "metadata"; target := "meta" |} ].

Definition demo_heap : heap :=
  [ HObject [("tag", VString "test"); ("index", VNumber (of_Z 0))];
    HArray [VNull; VUndefined; VNumber NaN; VRef 0] ].

Definition demo_row : row :=
  [ ("id", VNumber (of_Z 1)); ("name", VString ("AT&T " ++ dq ++ "ok" ++ dq));
    ("value", VNumber (of_Z 250)); ("metadata", VRef 0) ].

(** A run in which the sink takes every chunk as it is pushed: every row
    step is called from the write of the source, and of the [chunks] that
    were pushed none is left behind. *)
Definition sink_keeps_up (chunks : nat) : schedule :=
  {| delivered := chunks; in_read := false; source_drained := false |}.

(** A run in which the sink is slow: when the run is cut short it has taken
    [taken] chunks, and the row steps behind the first are called from
    reads of the formatter's output. *)
Definition sink_is_slow (taken : nat) : schedule :=
  {| delivered := taken; in_read := true; source_drained := false |}.

(** A writer for the examples, after what the parquetjs writer does behind
    the output object of [_construct] while it holds fewer rows than a row
    group: it counts the rows appended; opening writes the magic bytes and
    does not wait for them; appending writes nothing; closing writes the
    rows held and waits for the callback of that write, which never comes;
    closing without a row fails. *)
Definition sample_open (s : schema) : reply (nat * list string) :=
  Ok (0, ["PAR1"]).

Definition sample_append (held : nat) (r : props string)
  : reply (nat * list string) :=
  Ok (S held, []).

Definition sample_close (held : nat) : reply (list string) :=
  match held with
  | O => Throw (ExternalError "no rows")
  | S _ => Silent ["rows"]
  end.

(** ** The markup escape *)

(** What the specification asks of one character of the element text. *)
Definition xml_entity (c : ascii) : string :=
  if Ascii.eqb c "&" then "&amp;"
  else if Ascii.eqb c "<" then "&lt;"
  else if Ascii.eqb c ">" then "&gt;"
  else if Ascii.eqb c dquote then "&quot;"
  else if Ascii.eqb c "'" then "&apos;"
  else String c EmptyString.

(** The escape the specification describes: every character of the input
    is substituted once, and nothing that a substitution wrote is touched
    again. *)
Fixpoint xml_escape_spec (s : string) : string :=
  match s with
  | EmptyString => EmptyString
  | String c s' => xml_entity c ++ xml_escape_spec s'
  end.

(** ** The delimited-text encoder *)

(** The field text the specification describes: every double quote of the
    value written twice, every other character kept. *)
Fixpoint csv_double (s : string) : string :=
  match s with
  | EmptyString => EmptyString
  | String c s' =>
      if Ascii.eqb c dquote then String dquote (String dquote (csv_double s'))
      else String c (csv_double s')
  end.

(** A reader for a quoted field: after the opening quote, a doubled quote
    stands for one quote and a single quote closes the field.  It returns
    the field value and the text after the closing quote. *)
Fixpoint read_quoted_body (s : string) : option (string * string) :=
  match s with
  | EmptyString => None
  | String c s' =>
      if Ascii.eqb c dquote then
        match s' with
        | String c' s'' =>
            if Ascii.eqb c' dquote then
              match read_quoted_body s'' with
              | Some (v, rest) => Some (String dquote v, rest)
              | None => None
              end
            else Some (EmptyString, s')
        | EmptyString => Some (EmptyString, EmptyString)
        end
      else
        match read_quoted_body s' with
        | Some (v, rest) => Some (String c v, rest)
        | None => None
        end
  end.

Definition read_quoted_field (s : string) : option (string * string) :=
  match s with
  | String c s' => if Ascii.eqb c dquote then read_quoted_body s' else None
  | EmptyString => None
  end.

Definition starts_with (c : ascii) (s : string) : bool :=
  match s with
  | String a _ => Ascii.eqb a c
  | EmptyString => false
  end.

(** ** Circular structures and [JSON.stringify] *)

(** [circular h stack v]: serializing [v] while the objects of [stack] are
    being serialized reaches an object that is already being serialized. *)
Inductive circular (h : heap) : list nat -> value -> Prop :=
| circular_back : forall stack a,
    In a stack -> circular h stack (VRef a)
| circular_in_array : forall stack a items x,
    ~ In a stack -> nth_error h a = Some (HArray items) -> In x items ->
    circular h (a :: stack) x -> circular h stack (VRef a)
| circular_in_object : forall stack a props k x,
    ~ In a stack -> nth_error h a = Some (HObject props) -> In (k, x) props ->
    circular h (a :: stack) x -> circular h stack (VRef a).

(** A row whose projected object holds a circular structure. *)
Definition circular_row (columns : list column) (h : heap) (chunk : row) : Prop :=
  exists k x, In (k, x) (json_output columns chunk) /\ circular h [] x.

(** [f] fails with [e] exactly on the inputs that satisfy [P]. *)
Definition decides {A B : Type} (f : A -> result B) (P : A -> Prop) (e : error)
    (x : A) : Prop :=
  (f x = Throw e /\ P x) \/ (exists y, f x = Ok y /\ ~ P x).

(** ** Frames of an export *)

(** [runs F h st rows frames st']: [_transform] accepts [rows] one after the
    other from state [st], pushes [frames] (the chunks of each row, in row
    order) and leaves state [st']. *)
Inductive runs (F : Formatter) (h : heap)
  : fstate F -> list row -> list (list string) -> fstate F -> Prop :=
| runs_done : forall st, runs F h st [] [] st
| runs_row : forall st r st1 cs rows frames st',
    transform F h st r = Ok (st1, cs) ->
    runs F h st1 rows frames st' ->
    runs F h st (r :: rows) (cs :: frames) st'.

(** *** The structured-document encoder *)

(** The document of one row: the serialization of the projected object. *)
Definition json_row_doc (columns : list column) (h : heap) (chunk : row)
  : result json :=
  fresh_object_json h (json_output columns chunk).

Fixpoint json_frames (first : bool) (docs : list json) : list string :=
  match docs with
  | [] => []
  | d :: ds =>
      ((if first then EmptyString else ",") ++ json_print d) :: json_frames false ds
  end.

(** *** The delimited-text and markup encoders *)

Definition csv_line (columns : list column) (h : heap) (chunk : row)
  : result string :=
  fields <- mapM (csv_field h chunk) columns ;;
  Ok (String.concat "," fields ++ nl).

Definition xml_record (columns : list column) (h : heap) (chunk : row)
  : result string :=
  rowXml <- foldM (xml_element h chunk) columns ("  <record>" ++ nl) ;;
  Ok (rowXml ++ "  </record>" ++ nl).

(** ** Lines of a text *)

Definition newline : ascii := "010"%char.

Fixpoint count_char (c : ascii) (s : string) : nat :=
  match s with
  | EmptyString => O
  | String a s' => (if Ascii.eqb a c then 1 else 0) + count_char c s'
  end.

(** The number of newline-terminated lines. *)
Definition line_count (s : string) : nat := count_char newline s.

(** ** Reading JSON text

    The grammar of [JSON.parse], on the text of a document.  A number is
    kept as the text of its token.  A backslash-u escape is decoded when it
    names an ASCII character; the escapes of other characters are outside
    the text model and are refused. *)

Definition is_ws (c : ascii) : bool :=
  let n := nat_of_ascii c in
  ((n =? 32) || (n =? 9) || (n =? 10) || (n =? 13))%nat.

Fixpoint skip_ws (s : string) : string :=
  match s with
  | String c s' => if is_ws c then skip_ws s' else s
  | EmptyString => EmptyString
  end.

Fixpoint strip_prefix (p s : string) : option string :=
  match p, s with
  | EmptyString, _ => Some s
  | String a p', String b s' => if Ascii.eqb a b then strip_prefix p' s' else None
  | String _ _, EmptyString => None
  end.

(** The longest run of digits at the head of a text, and the rest. *)
Fixpoint span_digits (s : string) : string * string :=
  match s with
  | String c s' =>
      if is_digit c then let (ds, rest) := span_digits s' in (String c ds, rest)
      else (EmptyString, s)
  | EmptyString => (EmptyString, EmptyString)
  end.

Definition lex_int (s : string) : option (string * string) :=
  match s with
  | String c s' =>
      if Ascii.eqb c "0" then Some ("0", s')
      else if is_digit c then
        let (ds, rest) := span_digits s' in Some (String c ds, rest)
      else None
  | EmptyString => None
  end.

Definition lex_digits1 (s : string) : option (string * string) :=
  match span_digits s with
  | (EmptyString, _) => None
  | (ds, rest) => Some (ds, rest)
  end.

Definition lex_frac (s : string) : option (string * string) :=
  match s with
  | String c s' =>
      if Ascii.eqb c "." then
        match lex_digits1 s' with
        | Some (ds, rest) => Some (String c ds, rest)
        | None => None
        end
      else Some (EmptyString, s)
  | EmptyString => Some (EmptyString, s)
  end.

Definition lex_sign (s : string) : string * string :=
  match s with
  | String c s' =>
      if (Ascii.eqb c "+" || Ascii.eqb c "-")%bool then (String c EmptyString, s')
      else (EmptyString, s)
  | EmptyString => (EmptyString, s)
  end.

Definition lex_exp (s : string) : option (string * string) :=
  match s with
  | String c s' =>
      if (Ascii.eqb c "e" || Ascii.eqb c "E")%bool then
        let (sign, s'') := lex_sign s' in
        match lex_digits1 s'' with
        | Some (ds, rest) => Some (String c (sign ++ ds), rest)
        | None => None
        end
      else Some (EmptyString, s)
  | EmptyString => Some (EmptyString, s)
  end.

(** A number token at the head of a text: the token and the rest. *)
Definition lex_number (s : string) : option (string * string) :=
  let (sign, s1) :=
    match s with
    | String c s' => if Ascii.eqb c "-" then ("-", s') else (EmptyString, s)
    | EmptyString => (EmptyString, s)
    end in
  match lex_int s1 with
  | None => None
  | Some (i, s2) =>
      match lex_frac s2 with
      | None => None
      | Some (f, s3) =>
          match lex_exp s3 with
          | None => None
          | Some (e, s4) => Some (sign ++ i ++ f ++ e, s4)
          end
      end
  end.

Definition hex_value (c : ascii) : option nat :=
  let n := nat_of_ascii c in
  if ((48 <=? n) && (n <=? 57))%nat then Some (n - 48)
  else if ((97 <=? n) && (n <=? 102))%nat then Some (n - 87)
  else if ((65 <=? n) && (n <=? 70))%nat then Some (n - 55)
  else None.

Definition hex4 (a b c d : ascii) : option nat :=
  match hex_value a, hex_value b, hex_value c, hex_value d with
  | Some x, Some y, Some z, Some w => Some (((x * 16 + y) * 16 + z) * 16 + w)
  | _, _, _, _ => None
  end.

(** The character a two-character escape stands for. *)
Definition simple_escape (c : ascii) : option ascii :=
  let n := nat_of_ascii c in
  if (n =? 34)%nat then Some dquote
  else if (n =? 92)%nat then Some "\"%char
  else if (n =? 47)%nat then Some "/"%char
  else if (n =? 98)%nat then Some (ascii_of_nat 8)
  else if (n =? 102)%nat then Some (ascii_of_nat 12)
  else if (n =? 110)%nat then Some (ascii_of_nat 10)
  else if (n =? 114)%nat then Some (ascii_of_nat 13)
  else if (n =? 116)%nat then Some (ascii_of_nat 9)
  else None.

(** A string token after its opening quote: the string and the text after
    the closing quote. *)
Fixpoint parse_string_body (s : string) : option (string * string) :=
  match s with
  | EmptyString => None
  | String c s' =>
      if Ascii.eqb c dquote then Some (EmptyString, s')
      else if Ascii.eqb c "\" then
        match s' with
        | String x s'' =>
            if Ascii.eqb x "u" then
              match s'' with
              | String h1 (String h2 (String h3 (String h4 s5))) =>
                  match hex4 h1 h2 h3 h4 with
                  | Some n =>
                      if (n <? 128)%nat then
                        match parse_string_body s5 with
                        | Some (v, rest) => Some (String (ascii_of_nat n) v, rest)
                        | None => None
                        end
                      else None
                  | None => None
                  end
              | _ => None
              end
            else
              match simple_escape x with
              | Some a =>
                  match parse_string_body s'' with
                  | Some (v, rest) => Some (String a v, rest)
                  | None => None
                  end
              | None => None
              end
        | EmptyString => None
        end
      else if (nat_of_ascii c <? 32)%nat then None
      else
        match parse_string_body s' with
        | Some (v, rest) => Some (String c v, rest)
        | None => None
        end
  end.

(** One member of an object: a string token, a colon and a value. *)
Definition parse_member (parse : string -> option (json * string)) (s : string)
  : option ((string * json) * string) :=
  match skip_ws s with
  | String c r =>
      if Ascii.eqb c dquote then
        match parse_string_body r with
        | Some (k, r1) =>
            match skip_ws r1 with
            | String c2 r2 =>
                if Ascii.eqb c2 ":" then
                  match parse r2 with
                  | Some (v, rest) => Some ((k, v), rest)
                  | None => None
                  end
                else None
            | EmptyString => None
            end
        | None => None
        end
      else None
  | EmptyString => None
  end.

Definition starts_number (c : ascii) : bool :=
  (is_digit c || Ascii.eqb c "-")%bool.

(** A value with the white space around it; the elements of an array and
    the members of an object after the first one, up to the closing
    bracket.  Every nested call reads a text shorter than its caller's, so
    fuel above the length of the text is never used up. *)
Fixpoint parse_value (fuel : nat) (s : string) {struct fuel}
  : option (json * string) :=
  match fuel with
  | O => None
  | S f =>
      match skip_ws s with
      | EmptyString => None
      | String c r =>
          if starts_number c then
            match lex_number (String c r) with
            | Some (lexeme, rest) => Some (JNum lexeme, skip_ws rest)
            | None => None
            end
          else if Ascii.eqb c dquote then
            match parse_string_body r with
            | Some (str, rest) => Some (JStr str, skip_ws rest)
            | None => None
            end
          else if Ascii.eqb c "[" then
            match skip_ws r with
            | EmptyString => None
            | String c' r' =>
                if Ascii.eqb c' "]" then Some (JArr [], skip_ws r')
                else
                  match parse_value f r with
                  | Some (v, rest) =>
                      match more_elements f rest with
                      | Some (vs, rest') => Some (JArr (v :: vs), skip_ws rest')
                      | None => None
                      end
                  | None => None
                  end
            end
          else if Ascii.eqb c "{" then
            match skip_ws r with
            | EmptyString => None
            | String c' r' =>
                if Ascii.eqb c' "}" then Some (JObj [], skip_ws r')
                else
                  match parse_member (parse_value f) r with
                  | Some (m, rest) =>
                      match more_members f rest with
                      | Some (ms, rest') => Some (JObj (m :: ms), skip_ws rest')
                      | None => None
                      end
                  | None => None
                  end
            end
          else
            match strip_prefix "true" (String c r) with
            | Some rest => Some (JBool true, skip_ws rest)
            | None =>
                match strip_prefix "false" (String c r) with
                | Some rest => Some (JBool false, skip_ws rest)
                | None =>
                    match strip_prefix "null" (String c r) with
                    | Some rest => Some (JNull, skip_ws rest)
                    | None => None
                    end
                end
            end
      end
  end
with more_elements (fuel : nat) (s : string) {struct fuel}
  : option (list json * string) :=
  match fuel with
  | O => None
  | S f =>
      match s with
      | EmptyString => None
      | String c r =>
          if Ascii.eqb c "]" then Some ([], r)
          else if Ascii.eqb c "," then
            match parse_value f r with
            | Some (v, rest) =>
                match more_elements f rest with
                | Some (vs, rest') => Some (v :: vs, rest')
                | None => None
                end
            | None => None
            end
          else None
      end
  end
with more_members (fuel : nat) (s : string) {struct fuel}
  : option (list (string * json) * string) :=
  match fuel with
  | O => None
  | S f =>
      match s with
      | EmptyString => None
      | String c r =>
          if Ascii.eqb c "}" then Some ([], r)
          else if Ascii.eqb c "," then
            match parse_member (parse_value f) r with
            | Some (m, rest) =>
                match more_members f rest with
                | Some (ms, rest') => Some (m :: ms, rest')
                | None => None
                end
            | None => None
            end
          else None
      end
  end.

(** [JSON.parse]: one value and nothing after it. *)
Definition JSON_parse (s : string) : option json :=
  match parse_value (S (String.length s)) s with
  | Some (j, EmptyString) => Some j
  | _ => None
  end.

Definition starts_digit (s : string) : bool :=
  match s with
  | String c _ => is_digit c
  | EmptyString => false
  end.

(** What may follow a value inside a document: nothing, a comma or a
    closing bracket. *)
Definition delimited (rest : string) : bool :=
  match rest with
  | EmptyString => true
  | String c _ => (Ascii.eqb c "," || Ascii.eqb c "]" || Ascii.eqb c "}")%bool
  end.

(** The text is exactly one number token. *)
Definition valid_number (l : string) : bool :=
  match lex_number l with
  | Some (l', EmptyString) => String.eqb l' l
  | _ => false
  end.

Fixpoint json_wf (j : json) : bool :=
  match j with
  | JNum lexeme => valid_number lexeme
  | JArr elements => forallb json_wf elements
  | JObj members => forallb (fun m => json_wf (snd m)) members
  | _ => true
  end.

(** The text after the first item of a comma-separated list. *)
Fixpoint tail_text (l : list string) : string :=
  match l with
  | [] => EmptyString
  | y :: l' => "," ++ y ++ tail_text l'
  end.

Definition member_text (m : string * json) : string :=
  json_quote (fst m) ++ ":" ++ json_print (snd m).

(** The characters a value can begin with. *)
Definition value_start (c : ascii) : bool :=
  (starts_number c || Ascii.eqb c dquote || Ascii.eqb c "[" || Ascii.eqb c "{"
   || Ascii.eqb c "t" || Ascii.eqb c "f" || Ascii.eqb c "n")%bool.

(** [j] is read back from its own text, whatever delimited text follows. *)
Definition reads_back (j : json) : Prop :=
  json_wf j = true ->
  forall fuel rest,
    delimited rest = true ->
    String.length (json_print j ++ rest) < fuel ->
    parse_value fuel (json_print j ++ rest) = Some (j, rest).

(** * Readers for what the string encoders write *)

(** ** Records of delimited text

    A record is a newline alone (no field), or quoted fields separated by
    commas and ended by a newline; a newline inside the quotes belongs to
    the field.  [fuel] bounds the number of fields. *)

Fixpoint read_more_fields (fuel : nat) (s : string)
  : option (list string * string) :=
  match fuel with
  | O => None
  | S f =>
      match s with
      | EmptyString => None
      | String c s' =>
          if Ascii.eqb c newline then Some ([], s')
          else if Ascii.eqb c "," then
            match read_quoted_field s' with
            | Some (v, rest) =>
                match read_more_fields f rest with
                | Some (vs, rest') => Some (v :: vs, rest')
                | None => None
                end
            | None => None
            end
          else None
      end
  end.

Definition read_record (s : string) : option (list string * string) :=
  match s with
  | EmptyString => None
  | String c s' =>
      if Ascii.eqb c newline then Some ([], s')
      else
        match read_quoted_field s with
        | Some (v, rest) =>
            match read_more_fields (S (String.length rest)) rest with
            | Some (vs, rest') => Some (v :: vs, rest')
            | None => None
            end
        | None => None
        end
  end.

(** The records of a text, up to its end.  [fuel] bounds their number. *)
Fixpoint read_records (fuel : nat) (s : string) : option (list (list string)) :=
  match s with
  | EmptyString => Some []
  | _ =>
      match fuel with
      | O => None
      | S f =>
          match read_record s with
          | Some (r, rest) =>
              match read_records f rest with
              | Some rs => Some (r :: rs)
              | None => None
              end
          | None => None
          end
      end
  end.

Definition read_csv_body (s : string) : option (list (list string)) :=
  read_records (String.length s) s.

(** ** Element text of markup

    The reader of element text: each of the five predefined entities stands
    for its character; every other character stands for itself. *)

Definition begins_with (p s : string) : bool :=
  match strip_prefix p s with
  | Some _ => true
  | None => false
  end.

(** The character named at the head of the text after an ampersand, and the
    length of the name with its semicolon. *)
Definition xml_entity_at (s : string) : option (ascii * nat) :=
  if begins_with "amp;" s then Some ("&"%char, 4)
  else if begins_with "lt;" s then Some ("<"%char, 3)
  else if begins_with "gt;" s then Some (">"%char, 3)
  else if begins_with "quot;" s then Some (dquote, 5)
  else if begins_with "apos;" s then Some ("'"%char, 5)
  else None.

(** [skip] characters of an entity name are still to be passed over. *)
Fixpoint xml_unescape_from (skip : nat) (s : string) : string :=
  match s with
  | EmptyString => EmptyString
  | String c s' =>
      match skip with
      | S n => xml_unescape_from n s'
      | O =>
          if Ascii.eqb c "&" then
            match xml_entity_at s' with
            | Some (a, len) => String a (xml_unescape_from len s')
            | None => String c (xml_unescape_from 0 s')
            end
          else String c (xml_unescape_from 0 s')
      end
  end.

Definition xml_unescape (s : string) : string := xml_unescape_from 0 s.

(** The characters that delimit markup and attribute values. *)
Definition xml_markup_char (c : ascii) : bool :=
  (Ascii.eqb c "<" || Ascii.eqb c ">" || Ascii.eqb c dquote || Ascii.eqb c "'")%bool.

(** ** Members of the projected object *)

Definition is_undefined (v : value) : bool :=
  match v with
  | VUndefined => true
  | _ => false
  end.

(** ** One row in the three string formats *)

(** The child element of a column that holds the normalized value [val]. *)
Definition xml_child (cv : column * string) : string :=
  "    <" ++ target (fst cv) ++ ">" ++ xml_escape (snd cv)
    ++ "</" ++ target (fst cv) ++ ">" ++ nl.

(** The normalized values of the projected columns of a row, in column
    order. *)
Definition normalized (columns : list column) (h : heap) (chunk : row)
  : result (list string) :=
  mapM (fun col => prepareValue h (get_prop chunk (source col))) columns.

(** ** Text that needs no escaping *)

(** The characters that the delimited-text or the markup encoder rewrite. *)
Definition rewritten_char (c : ascii) : bool :=
  (Ascii.eqb c "&" || xml_markup_char c)%bool.

Definition plain_text (s : string) : bool :=
  str_forall (fun c => negb (rewritten_char c)) s.

(** A value that is neither a string nor a nested structure. *)
Definition is_scalar (v : value) : bool :=
  match v with
  | VString _ | VRef _ => false
  | _ => true
  end.

(** * The benchmark drivers

    [runBenchmark] of [lib/benchmark.js], and [index.js] with its own
    [measureExport]. *)

(** ** Asynchronous code over a state *)

Section Async.

Variable W : Type.

Definition async (A : Type) : Type := W -> W * settled A.

Definition aret {A : Type} (a : A) : async A := fun w => (w, Resolved a).

Definition abind {A B : Type} (m : async A) (k : A -> async B) : async B :=
  fun w =>
    match m w with
    | (w', Resolved a) => k a w'
    | (w', Rejected e) => (w', Rejected e)
    | (w', Crashed e) => (w', Crashed e)
    | (w', Pending) => (w', Pending)
    end.

(** [try { body } catch (err) { handler }]. *)
Definition try_catch {A : Type} (body : async A) (handler : error -> async A)
  : async A :=
  fun w =>
    match body w with
    | (w', Rejected err) => handler err w'
    | other => other
    end.

(** [try { body } finally { finalizer }]. *)
Definition try_finally {A : Type} (body : async A) (finalizer : async unit)
  : async A :=
  fun w =>
    match body w with
    | (w', Crashed e) => (w', Crashed e)
    | (w', Pending) => (w', Pending)
    | (w', r) =>
        match finalizer w' with
        | (w'', Resolved _) => (w'', r)
        | (w'', Rejected e) => (w'', Rejected e)
        | (w'', Crashed e) => (w'', Crashed e)
        | (w'', Pending) => (w'', Pending)
        end
    end.

End Async.

Arguments aret {W A} a.
Arguments abind {W A B} m k.
Arguments try_catch {W A} body handler.
Arguments try_finally {W A} body finalizer.

Notation "x <<- c1 ;; c2" := (abind c1 (fun x => c2))
  (at level 61, c1 at next level, right associativity).

(** ** The process of a driver *)

(** What a driver does besides what [measureExport] does ([pworld]): the
    lines of [console.log], the lines of [console.error] that carry a label
    (the error stands for the error or its message), the tables of
    [console.table], the calls of [global.gc()], the delays of [setTimeout]
    that were waited for, and the calls of [pool.end()]. *)
Record process (R : Type) : Type := {
  pworld : world;
  console_log : list string;
  error_lines : list (string * error);
  tables : list (list R);
  gc_runs : nat;
  timeouts : list nat;
  pool_ended : nat
}.

Arguments pworld {R} p.
Arguments console_log {R} p.
Arguments error_lines {R} p.
Arguments tables {R} p.
Arguments gc_runs {R} p.
Arguments timeouts {R} p.
Arguments pool_ended {R} p.

Section Process.

Variable R : Type.

(** An asynchronous call that acts on the world of [measureExport]. *)
Definition in_world {A : Type} (m : M A) : async (process R) A :=
  fun p =>
    let (w, r) := m (pworld p) in
    ({| pworld := w; console_log := console_log p; error_lines := error_lines p;
        tables := tables p; gc_runs := gc_runs p; timeouts := timeouts p;
        pool_ended := pool_ended p |}, r).

Definition log (line : string) : async (process R) unit :=
  fun p =>
    ({| pworld := pworld p; console_log := (console_log p ++ [line])%list;
        error_lines := error_lines p; tables := tables p; gc_runs := gc_runs p;
        timeouts := timeouts p; pool_ended := pool_ended p |}, Resolved tt).

Definition log_error (label : string) (e : error) : async (process R) unit :=
  fun p =>
    ({| pworld := pworld p; console_log := console_log p;
        error_lines := (error_lines p ++ [(label, e)])%list; tables := tables p;
        gc_runs := gc_runs p; timeouts := timeouts p;
        pool_ended := pool_ended p |}, Resolved tt).

Definition log_table (rows : list R) : async (process R) unit :=
  fun p =>
    ({| pworld := pworld p; console_log := console_log p;
        error_lines := error_lines p; tables := (tables p ++ [rows])%list;
        gc_runs := gc_runs p; timeouts := timeouts p;
        pool_ended := pool_ended p |}, Resolved tt).

(** [if (global.gc) global.gc()]: the collector runs when node was started
    with the flag that exposes it. *)
Definition forceGC (gc_exposed : bool) : async (process R) unit :=
  fun p =>
    ({| pworld := pworld p; console_log := console_log p;
        error_lines := error_lines p; tables := tables p;
        gc_runs := if gc_exposed then S (gc_runs p) else gc_runs p;
        timeouts := timeouts p; pool_ended := pool_ended p |}, Resolved tt).

(** [await new Promise(resolve => setTimeout(resolve, ms))]. *)
Definition sleep (ms : nat) : async (process R) unit :=
  fun p =>
    ({| pworld := pworld p; console_log := console_log p;
        error_lines := error_lines p; tables := tables p; gc_runs := gc_runs p;
        timeouts := (timeouts p ++ [ms])%list; pool_ended := pool_ended p |},
     Resolved tt).

Definition pool_end : async (process R) unit :=
  fun p =>
    ({| pworld := pworld p; console_log := console_log p;
        error_lines := error_lines p; tables := tables p; gc_runs := gc_runs p;
        timeouts := timeouts p; pool_ended := S (pool_ended p) |}, Resolved tt).

End Process.

Arguments in_world {R A} m.
Arguments log {R} line.
Arguments log_error {R} label e.
Arguments log_table {R} rows.
Arguments forceGC {R} gc_exposed.
Arguments sleep {R} ms.
Arguments pool_end {R}.

(** What the database does for the run of one format: whether the pool
    hands out a client, the rows the query stream delivers, the heap their
    nested values live in, and how the stream ends; and the timing of the
    run. *)
Record db_run : Type := {
  db_connect : result unit;
  db_rows : list row;
  db_heap : heap;
  db_end : option error;
  db_timing : schedule
}.

(** ** [runBenchmark] *)

Section RunBenchmark.

Variable writer : Type.
Variable openStream : schema -> reply (writer * list string).
Variable appendRow : writer -> props string -> reply (writer * list string).
Variable close : writer -> reply (list string).
Variable heapUsedMB : nat -> nat.
Variable gc_exposed : bool.

(** The pool, by the format whose run asks it for a client. *)
Variable pool : string -> db_run.

Definition benchmark_columns : list column :=
  [ {| source := "id"; target := "id" |};
    {| source := "name"; target := "name" |};
    {| source := "value"; target := "val" |};
    {| source := "metadata"; target := "meta" |} ].

(** The body of the loop over the formats, with the results pushed so
    far. *)
Fixpoint benchmark_loop (formats : list string) (results : list report)
  : async (process report) (list report) :=
  match formats with
  | [] => aret results
  | fmt :: formats' =>
      _ <<- log ("Benchmarking " ++ fmt ++ "...") ;;
      _ <<- forceGC gc_exposed ;;
      _ <<- sleep 200 ;;
      result <<- in_world
                   (measureExport writer openStream appendRow close heapUsedMB
                      (db_timing (pool fmt))
                      (db_connect (pool fmt)) fmt (db_rows (pool fmt))
                      (db_end (pool fmt)) (db_heap (pool fmt)) benchmark_columns) ;;
      benchmark_loop formats' (results ++ [result])%list
  end.

Definition runBenchmark : async (process report) (list report) :=
  benchmark_loop ["csv"; "json"; "xml"; "parquet"] [].

End RunBenchmark.

(** Does the pool hand out a client for the run of a format? *)
Definition connected (pool : string -> db_run) (fmt : string) : bool :=
  match db_connect (pool fmt) with
  | Ok _ => true
  | Throw _ => false
  end.

Definition benchmarking_line (fmt : string) : string :=
  "Benchmarking " ++ fmt ++ "...".

(** The process once the run of a format was announced, the collector
    forced and the pause waited for, with the world [w] that
    [measureExport] left. *)
Definition after_run {R : Type} (gc_exposed : bool) (p : process R) (fmt : string)
    (w : world) : process R :=
  {| pworld := w;
     console_log := (console_log p ++ [benchmarking_line fmt])%list;
     error_lines := error_lines p;
     tables := tables p;
     gc_runs := if gc_exposed then S (gc_runs p) else gc_runs p;
     timeouts := (timeouts p ++ [200])%list;
     pool_ended := pool_ended p |}.

(** ** Figures of a report

    For a byte count that a double holds exactly (below 2^53, as every
    count the sink and the heap can reach), [bytes / 1024 / 1024] is exact
    in double arithmetic; [toFixed(2)] and [Math.round(x * 100)] both pick
    the integer [n] for which [n / 100] is nearest to the quotient, the
    larger one of two. *)
Definition hundredths_of_MB (bytes : N) : N :=
  ((100 * bytes + 524288) / 1048576)%N.

(** [toFixed(2)] once the integer is picked: its digits, filled with zeros
    to three, with the point before the last two. *)
Definition fixed2 (n : N) : string :=
  let m := digits_of n in
  let m :=
    if (String.length m <=? 2)%nat
    then repeat_char "0" (3 - String.length m) ++ m else m in
  let k := String.length m in
  str_take (k - 2) m ++ "." ++ str_drop (k - 2) m.

(** [(bytesWritten / 1024 / 1024).toFixed(2)]. *)
Definition fileSizeMB (bytesWritten : nat) : string :=
  fixed2 (hundredths_of_MB (N.of_nat bytesWritten)).

(** [Math.round(peakMem * 100) / 100] as a text, for a peak of [peakBytes]
    bytes of heap. *)
Definition rounded_MB (peakBytes : nat) : string :=
  Number_toString (Finite false (hundredths_of_MB (N.of_nat peakBytes)) (-2)).

(** ** [index.js] *)

Module Index.

Record report : Type := {
  format : string;
  duration : string;
  size : string;
  memory : string
}.

(** U+1F680, the first character of the opening line. *)
Definition rocket : string :=
  String (ascii_of_nat 240)
    (String (ascii_of_nat 159)
       (String (ascii_of_nat 154) (String (ascii_of_nat 128) EmptyString))).

Definition opening_line : string := rocket ++ " Starting Benchmark...".

Section Driver.

Variable writer : Type.
Variable openStream : schema -> reply (writer * list string).
Variable appendRow : writer -> props string -> reply (writer * list string).
Variable close : writer -> reply (list string).

(** The bytes of heap in use when the sink samples it at a chunk count; the
    sink compares the quotients by 2^20, which is comparing the byte
    counts. *)
Variable heapUsed : nat -> nat.

(** The text of [(diff[0] + diff[1] / 1e9).toFixed(4)] for the run of a
    format. *)
Variable elapsed : string -> string.

Variable gc_exposed : bool.

(** The pool, by the format whose run asks it for a client, and whether it
    answers the first query. *)
Variable pool : string -> db_run.
Variable db_ready : result unit.

Definition measureExport (fmt : string) (columns : list column)
  : async world report :=
  client <<- lift (db_connect (pool fmt)) ;;
  try_finally
    (formatter <<- lift (getFormatter writer openStream appendRow close columns fmt) ;;
     let '(sink, _, res) :=
       pipeline (db_timing (pool fmt)) formatter (nullStream heapUsed)
         (db_heap (pool fmt))
         (db_rows (pool fmt)) (db_end (pool fmt))
         {| bytesWritten := 0; chunkCount := 0; peakMem := 0 |} in
     _ <<- await res ;;
     aret {| format := fmt;
             duration := elapsed fmt ++ "s";
             size := fileSizeMB (bytesWritten sink) ++ " MB";
             memory := rounded_MB (peakMem sink) ++ " MB" |})
    client_release.

Definition columns : list column :=
  [ {| source := "id"; target := "id" |};
    {| source := "name"; target := "name" |};
    {| source := "value"; target := "val" |};
    {| source := "metadata"; target := "meta" |} ].

(** The loop over the formats, with the results pushed so far: a run that
    fails is logged and the loop goes on. *)
Fixpoint loop (formats : list string) (results : list report)
  : async (process report) (list report) :=
  match formats with
  | [] => aret results
  | fmt :: formats' =>
      _ <<- log (benchmarking_line fmt) ;;
      _ <<- forceGC gc_exposed ;;
      _ <<- sleep 200 ;;
      results' <<- try_catch
                     (result <<- in_world (measureExport fmt columns) ;;
                      aret (results ++ [result])%list)
                     (fun e =>
                        _ <<- log_error ("Failed " ++ fmt ++ ":") e ;;
                        aret results) ;;
      loop formats' results'
  end.

Definition main : async (process report) unit :=
  _ <<- log opening_line ;;
  try_finally
    (try_catch
       (_ <<- in_world (lift db_ready) ;;
        results <<- loop ["csv"; "json"; "xml"; "parquet"] [] ;;
        log_table results)
       (fun err => log_error "Fatal:" err))
    pool_end.

(** What the run of a format comes to, whatever the world it starts in. *)
Definition verdict (fmt : string) : settled report :=
  snd (measureExport fmt columns {| released := 0; console_errors := [] |}).

Definition reports_of (formats : list string) : list report :=
  flat_map (fun fmt => match verdict fmt with
                       | Resolved rep => [rep]
                       | _ => []
                       end) formats.

Definition failures_of (formats : list string) : list (string * error) :=
  flat_map (fun fmt => match verdict fmt with
                       | Rejected e => [("Failed " ++ fmt ++ ":", e)]
                       | _ => []
                       end) formats.

End Driver.

End Index.

(** The process once the run of a format was announced, prepared and
    settled: the client was released when one was obtained, and a failure
    was logged. *)
Definition after_index_run {R : Type} (gc_exposed : bool) (pool : string -> db_run)
    (p : process R) (fmt : string) (failure : list (string * error)) : process R :=
  {| pworld :=
       if connected pool fmt
       then {| released := S (released (pworld p));
               console_errors := console_errors (pworld p) |}
       else pworld p;
     console_log := (console_log p ++ [benchmarking_line fmt])%list;
     error_lines := (error_lines p ++ failure)%list;
     tables := tables p;
     gc_runs := if gc_exposed then S (gc_runs p) else gc_runs p;
     timeouts := (timeouts p ++ [200])%list;
     pool_ended := pool_ended p |}.

(** * [seed.js] *)

Module Seed.

(** What the script does: the statements given to [client.query], the lines
    of [console.log], the errors given to [console.error], the calls of
    [client.release()] and of [pool.end()]. *)
Record seeding : Type := {
  sent : list string;
  seed_log : list string;
  seed_errors : list error;
  seed_released : nat;
  seed_ended : nat
}.

(** U+1F331 and U+2705, the first characters of the first and of the last
    line logged. *)
Definition seedling : string :=
  String (ascii_of_nat 240)
    (String (ascii_of_nat 159)
       (String (ascii_of_nat 140) (String (ascii_of_nat 177) EmptyString))).

Definition check_mark : string :=
  String (ascii_of_nat 226)
    (String (ascii_of_nat 156) (String (ascii_of_nat 133) EmptyString)).

Definition seeding_line : string := seedling ++ " Seeding Database...".
Definition inserting_line : string := "Inserting 100,000 rows...".
Definition done_line : string := check_mark ++ " Done!".

Definition drop_table : string := "DROP TABLE IF EXISTS records".

Definition create_table : string :=
  nl ++ "            CREATE TABLE records (" ++ nl
     ++ "                id SERIAL PRIMARY KEY," ++ nl
     ++ "                name TEXT," ++ nl
     ++ "                value INTEGER," ++ nl
     ++ "                metadata JSONB" ++ nl
     ++ "            )" ++ nl
     ++ "        ".

(** A count interpolated into a template; the counts of the script are
    integers that a number holds exactly (below 2^53). *)
Definition number_text (n : N) : string := Number_toString (of_Z (Z.of_N n)).

(** [len] consecutive numbers from [start]. *)
Fixpoint count_from (start : N) (len : nat) : list N :=
  match len with
  | O => []
  | S len' => start :: count_from (N.succ start) len'
  end.

Section Script.

Variable pool_connect : result unit.

(** Whether the database accepts a statement, by the number of statements
    sent before it. *)
Variable exec : nat -> string -> result unit.

(** [Math.floor(Math.random() * 1000)] as drawn for the row of an index. *)
Variable random1000 : N -> N.

Definition say (line : string) : async seeding unit :=
  fun s =>
    ({| sent := sent s; seed_log := (seed_log s ++ [line])%list;
        seed_errors := seed_errors s; seed_released := seed_released s;
        seed_ended := seed_ended s |}, Resolved tt).

Definition report_error (e : error) : async seeding unit :=
  fun s =>
    ({| sent := sent s; seed_log := seed_log s;
        seed_errors := (seed_errors s ++ [e])%list;
        seed_released := seed_released s; seed_ended := seed_ended s |},
     Resolved tt).

Definition client_query (text : string) : async seeding unit :=
  fun s =>
    ({| sent := (sent s ++ [text])%list; seed_log := seed_log s;
        seed_errors := seed_errors s; seed_released := seed_released s;
        seed_ended := seed_ended s |},
     match exec (List.length (sent s)) text with
     | Ok _ => Resolved tt
     | Throw e => Rejected e
     end).

Definition release_and_end : async seeding unit :=
  fun s =>
    ({| sent := sent s; seed_log := seed_log s; seed_errors := seed_errors s;
        seed_released := S (seed_released s); seed_ended := S (seed_ended s) |},
     Resolved tt).

(** [JSON.stringify({ tag: 'test', index: k })]. *)
Definition meta (k : N) : result string :=
  JSON_stringify_fresh []
    [("tag", VString "test"); ("index", VNumber (of_Z (Z.of_N k)))].

(** The tuple pushed for the row of index [k]. *)
Definition value_tuple (k : N) : result string :=
  m <- meta k ;;
  Ok ("('Record_" ++ number_text k ++ "', " ++ number_text (random1000 k)
        ++ ", '" ++ m ++ "'::jsonb)").

(** The statement of the batch that starts at row [i]. *)
Definition insert_statement (batch : N) (i : N) : result string :=
  values <- mapM (fun j => value_tuple (i + j)) (count_from 0 (N.to_nat batch)) ;;
  Ok ("INSERT INTO records (name, value, metadata) VALUES "
        ++ String.concat "," values).

(** [for (let i = ...; i < total; i += batch)]; [fuel] bounds the number
    of turns. *)
Fixpoint insert_loop (fuel : nat) (total batch : N) (i : N) : async seeding unit :=
  if (i <? total)%N then
    match fuel with
    | O => fun s => (s, Rejected OutOfFuel)
    | S f =>
        statement <<- (fun s => (s, match insert_statement batch i with
                                    | Ok text => Resolved text
                                    | Throw e => Rejected e
                                    end)) ;;
        _ <<- client_query statement ;;
        insert_loop f total batch (i + batch)
    end
  else aret tt.

(** The script with [total] rows in batches of [batch]. *)
Definition script (total batch : N) : async seeding unit :=
  client <<- (fun s => (s, match pool_connect with
                           | Ok _ => Resolved tt
                           | Throw e => Rejected e
                           end)) ;;
  try_finally
    (try_catch
       (_ <<- say seeding_line ;;
        _ <<- client_query drop_table ;;
        _ <<- client_query create_table ;;
        _ <<- say inserting_line ;;
        _ <<- insert_loop (S (N.to_nat total)) total batch 0 ;;
        say done_line)
       report_error)
    release_and_end.

Definition main : async seeding unit := script 100000 5000.

End Script.

End Seed.

(** ** What the script sends *)

Section SeedText.

Variable random1000 : N -> N.

Definition meta_text (k : N) : string :=
  "{" ++ dq ++ "tag" ++ dq ++ ":" ++ dq ++ "test" ++ dq ++ "," ++ dq ++ "index"
      ++ dq ++ ":" ++ Seed.number_text k ++ "}".

Definition tuple_text (k : N) : string :=
  "('Record_" ++ Seed.number_text k ++ "', " ++ Seed.number_text (random1000 k)
    ++ ", '" ++ meta_text k ++ "'::jsonb)".

(** The indices of the rows of the batch that starts at row [i], in the
    order of their tuples. *)
Definition batch_rows (batch : N) (i : N) : list N :=
  map (fun j => (i + j)%N) (Seed.count_from 0 (N.to_nat batch)).

Definition insert_text (batch : N) (i : N) : string :=
  "INSERT INTO records (name, value, metadata) VALUES "
    ++ String.concat "," (map tuple_text (batch_rows batch i)).

End SeedText.

(** The first rows of [n] successive batches. *)
Fixpoint batch_starts (n : nat) (batch i : N) : list N :=
  match n with
  | O => []
  | S n' => i :: batch_starts n' batch (i + batch)
  end.

(** The statements accepted so far end where the database refuses one. *)
Definition refused_at (exec : nat -> string -> result unit) (before : nat)
    (statements : list string) (e : error) : Prop :=
  exists done last,
    statements = (done ++ [last])%list
    /\ exec (before + List.length done) last = Throw e.

(** The statements of the whole script, in the order they are sent. *)
Definition seed_statements (random1000 : N -> N) : list string :=
  Seed.drop_table :: Seed.create_table
    :: map (insert_text random1000 5000) (batch_starts 20 5000 0).

(** ** Character classes of what the encoders write *)

(** The characters of the text of a number. *)
Definition number_char (c : ascii) : bool :=
  (is_digit c || includes c ".e+-NaInfity")%bool.

(** The characters of the text of a valid timestamp. *)
Definition date_char (c : ascii) : bool :=
  (is_digit c || includes c "-+:.TZ")%bool.

(** Not a control character. *)
Definition printable_char (c : ascii) : bool := (32 <=? nat_of_ascii c)%nat.

(** Every number token of a document satisfies [q]. *)
Fixpoint json_numbers (q : string -> bool) (j : json) : bool :=
  match j with
  | JNum lexeme => q lexeme
  | JArr elements => forallb (json_numbers q) elements
  | JObj members => forallb (fun m => json_numbers q (snd m)) members
  | _ => true
  end.

(** ** Rows appended to a writer *)

Section AppendRows.

Variable writer : Type.
Variable appendRow : writer -> props string -> reply (writer * list string).

(** The rows are appended one after the other, each to the writer the
    previous append left: the last writer and what each append wrote. *)
Fixpoint append_rows (w : writer) (rows : list (props string))
  : reply (writer * list (list string)) :=
  match rows with
  | [] => Ok (w, [])
  | r :: rows' =>
      match appendRow w r with
      | Called (Ok (w', cs)) =>
          match append_rows w' rows' with
          | Called (Ok (w'', frames)) => Ok (w'', cs :: frames)
          | Called (Throw e) => Throw e
          | Silent pushed => Silent (cs ++ pushed)
          end
      | Called (Throw e) => Throw e
      | Silent pushed => Silent pushed
      end
  end.

End AppendRows.

(** * Checks of the model on sample inputs *)

Example iso_epoch : iso_string 0 = "1970-01-01T00:00:00.000Z".
Proof. reflexivity. Qed.

Example iso_leap_day : iso_string 951782400000 = "2000-02-29T00:00:00.000Z".
Proof. reflexivity. Qed.

Example iso_before_epoch : iso_string (-1) = "1969-12-31T23:59:59.999Z".
Proof. reflexivity. Qed.

Example iso_year_9999 : iso_string 253402300799999 = "9999-12-31T23:59:59.999Z".
Proof. reflexivity. Qed.

Example iso_year_10000 : iso_string 253402300800000 = "+010000-01-01T00:00:00.000Z".
Proof. reflexivity. Qed.

Example iso_year_minus_1 : iso_string (-62167219200001) = "-000001-12-31T23:59:59.999Z".
Proof. reflexivity. Qed.

Example number_examples :
  map Number_toString
    [of_Z 0; of_Z 42; of_Z (-7); Finite false 15 (-1); Finite false 1200 0;
     Finite false 1 21; Finite false 15 (-8); Finite true 123456 (-9);
     Finite false 1 (-6); Finite false 1 (-7); Finite true 0 0; NaN]
  = ["0"; "42"; "-7"; "1.5"; "1200"; "1e+21"; "1.5e-7"; "-0.000123456";
     "0.000001"; "1e-7"; "0"; "NaN"].
Proof. reflexivity. Qed.

Example json_quote_examples :
  map json_quote
    [ "plain"; "a" ++ nl ++ "b"; "tab" ++ String (ascii_of_nat 9) EmptyString;
      String (ascii_of_nat 1) (String (ascii_of_nat 31) EmptyString);
      dq ++ "q" ++ dq; "back\slash" ]
  = [ dq ++ "plain" ++ dq; dq ++ "a\nb" ++ dq; dq ++ "tab\t" ++ dq;
      dq ++ "\u0001\u001f" ++ dq; dq ++ "\" ++ dq ++ "q\" ++ dq ++ dq;
      dq ++ "back\\slash" ++ dq ].
Proof. reflexivity. Qed.

Example set_prop_order :
  map fst (set_prop (set_prop (set_prop (set_prop [] "b" VNull) "10" VNull)
                       "a" VNull) "9" VNull)
  = ["9"; "10"; "b"; "a"].
Proof. reflexivity. Qed.

Example array_index_examples :
  map array_index ["0"; "42"; "007"; "4294967294"; "4294967295"; "1e3"; "-1"]
  = [Some 0%N; Some 42%N; None; Some 4294967294%N; None; None; None].
Proof. reflexivity. Qed.

Example demo_json :
  export (JSONStreamFormatter demo_columns) demo_heap [demo_row; [("metadata", VRef 1)]]
  = Ok ("[{" ++ dq ++ "id" ++ dq ++ ":1," ++ dq ++ "name" ++ dq ++ ":" ++ dq
          ++ "AT&T \" ++ dq ++ "ok\" ++ dq ++ dq ++ "," ++ dq ++ "val" ++ dq ++ ":250,"
          ++ dq ++ "meta" ++ dq ++ ":{" ++ dq ++ "tag" ++ dq ++ ":" ++ dq ++ "test" ++ dq
          ++ "," ++ dq ++ "index" ++ dq ++ ":0}},{" ++ dq ++ "meta" ++ dq
          ++ ":[null,null,null,{" ++ dq ++ "tag" ++ dq ++ ":" ++ dq ++ "test" ++ dq
          ++ "," ++ dq ++ "index" ++ dq ++ ":0}]}]").
Proof. reflexivity. Qed.

Example demo_csv :
  export (CSVStreamFormatter demo_columns) demo_heap [demo_row]
  = Ok ("id,name,val,meta" ++ nl
          ++ dq ++ "1" ++ dq ++ "," ++ dq ++ "AT&T " ++ dq ++ dq ++ "ok" ++ dq ++ dq ++ dq
          ++ "," ++ dq ++ "250" ++ dq ++ ","
          ++ dq ++ "{" ++ dq ++ dq ++ "tag" ++ dq ++ dq ++ ":" ++ dq ++ dq ++ "test"
          ++ dq ++ dq ++ "," ++ dq ++ dq ++ "index" ++ dq ++ dq ++ ":0}" ++ dq ++ nl).
Proof. reflexivity. Qed.

Example demo_xml :
  export (XMLStreamFormatter [ {| source := "name"; target := "name" |} ])
    demo_heap [demo_row]
  = Ok (xml_open ++ "  <record>" ++ nl
          ++ "    <name>AT&amp;T &quot;ok&quot;</name>" ++ nl
          ++ "  </record>" ++ nl ++ "</records>").
Proof. reflexivity. Qed.

(** * Properties *)

(** ** Text lemmas *)

Lemma append_nil_r (s : string) : s ++ EmptyString = s.
Proof. induction s as [|a s IH]; simpl; [reflexivity | now rewrite IH]. Qed.

Lemma append_assoc (s1 s2 s3 : string) : (s1 ++ s2) ++ s3 = s1 ++ (s2 ++ s3).
Proof. induction s1 as [|a s1 IH]; simpl; [reflexivity | now rewrite IH]. Qed.

Lemma length_append (s1 s2 : string) :
  String.length (s1 ++ s2) = String.length s1 + String.length s2.
Proof. induction s1 as [|a s1 IH]; simpl; [reflexivity | now rewrite IH]. Qed.

Lemma str_forall_append (p : ascii -> bool) (s1 s2 : string) :
  str_forall p (s1 ++ s2) = (str_forall p s1 && str_forall p s2)%bool.
Proof.
  induction s1 as [|c s1 IH]; [reflexivity|]. simpl. now rewrite IH, andb_assoc.
Qed.

Lemma replace_all_append (c : ascii) (r s1 s2 : string) :
  replace_all c r (s1 ++ s2) = replace_all c r s1 ++ replace_all c r s2.
Proof.
  induction s1 as [|a s1 IH]; simpl; [reflexivity|].
  destruct (Ascii.eqb a c); simpl; rewrite IH; [now rewrite append_assoc | reflexivity].
Qed.

Lemma replace_all_absent (c : ascii) (r s : string) :
  includes c s = false -> replace_all c r s = s.
Proof.
  induction s as [|a s IH]; simpl; [reflexivity|].
  destruct (Ascii.eqb a c); [discriminate | intros H; now rewrite IH].
Qed.

(** ** The markup escape *)

Lemma xml_escape_append (s1 s2 : string) :
  xml_escape (s1 ++ s2) = xml_escape s1 ++ xml_escape s2.
Proof. unfold xml_escape. now rewrite !replace_all_append. Qed.

Lemma xml_escape_char (c : ascii) :
  xml_escape (String c EmptyString) = xml_entity c.
Proof. destruct c as [[] [] [] [] [] [] [] []]; reflexivity. Qed.

Lemma xml_escape_cons (c : ascii) (s : string) :
  xml_escape (String c s) = xml_entity c ++ xml_escape s.
Proof.
  change (String c s) with (String c EmptyString ++ s).
  now rewrite xml_escape_append, xml_escape_char.
Qed.

(** C2 -- the markup encoder escapes element text with the five global
    substitutions in the order ampersand, less-than, greater-than, double
    quote, apostrophe; the result is the one-pass escape in which every
    input character is substituted exactly once, so no entity written by an
    earlier substitution is escaped again; and the element written for a
    column wraps the escaped normalized value in the tags of the target
    name.  The text AT&T followed by a quoted ok becomes
    AT&amp;T &quot;ok&quot;. *)
Theorem xml_escape_fixed_order :
  (forall val : string,
      xml_escape val
      = replace_all "'" "&apos;"
          (replace_all dquote "&quot;"
             (replace_all ">" "&gt;"
                (replace_all "<" "&lt;" (replace_all "&" "&amp;" val))))
      /\ xml_escape val = xml_escape_spec val)
  /\ (forall h chunk rowXml col,
         xml_element h chunk rowXml col
         = (val <- prepareValue h (get_prop chunk (source col)) ;;
            Ok (rowXml ++ "    <" ++ target col ++ ">" ++ xml_escape_spec val
                  ++ "</" ++ target col ++ ">" ++ nl)))
  /\ xml_escape ("AT&T " ++ dq ++ "ok" ++ dq) = "AT&amp;T &quot;ok&quot;"
  /\ xml_escape "&amp;<a href='x'>" = "&amp;amp;&lt;a href=&apos;x&apos;&gt;".
Proof.
  assert (Hspec : forall val, xml_escape val = xml_escape_spec val).
  { induction val as [|c val IH]; [reflexivity|].
    rewrite xml_escape_cons, IH. reflexivity. }
  split; [intros val; split; [reflexivity | apply Hspec]|].
  split; [|split; reflexivity].
  intros h chunk rowXml col. unfold xml_element.
  destruct (prepareValue h (get_prop chunk (source col))) as [val|e]; simpl;
    [now rewrite Hspec | reflexivity].
Qed.

(** ** The delimited-text encoder *)

Lemma replace_dquote_double (s : string) :
  replace_all dquote (dq ++ dq) s = csv_double s.
Proof.
  induction s as [|c s IH]; [reflexivity|].
  cbn [replace_all csv_double].
  destruct (Ascii.eqb c dquote); rewrite IH; reflexivity.
Qed.

Lemma csv_double_absent (s : string) :
  includes dquote s = false -> csv_double s = s.
Proof.
  intros H. rewrite <- replace_dquote_double. now apply replace_all_absent.
Qed.

Lemma csv_quote_spec (val : string) : csv_quote val = dq ++ csv_double val ++ dq.
Proof.
  unfold csv_quote. destruct (includes dquote val) eqn:E.
  - now rewrite replace_dquote_double.
  - now rewrite csv_double_absent.
Qed.

Lemma read_quoted_body_double (val rest : string) :
  starts_with dquote rest = false ->
  read_quoted_body (csv_double val ++ String dquote rest) = Some (val, rest).
Proof.
  intros Hrest. induction val as [|c val IH].
  - simpl. destruct rest as [|a rest]; [reflexivity|].
    simpl in Hrest. now rewrite Hrest.
  - simpl. destruct (Ascii.eqb c dquote) eqn:E.
    + apply Ascii.eqb_eq in E. subst c. simpl. now rewrite IH.
    + simpl. rewrite E. now rewrite IH.
Qed.

Lemma mapM_csv_field (h : heap) (chunk : row) (columns : list column) :
  mapM (csv_field h chunk) columns
  = (vals <- mapM (fun col => prepareValue h (get_prop chunk (source col))) columns ;;
     Ok (map csv_quote vals)).
Proof.
  induction columns as [|col columns IH]; [reflexivity|].
  simpl. unfold csv_field at 1.
  destruct (prepareValue h (get_prop chunk (source col))) as [v|e]; simpl;
    [|reflexivity].
  rewrite IH.
  destruct (mapM (fun col => prepareValue h (get_prop chunk (source col))) columns);
    reflexivity.
Qed.


(** ** Circular structures and [JSON.stringify] *)

Lemma existsb_eqb_In (a : nat) (stack : list nat) :
  existsb (Nat.eqb a) stack = true <-> In a stack.
Proof.
  rewrite existsb_exists. split.
  - intros [x [Hin Heq]]. apply Nat.eqb_eq in Heq. now subst.
  - intros Hin. exists a. split; [assumption | apply Nat.eqb_refl].
Qed.

Lemma stack_fits (h : heap) (stack : list nat) :
  NoDup stack -> (forall a, In a stack -> a < List.length h) ->
  List.length stack <= List.length h.
Proof.
  intros Hnd Hlt.
  rewrite <- (length_seq (List.length h) 0).
  apply NoDup_incl_length; [assumption|].
  intros a Ha. apply in_seq. specialize (Hlt a Ha). lia.
Qed.

Lemma mapM_decides {A B : Type} (f : A -> result B) (P : A -> Prop) (e : error)
    (l : list A) :
  (forall x, In x l -> decides f P e x) ->
  (mapM f l = Throw e /\ exists x, In x l /\ P x)
  \/ (exists ys, mapM f l = Ok ys /\ forall x, In x l -> ~ P x).
Proof.
  induction l as [|x l IH]; intros Hall.
  - right. exists []. split; [reflexivity | intros x []].
  - destruct (Hall x (or_introl eq_refl)) as [[Hf HP] | [y [Hf HP]]].
    + left. simpl. rewrite Hf. split; [reflexivity|].
      exists x. split; [now left | assumption].
    + destruct IH as [[Hm [x' [Hin HP']]] | [ys [Hm Hnone]]].
      * intros x' Hin. apply Hall. now right.
      * left. simpl. rewrite Hf, Hm. split; [reflexivity|].
        exists x'. split; [now right | assumption].
      * right. exists (y :: ys). simpl. rewrite Hf, Hm.
        split; [reflexivity|]. intros x' [<- | Hin]; auto.
Qed.

Lemma ser_members_decides (ser : value -> result json) (P : value -> Prop)
    (e : error) (props : object) :
  ~ P VUndefined ->
  (forall k x, In (k, x) props -> decides ser P e x) ->
  (ser_members ser props = Throw e /\ exists k x, In (k, x) props /\ P x)
  \/ (exists ms, ser_members ser props = Ok ms
                 /\ forall k x, In (k, x) props -> ~ P x).
Proof.
  intros Hundef. induction props as [|[k v] props IH]; intros Hall.
  - right. exists []. split; [reflexivity | intros k x []].
  - assert (Hrest : forall k' x, In (k', x) props -> decides ser P e x).
    { intros k' x Hin. apply (Hall k'). now right. }
    specialize (IH Hrest).
    assert (Hskip : v = VUndefined ->
              (ser_members ser ((k, v) :: props) = ser_members ser props)).
    { intros ->. reflexivity. }
    assert (Hcall : v <> VUndefined ->
              ser_members ser ((k, v) :: props)
              = (j <- ser v ;; ms <- ser_members ser props ;; Ok ((k, j) :: ms))).
    { intros Hv. destruct v; try reflexivity. now contradiction Hv. }
    assert (Hdec : {v = VUndefined} + {v <> VUndefined}).
    { destruct v; try (right; discriminate). now left. }
    destruct Hdec as [Hv | Hv].
    + rewrite (Hskip Hv).
      destruct IH as [[Hm [k' [x [Hin HP]]]] | [ms [Hm Hnone]]].
      * left. split; [assumption|]. exists k', x. split; [now right | assumption].
      * right. exists ms. split; [assumption|].
        intros k' x [Heq | Hin]; [|eauto].
        injection Heq as _ <-. now subst v.
    + rewrite (Hcall Hv).
      destruct (Hall k v (or_introl eq_refl)) as [[Hf HP] | [j [Hf HP]]].
      * left. rewrite Hf. split; [reflexivity|].
        exists k, v. split; [now left | assumption].
      * rewrite Hf. cbn [bind].
        destruct IH as [[Hm [k' [x [Hin HP']]]] | [ms [Hm Hnone]]].
        -- left. rewrite Hm. split; [reflexivity|].
           exists k', x. split; [now right | assumption].
        -- right. exists ((k, j) :: ms). rewrite Hm. split; [reflexivity|].
           intros k' x [Heq | Hin]; [|eauto].
           injection Heq as _ <-. assumption.
Qed.

(** With the stack inside the heap and fuel for the objects not yet on the
    stack, [to_json] either meets a cycle and throws, or returns a
    document; it does not run out of fuel. *)
Lemma to_json_decides (h : heap) :
  forall (fuel : nat) (stack : list nat) (v : value),
    NoDup stack -> (forall a, In a stack -> a < List.length h) ->
    List.length h < fuel + List.length stack ->
    decides (to_json fuel h stack) (circular h stack) TypeError_CircularStructure v.
Proof.
  induction fuel as [|f IH]; intros stack v Hnd Hin Hfuel; unfold decides.
  - pose proof (stack_fits h stack Hnd Hin). simpl in Hfuel. lia.
  - destruct v as [| | b | n | s | [t|] | a];
      try (right; eexists; split; [reflexivity | intros C; inversion C]).
    cbn [to_json].
    destruct (existsb (Nat.eqb a) stack) eqn:Hmem.
    + left. split; [reflexivity|]. apply circular_back. now apply existsb_eqb_In.
    + assert (Hnot : ~ In a stack).
      { intros Ha. apply existsb_eqb_In in Ha. congruence. }
      destruct (nth_error h a) as [o|] eqn:Hobj.
      * assert (Ha : a < List.length h).
        { apply nth_error_Some. congruence. }
        assert (Hnd' : NoDup (a :: stack)) by now constructor.
        assert (Hin' : forall a', In a' (a :: stack) -> a' < List.length h).
        { intros a' [<- | Ha']; auto. }
        assert (Hfuel' : List.length h < f + List.length (a :: stack)).
        { simpl. lia. }
        destruct o as [props | items].
        -- destruct (ser_members_decides (to_json f h (a :: stack))
                       (circular h (a :: stack)) TypeError_CircularStructure props)
             as [[Hm [k [x [Hx HC]]]] | [ms [Hm Hnone]]].
           ++ intros C. inversion C.
           ++ intros k x _. now apply IH.
           ++ left. rewrite Hm. split; [reflexivity|].
              now apply (circular_in_object h stack a props k x).
           ++ right. exists (JObj ms). rewrite Hm. split; [reflexivity|].
              intros C. inversion C; subst; try contradiction; try congruence.
              match goal with
              | H1 : nth_error h a = Some (HObject ?p), H2 : In (_, _) ?p |- _ =>
                  rewrite Hobj in H1; injection H1 as <-; eapply Hnone; eauto
              end.
        -- destruct (mapM_decides (to_json f h (a :: stack))
                       (circular h (a :: stack)) TypeError_CircularStructure items)
             as [[Hm [x [Hx HC]]] | [es [Hm Hnone]]].
           ++ intros x _. now apply IH.
           ++ left. rewrite Hm. split; [reflexivity|].
              now apply (circular_in_array h stack a items x).
           ++ right. exists (JArr es). rewrite Hm. split; [reflexivity|].
              intros C. inversion C; subst; try contradiction; try congruence.
              match goal with
              | H1 : nth_error h a = Some (HArray ?p), H2 : In _ ?p |- _ =>
                  rewrite Hobj in H1; injection H1 as <-; eapply Hnone; eauto
              end.
      * right. exists (JObj []). split; [reflexivity|].
        intros C. inversion C; subst; try contradiction; congruence.
Qed.

Lemma to_json_top (h : heap) (v : value) :
  decides (to_json (enough_fuel h) h []) (circular h []) TypeError_CircularStructure v.
Proof.
  apply to_json_decides; [constructor | intros a [] |].
  unfold enough_fuel. simpl. lia.
Qed.

Lemma JSON_stringify_decides (h : heap) (v : value) :
  (circular h [] v /\ JSON_stringify h v = Throw TypeError_CircularStructure)
  \/ (~ circular h [] v
      /\ exists j, to_json (enough_fuel h) h [] v = Ok j
                   /\ JSON_stringify h v = Ok (json_print j)).
Proof.
  unfold JSON_stringify.
  destruct (to_json_top h v) as [[Hj HC] | [j [Hj HC]]]; rewrite Hj.
  - left. now split.
  - right. split; [assumption|]. now exists j.
Qed.

Lemma fresh_object_json_decides (h : heap) (o : object) :
  ((exists k x, In (k, x) o /\ circular h [] x)
   /\ fresh_object_json h o = Throw TypeError_CircularStructure)
  \/ ((forall k x, In (k, x) o -> ~ circular h [] x)
      /\ exists ms, ser_members (to_json (enough_fuel h) h []) o = Ok ms
                    /\ fresh_object_json h o = Ok (JObj ms)).
Proof.
  unfold fresh_object_json.
  destruct (ser_members_decides (to_json (enough_fuel h) h []) (circular h [])
              TypeError_CircularStructure o)
    as [[Hm Hex] | [ms [Hm Hnone]]].
  - intros C. inversion C.
  - intros k x _. apply to_json_top.
  - left. rewrite Hm. now split.
  - right. split; [assumption|]. exists ms. rewrite Hm. now split.
Qed.

(** ** The normalizer *)

Lemma digit_char (k : nat) : k < 10 -> is_digit (ascii_of_nat (48 + k)) = true.
Proof. intros H. do 10 (destruct k as [|k]; [reflexivity|]). lia. Qed.

Lemma pad_digits_shape (width : nat) :
  forall n, String.length (pad_digits width n) = width
            /\ str_forall is_digit (pad_digits width n) = true.
Proof.
  induction width as [|w IH]; intros n; [now split|].
  cbn [pad_digits]. destruct (IH (n / 10)%Z) as [Hlen Hall].
  rewrite length_append, str_forall_append, Hlen, Hall. split.
  - simpl. lia.
  - cbn [str_forall]. rewrite digit_char; [reflexivity|].
    pose proof (Z.mod_pos_bound n 10). lia.
Qed.

(** The text of a valid Date is a year, two-digit month and day, the
    letter T, two-digit hours, minutes and seconds, three-digit
    milliseconds and the letter Z; the year has four digits from year 0 to
    year 9999. *)
Lemma iso_string_shape (t : Z) :
  exists year month day hours minutes seconds millis,
    iso_string t
    = year ++ "-" ++ month ++ "-" ++ day ++ "T" ++ hours ++ ":" ++ minutes
        ++ ":" ++ seconds ++ "." ++ millis ++ "Z"
    /\ year = year_string (fst (fst (civil_from_days (t / 86400000))))
    /\ Forall (fun part => String.length part = 2
                          /\ str_forall is_digit part = true)
         [month; day; hours; minutes; seconds]
    /\ String.length millis = 3 /\ str_forall is_digit millis = true.
Proof.
  unfold iso_string. destruct (civil_from_days (t / 86400000)) as [[y m] d].
  do 7 eexists. split; [reflexivity|]. split; [reflexivity|].
  split; [|apply pad_digits_shape].
  repeat constructor; apply pad_digits_shape.
Qed.

Lemma get_prop_absent (o : object) (k : string) :
  has_key o k = false -> get_prop o k = VUndefined.
Proof.
  induction o as [|[k' v] o IH]; simpl; [reflexivity|].
  destruct (String.eqb k' k); [discriminate | exact IH].
Qed.

(** C6, the claim as stated fails: the normalizer throws on the invalid
    Date and on a structure that refers to itself. *)
Lemma prepareValue_throws :
  prepareValue [] (VDate None) = Throw RangeError_InvalidTimeValue
  /\ prepareValue [HObject [("self", VRef 0)]] (VRef 0)
     = Throw TypeError_CircularStructure.
Proof. split; reflexivity. Qed.

(** C6 (amended) -- the normalizer returns the empty string for null and
    for undefined, hence for a source field that the row does not have and
    that is not the name of a member inherited from [Object.prototype]; the
    ISO-8601 text for a valid Date; the JSON text of a nested structure
    that is not circular; and the textual representation of a boolean, a
    number or a string.  It throws on exactly two kinds of input: the
    invalid Date and a circular structure.  It never fails to produce one
    of these outcomes. *)
Theorem prepareValue_cases :
  forall (h : heap) (val : value),
    match val with
    | VUndefined | VNull => prepareValue h val = Ok EmptyString
    | VDate (Some t) => prepareValue h val = Ok (iso_string t)
    | VDate None => prepareValue h val = Throw RangeError_InvalidTimeValue
    | VRef _ =>
        (circular h [] val
         /\ prepareValue h val = Throw TypeError_CircularStructure)
        \/ (~ circular h [] val
            /\ exists j, to_json (enough_fuel h) h [] val = Ok j
                         /\ prepareValue h val = Ok (json_print j))
    | VBoolean b => prepareValue h val = Ok (if b then "true" else "false")
    | VNumber n => prepareValue h val = Ok (Number_toString n)
    | VString s => prepareValue h val = Ok s
    end
    /\ (forall (chunk : row) (col : column),
           has_key chunk (source col) = false ->
           inherited_name (source col) = false ->
           prepareValue h (get_prop chunk (source col)) = Ok EmptyString).
Proof.
  intros h val. split.
  - destruct val as [| | [|] | n | s | [t|] | a]; try reflexivity.
    apply (JSON_stringify_decides h (VRef a)).
  - intros chunk col Hk _. now rewrite get_prop_absent.
Qed.

(** ** Frames of an export *)

Lemma runs_length (F : Formatter) (h : heap) st rows frames st' :
  runs F h st rows frames st' -> List.length frames = List.length rows.
Proof. induction 1; simpl; congruence. Qed.

Lemma feed_finished (F : Formatter) (h : heap) :
  forall rows st chunks,
    feed F h st rows None = (chunks, Finished) ->
    exists frames st' closing,
      runs F h st rows frames st'
      /\ flush F st' = Ok closing
      /\ chunks = (List.concat frames ++ closing)%list.
Proof.
  induction rows as [|r rows IH]; intros st chunks Hfeed; simpl in Hfeed.
  - destruct (flush F st) as [[cs|e]|cs] eqn:Hflush; try discriminate.
    injection Hfeed as <-. exists [], st, cs. repeat split; [constructor | assumption].
  - destruct (transform F h st r) as [[[st1 cs]|e]|cs] eqn:Ht;
      [|destruct (guarded F); discriminate|discriminate].
    destruct (feed F h st1 rows None) as [cs' res] eqn:Hrest.
    injection Hfeed as <- ->.
    destruct (IH st1 cs' Hrest) as [frames [st' [closing [Hruns [Hflush ->]]]]].
    exists (cs :: frames), st', closing. split; [|split; [assumption|]].
    + econstructor; eassumption.
    + simpl. now rewrite app_assoc.
Qed.

Lemma feed_runs (F : Formatter) (h : heap) :
  forall st rows frames st',
    runs F h st rows frames st' ->
    feed F h st rows None
    = match flush F st' with
      | Called (Ok closing) => ((List.concat frames ++ closing)%list, Finished)
      | Called (Throw e) => ((List.concat frames ++ [])%list, Destroyed e)
      | Silent pushed => ((List.concat frames ++ pushed)%list, Stalled)
      end.
Proof.
  induction 1 as [st | st r st1 cs rows frames st' Ht Hruns IH]; simpl.
  - destruct (flush F st) as [[closing|e]|pushed]; reflexivity.
  - rewrite Ht, IH.
    destruct (flush F st') as [[closing|e]|pushed]; simpl; now rewrite app_assoc.
Qed.

(** A failure ends the run: the rows after it are not transformed and
    nothing is flushed. *)
Lemma feed_destroyed (F : Formatter) (h : heap) :
  forall rows st src_end chunks e,
    feed F h st rows src_end = (chunks, Destroyed e) ->
    exists done frames st',
      runs F h st done frames st'
      /\ chunks = List.concat frames
      /\ ((done = rows /\ src_end = Some e)
          \/ (done = rows /\ src_end = None /\ flush F st' = Throw e)
          \/ (exists r rest, rows = (done ++ r :: rest)%list
                             /\ transform F h st' r = Throw e
                             /\ guarded F = true)).
Proof.
  induction rows as [|r rows IH]; intros st src_end chunks e Hfeed; simpl in Hfeed.
  - exists [], [], st. split; [constructor|].
    destruct src_end as [e'|].
    + injection Hfeed as <- <-. split; [reflexivity | now left].
    + destruct (flush F st) as [[cs|e']|cs] eqn:Hflush; try discriminate.
      injection Hfeed as <- <-. split; [reflexivity | right; left; now repeat split].
  - destruct (transform F h st r) as [[[st1 cs]|e']|cs] eqn:Ht; [| |discriminate].
    + destruct (feed F h st1 rows src_end) as [cs' res] eqn:Hrest.
      injection Hfeed as <- ->.
      destruct (IH st1 src_end cs' e Hrest)
        as [done [frames [st' [Hruns [-> Hwhy]]]]].
      exists (r :: done), (cs :: frames), st'.
      split; [econstructor; eassumption|]. split; [reflexivity|].
      destruct Hwhy as [[-> ->] | [[-> [-> Hf]] | [r' [rest [-> Hthrow]]]]].
      * now left.
      * right; left. now repeat split.
      * right; right. now exists r', rest.
    + destruct (guarded F) eqn:Hg; [|discriminate].
      injection Hfeed as <- <-.
      exists [], [], st. split; [constructor|]. split; [reflexivity|].
      right; right. now exists r, rows.
Qed.

(** Only a [_transform] that is not guarded lets an exception out. *)
Lemma feed_uncaught (F : Formatter) (h : heap) :
  forall rows st src_end chunks e,
    feed F h st rows src_end = (chunks, Uncaught e) ->
    exists done frames st' r rest,
      runs F h st done frames st'
      /\ chunks = List.concat frames
      /\ rows = (done ++ r :: rest)%list
      /\ transform F h st' r = Throw e
      /\ guarded F = false.
Proof.
  induction rows as [|r rows IH]; intros st src_end chunks e Hfeed; simpl in Hfeed.
  - destruct src_end as [e'|]; [discriminate|].
    destruct (flush F st) as [[cs|e']|cs]; discriminate.
  - destruct (transform F h st r) as [[[st1 cs]|e']|cs] eqn:Ht; [| |discriminate].
    + destruct (feed F h st1 rows src_end) as [cs' res] eqn:Hrest.
      injection Hfeed as <- ->.
      destruct (IH st1 src_end cs' e Hrest)
        as [done [frames [st' [r' [rest [Hruns [-> [-> [Hthrow Hg]]]]]]]]].
      exists (r :: done), (cs :: frames), st', r', rest.
      split; [econstructor; eassumption|]. now repeat split.
    + destruct (guarded F) eqn:Hg; [discriminate|].
      injection Hfeed as <- <-.
      exists [], [], st, r, rows. split; [constructor|]. now repeat split.
Qed.

(** A run stalls in the step that never calls back: a row step, or the
    flush after a clean end of the input. *)
Lemma feed_stalled (F : Formatter) (h : heap) :
  forall rows st src_end chunks,
    feed F h st rows src_end = (chunks, Stalled) ->
    exists done frames st' pushed,
      runs F h st done frames st'
      /\ chunks = (List.concat frames ++ pushed)%list
      /\ ((done = rows /\ src_end = None /\ flush F st' = Silent pushed)
          \/ (exists r rest, rows = (done ++ r :: rest)%list
                             /\ transform F h st' r = Silent pushed)).
Proof.
  induction rows as [|r rows IH]; intros st src_end chunks Hfeed; simpl in Hfeed.
  - destruct src_end as [e'|]; [discriminate|].
    destruct (flush F st) as [[cs|e']|cs] eqn:Hflush; try discriminate.
    injection Hfeed as <-. exists [], [], st, cs.
    split; [constructor|]. split; [reflexivity|]. left. now repeat split.
  - destruct (transform F h st r) as [[[st1 cs]|e']|cs] eqn:Ht.
    + destruct (feed F h st1 rows src_end) as [cs' res] eqn:Hrest.
      injection Hfeed as <- ->.
      destruct (IH st1 src_end cs' Hrest)
        as [done [frames [st' [pushed [Hruns [-> Hwhy]]]]]].
      exists (r :: done), (cs :: frames), st', pushed.
      split; [econstructor; eassumption|].
      split; [simpl; now rewrite app_assoc|].
      destruct Hwhy as [[-> [-> Hf]] | [r' [rest [-> Hs]]]].
      * left. now repeat split.
      * right. now exists r', rest.
    + destruct (guarded F); discriminate.
    + injection Hfeed as <-. exists [], [], st, cs.
      split; [constructor|]. split; [reflexivity|]. right. now exists r, rows.
Qed.

Lemma concat_empty_cons (x : string) (l : list string) :
  String.concat EmptyString (x :: l) = x ++ String.concat EmptyString l.
Proof. destruct l; simpl; [now rewrite append_nil_r | reflexivity]. Qed.

Lemma concat_empty_app (l1 l2 : list string) :
  String.concat EmptyString (l1 ++ l2)%list
  = String.concat EmptyString l1 ++ String.concat EmptyString l2.
Proof.
  induction l1 as [|x l1 IH]; [reflexivity|].
  change ((x :: l1) ++ l2)%list with (x :: (l1 ++ l2))%list.
  now rewrite !concat_empty_cons, IH, append_assoc.
Qed.

Lemma json_transform_doc (columns : list column) (h : heap) (st : json_state)
    (chunk : row) :
  json_transform columns h st chunk
  = (j <- json_row_doc columns h chunk ;;
     Ok ({| isFirst := false |},
         [(if isFirst st then EmptyString else ",") ++ json_print j])).
Proof.
  unfold json_transform, JSON_stringify_fresh, json_row_doc.
  destruct (fresh_object_json h (json_output columns chunk)); reflexivity.
Qed.

Lemma json_feed (columns : list column) (h : heap) :
  forall rows st,
    match mapM (json_row_doc columns h) rows with
    | Ok docs =>
        feed (JSONStreamFormatter columns) h st rows None
        = ((json_frames (isFirst st) docs ++ ["]"])%list, Finished)
    | Throw e =>
        snd (feed (JSONStreamFormatter columns) h st rows None) = Destroyed e
    end.
Proof.
  induction rows as [|r rows IH]; intros st; [reflexivity|].
  cbn [mapM feed transform JSONStreamFormatter].
  rewrite json_transform_doc.
  destruct (json_row_doc columns h r) as [j|e]; cbn [bind]; [|reflexivity].
  specialize (IH {| isFirst := false |}).
  destruct (mapM (json_row_doc columns h) rows) as [docs|e]; cbn [bind].
  - now rewrite IH.
  - destruct (feed (JSONStreamFormatter columns) h {| isFirst := false |} rows None).
    exact IH.
Qed.

Lemma concat_json_frames (docs : list json) :
  String.concat EmptyString (json_frames true docs)
  = String.concat "," (map json_print docs).
Proof.
  assert (Hrest : forall ds d,
             json_print d ++ String.concat EmptyString (json_frames false ds)
             = String.concat "," (json_print d :: map json_print ds)).
  { induction ds as [|d' ds IH]; intros d.
    - simpl. apply append_nil_r.
    - cbn [json_frames map]. rewrite concat_empty_cons, append_assoc, IH.
      reflexivity. }
  destruct docs as [|d ds]; [reflexivity|].
  cbn [json_frames map]. rewrite concat_empty_cons. apply Hrest.
Qed.

(** The finished structured-document export is the text of one array
    document. *)
Lemma json_export_doc (columns : list column) (h : heap) (rows : list row) :
  export (JSONStreamFormatter columns) h rows
  = (docs <- mapM (json_row_doc columns h) rows ;; Ok (json_print (JArr docs))).
Proof.
  unfold export, emit. cbn [construct fopen JSONStreamFormatter json_construct default_open].
  pose proof (json_feed columns h rows {| isFirst := true |}) as Hfeed.
  destruct (mapM (json_row_doc columns h) rows) as [docs|e]; cbn [bind].
  - rewrite Hfeed. cbn [bind isFirst app].
    rewrite concat_empty_cons, concat_empty_app, concat_json_frames.
    reflexivity.
  - destruct (feed (JSONStreamFormatter columns) h {| isFirst := true |} rows None).
    simpl in Hfeed. now subst.
Qed.

Lemma csv_feed (columns : list column) (h : heap) :
  forall rows,
    match mapM (csv_line columns h) rows with
    | Ok lines =>
        feed (CSVStreamFormatter columns) h tt rows None
        = ((lines ++ [])%list, Finished)
    | Throw e => snd (feed (CSVStreamFormatter columns) h tt rows None) = Uncaught e
    end.
Proof.
  induction rows as [|r rows IH]; [reflexivity|].
  cbn [mapM feed transform CSVStreamFormatter].
  unfold csv_transform, csv_line at 1.
  destruct (mapM (csv_field h r) columns) as [fields|e]; cbn [bind]; [|reflexivity].
  destruct (mapM (csv_line columns h) rows) as [lines|e]; cbn [bind].
  - now rewrite IH.
  - destruct (feed (CSVStreamFormatter columns) h tt rows None). exact IH.
Qed.

Lemma xml_feed (columns : list column) (h : heap) :
  forall rows,
    match mapM (xml_record columns h) rows with
    | Ok records =>
        feed (XMLStreamFormatter columns) h tt rows None
        = ((records ++ ["</records>"])%list, Finished)
    | Throw e => snd (feed (XMLStreamFormatter columns) h tt rows None) = Uncaught e
    end.
Proof.
  induction rows as [|r rows IH]; [reflexivity|].
  cbn [mapM feed transform XMLStreamFormatter].
  unfold xml_transform, xml_record at 1.
  destruct (foldM (xml_element h r) columns ("  <record>" ++ nl)) as [rowXml|e];
    cbn [bind]; [|reflexivity].
  destruct (mapM (xml_record columns h) rows) as [records|e]; cbn [bind].
  - now rewrite IH.
  - destruct (feed (XMLStreamFormatter columns) h tt rows None). exact IH.
Qed.

Lemma csv_export_lines (columns : list column) (h : heap) (rows : list row) :
  export (CSVStreamFormatter columns) h rows
  = (lines <- mapM (csv_line columns h) rows ;;
     Ok (csv_header columns ++ String.concat EmptyString lines)).
Proof.
  unfold export, emit. cbn [construct fopen CSVStreamFormatter default_open].
  pose proof (csv_feed columns h rows) as Hfeed.
  destruct (mapM (csv_line columns h) rows) as [lines|e]; cbn [bind].
  - rewrite Hfeed. cbn [bind app]. rewrite List.app_nil_r.
    now rewrite concat_empty_cons.
  - destruct (feed (CSVStreamFormatter columns) h tt rows None).
    simpl in Hfeed. now subst.
Qed.

Lemma xml_export_records (columns : list column) (h : heap) (rows : list row) :
  export (XMLStreamFormatter columns) h rows
  = (records <- mapM (xml_record columns h) rows ;;
     Ok (xml_open ++ String.concat EmptyString records ++ "</records>")).
Proof.
  unfold export, emit. cbn [construct fopen XMLStreamFormatter default_open].
  pose proof (xml_feed columns h rows) as Hfeed.
  destruct (mapM (xml_record columns h) rows) as [records|e]; cbn [bind].
  - rewrite Hfeed. cbn [bind app].
    rewrite concat_empty_cons, concat_empty_app. reflexivity.
  - destruct (feed (XMLStreamFormatter columns) h tt rows None).
    simpl in Hfeed. now subst.
Qed.

Lemma mapM_Forall2 {A B : Type} (f : A -> result B) :
  forall l ys, mapM f l = Ok ys -> Forall2 (fun x y => f x = Ok y) l ys.
Proof.
  induction l as [|x l IH]; intros ys H; simpl in H.
  - injection H as <-. constructor.
  - destruct (f x) as [y|e] eqn:Hx; [|discriminate]. cbn [bind] in H.
    destruct (mapM f l) as [ys'|e]; [|discriminate]. cbn [bind] in H.
    injection H as <-. constructor; [assumption | now apply IH].
Qed.

Lemma Forall2_In_r {A B : Type} (R : A -> B -> Prop) (l : list A) (l' : list B)
    (y : B) :
  Forall2 R l l' -> In y l' -> exists x, In x l /\ R x y.
Proof.
  induction 1 as [|x y' l l' Hxy Hall IH]; intros Hin; [destruct Hin|].
  destruct Hin as [<- | Hin].
  - exists x. split; [now left | assumption].
  - destruct (IH Hin) as [x' [Hx' HR]]. exists x'. split; [now right | assumption].
Qed.

Lemma mapM_length {A B : Type} (f : A -> result B) (l : list A) (ys : list B) :
  mapM f l = Ok ys -> List.length ys = List.length l.
Proof. intros H. symmetry. exact (Forall2_length (mapM_Forall2 f l ys H)). Qed.

Lemma xml_fold_prefix (h : heap) (chunk : row) :
  forall columns acc rowXml,
    foldM (xml_element h chunk) columns acc = Ok rowXml ->
    exists tail, rowXml = acc ++ tail.
Proof.
  induction columns as [|col columns IH]; intros acc rowXml H; simpl in H.
  - injection H as <-. exists EmptyString. now rewrite append_nil_r.
  - unfold xml_element at 1 in H.
    destruct (prepareValue h (get_prop chunk (source col))) as [val|e];
      [|discriminate].
    cbn [bind] in H. destruct (IH _ _ H) as [tail ->].
    eexists. rewrite append_assoc. reflexivity.
Qed.

Lemma json_frames_shape (columns : list column) (h : heap) :
  forall rows docs first,
    mapM (json_row_doc columns h) rows = Ok docs ->
    List.length (json_frames first docs) = List.length rows
    /\ Forall (fun frame => frame <> "[" /\ frame <> "]") (json_frames first docs).
Proof.
  induction rows as [|r rows IH]; intros docs first H; simpl in H.
  - injection H as <-. split; [reflexivity | constructor].
  - destruct (json_row_doc columns h r) as [doc|e] eqn:Hdoc; [|discriminate].
    cbn [bind] in H.
    destruct (mapM (json_row_doc columns h) rows) as [docs'|e]; [|discriminate].
    cbn [bind] in H. injection H as <-.
    destruct (IH docs' false eq_refl) as [Hlen Hall].
    cbn [json_frames List.length]. split; [now rewrite Hlen|].
    constructor; [|exact Hall].
    unfold json_row_doc, fresh_object_json in Hdoc.
    destruct (ser_members (to_json (enough_fuel h) h []) (json_output columns r))
      as [ms|e]; [|discriminate].
    cbn [bind] in Hdoc. injection Hdoc as <-.
    destruct first; split; discriminate.
Qed.

Lemma xml_records_shape (columns : list column) (h : heap) :
  forall rows records,
    mapM (xml_record columns h) rows = Ok records ->
    Forall (fun frame => frame <> xml_open /\ frame <> "</records>") records.
Proof.
  induction rows as [|r rows IH]; intros records H; simpl in H.
  - injection H as <-. constructor.
  - destruct (xml_record columns h r) as [record|e] eqn:Hrec; [|discriminate].
    cbn [bind] in H.
    destruct (mapM (xml_record columns h) rows) as [records'|e]; [|discriminate].
    cbn [bind] in H. injection H as <-.
    constructor; [|now apply IH].
    unfold xml_record in Hrec.
    destruct (foldM (xml_element h r) columns ("  <record>" ++ nl))
      as [rowXml|e] eqn:Hfold; [|discriminate].
    cbn [bind] in Hrec. injection Hrec as <-.
    destruct (xml_fold_prefix h r columns _ _ Hfold) as [tail ->].
    split; discriminate.
Qed.

Section ParquetAppends.

Variable writer : Type.
Variable openStream : schema -> reply (writer * list string).
Variable appendRow : writer -> props string -> reply (writer * list string).
Variable close : writer -> reply (list string).

(** One row step that calls back without an error. *)
Lemma parquet_transform_accepts (columns : list column) (h : heap)
    (st st' : parquet_state writer) (chunk : row) (cs : list string) :
  parquet_transform writer appendRow columns h st chunk = Ok (st', cs) ->
  exists w row w',
    pwriter _ st = Some w
    /\ parquet_row columns h chunk = Ok row
    /\ appendRow w row = Ok (w', cs)
    /\ st' = {| pschema := pschema _ st; pwriter := Some w';
                rowCount := S (rowCount _ st);
                yields := if (S (rowCount _ st) mod 1000 =? 0)%nat
                          then S (yields _ st) else yields _ st |}.
Proof.
  unfold parquet_transform. intros H.
  destruct (parquet_row columns h chunk) as [row|e]; [|discriminate].
  destruct (pwriter writer st) as [w|]; [|discriminate].
  destruct (appendRow w row) as [[[w' cs']|e]|pushed] eqn:Happ; try discriminate.
  injection H as <- <-. now exists w, row, w'.
Qed.

Lemma parquet_runs_append (columns : list column) (h : heap) :
  forall st rows frames st',
    runs (ParquetStreamFormatter writer openStream appendRow close columns)
      h st rows frames st' ->
    forall w,
      pwriter _ st = Some w ->
      exists prows w',
        mapM (parquet_row columns h) rows = Ok prows
        /\ append_rows writer appendRow w prows = Ok (w', frames)
        /\ pwriter _ st' = Some w'.
Proof.
  induction 1 as [st | st r st1 cs rows frames st' Ht Hr IH]; intros w Hw.
  - exists [], w. now repeat split.
  - cbn [transform ParquetStreamFormatter] in Ht.
    destruct (parquet_transform_accepts columns h st st1 r cs Ht)
      as [w0 [row [w1 [Hw0 [Hrow [Happ ->]]]]]].
    rewrite Hw in Hw0. injection Hw0 as <-.
    destruct (IH w1 eq_refl) as [prows [w' [Hrows [Happs Hw']]]].
    exists (row :: prows), w'. cbn [mapM append_rows].
    rewrite Hrow, Hrows, Happ, Happs. now repeat split.
Qed.

(** A finished export of the columnar-binary encoder. *)
Lemma parquet_emit_finished (columns : list column) (h : heap) (rows : list row)
    (chunks : list string) :
  emit (ParquetStreamFormatter writer openStream appendRow close columns)
    h rows None = (chunks, Finished) ->
  exists w0 opened frames st' closing,
    openStream (parquet_schema_defs columns) = Ok (w0, opened)
    /\ runs (ParquetStreamFormatter writer openStream appendRow close columns)
         h {| pschema := parquet_schema_defs columns; pwriter := Some w0;
              rowCount := 0; yields := 0 |} rows frames st'
    /\ flush (ParquetStreamFormatter writer openStream appendRow close columns) st'
       = Ok closing
    /\ chunks = (opened ++ List.concat frames ++ closing)%list.
Proof.
  intros Hemit. unfold emit in Hemit.
  cbn [construct fopen ParquetStreamFormatter parquet_construct] in Hemit.
  unfold parquet_open in Hemit. cbn [pschema rowCount yields] in Hemit.
  destruct (openStream (parquet_schema_defs columns))
    as [[[w0 opened]|e]|pushed] eqn:Hopen; try discriminate.
  match type of Hemit with
  | context [feed ?F h ?st rows None] =>
      destruct (feed F h st rows None) as [cs res] eqn:Hfeed
  end.
  injection Hemit as <- ->.
  destruct (feed_finished _ h rows _ cs Hfeed)
    as [frames [st' [closing [Hr [Hflush ->]]]]].
  now exists w0, opened, frames, st', closing.
Qed.

End ParquetAppends.

(** C4, the claim as stated fails: the delimited-text encoder pushes no
    closing frame.  With zero rows it pushes one chunk in all, the header;
    with one row the header and the line of the row. *)
Lemma csv_writes_no_closing_frame :
  flush (CSVStreamFormatter demo_columns) tt = Ok []
  /\ emit (CSVStreamFormatter demo_columns) demo_heap [] None
     = (["id,name,val,meta" ++ nl], Finished)
  /\ exists line,
      emit (CSVStreamFormatter demo_columns) demo_heap [demo_row] None
      = (["id,name,val,meta" ++ nl; line], Finished).
Proof. split; [reflexivity|]. split; [reflexivity|]. eexists. reflexivity. Qed.

(** C4 (amended) -- in every finished export the chunks are, in this order,
    the opening frame, one frame per row in row order, and what the encoder
    pushes at the end of the input.  The structured-document encoder opens
    with the array-opening token and closes with the array-closing token,
    the markup encoder opens with the declaration and the root-open tag and
    closes with the root-close tag, each pushed once, and neither writes
    such a frame for a row.  The delimited-text encoder opens with the
    header and pushes nothing at the end.  The columnar-binary encoder
    pushes nothing of its own: its chunks are what the writer wrote when it
    was opened on the schema, when each row was appended, in row order, and
    when it was closed.  With zero rows the outputs of the three text
    encoders are the empty array, the header line, and the declaration with
    an empty root element. *)
Theorem export_frames :
  (forall columns h rows chunks,
      emit (JSONStreamFormatter columns) h rows None = (chunks, Finished) ->
      exists docs,
        mapM (json_row_doc columns h) rows = Ok docs
        /\ chunks = ("[" :: json_frames true docs ++ ["]"])%list
        /\ List.length (json_frames true docs) = List.length rows
        /\ Forall (fun frame => frame <> "[" /\ frame <> "]")
             (json_frames true docs))
  /\ (forall columns h rows chunks,
         emit (XMLStreamFormatter columns) h rows None = (chunks, Finished) ->
         exists records,
           mapM (xml_record columns h) rows = Ok records
           /\ chunks = (xml_open :: records ++ ["</records>"])%list
           /\ List.length records = List.length rows
           /\ Forall (fun frame => frame <> xml_open /\ frame <> "</records>")
                records)
  /\ (forall columns h rows chunks,
         emit (CSVStreamFormatter columns) h rows None = (chunks, Finished) ->
         exists lines,
           mapM (csv_line columns h) rows = Ok lines
           /\ chunks = (csv_header columns :: lines)%list
           /\ List.length lines = List.length rows)
  /\ (forall (writer : Type)
             (openStream : schema -> reply (writer * list string))
             (appendRow : writer -> props string -> reply (writer * list string))
             (close : writer -> reply (list string))
             columns h rows chunks,
         snd (construct (ParquetStreamFormatter writer openStream appendRow close
                           columns)) = []
         /\ (emit (ParquetStreamFormatter writer openStream appendRow close columns)
               h rows None = (chunks, Finished) ->
             exists w0 opened prows w frames closing,
               openStream (parquet_schema_defs columns) = Ok (w0, opened)
               /\ mapM (parquet_row columns h) rows = Ok prows
               /\ append_rows writer appendRow w0 prows = Ok (w, frames)
               /\ List.length frames = List.length rows
               /\ close w = Ok closing
               /\ chunks = (opened ++ List.concat frames ++ closing)%list))
  /\ (forall columns h,
         export (JSONStreamFormatter columns) h [] = Ok "[]"
         /\ export (CSVStreamFormatter columns) h []
            = Ok (String.concat "," (map target columns) ++ nl)
         /\ export (XMLStreamFormatter columns) h []
            = Ok ("<?xml version=" ++ dq ++ "1.0" ++ dq ++ " encoding=" ++ dq
                    ++ "UTF-8" ++ dq ++ "?>" ++ nl ++ "<records>" ++ nl
                    ++ "</records>")).
Proof.
  split; [|split; [|split; [|split]]].
  - intros columns h rows chunks Hemit. unfold emit in Hemit.
    cbn [construct fopen JSONStreamFormatter json_construct default_open] in Hemit.
    pose proof (json_feed columns h rows {| isFirst := true |}) as Hfeed.
    destruct (mapM (json_row_doc columns h) rows) as [docs|e] eqn:Hdocs.
    + rewrite Hfeed in Hemit. cbn [isFirst app] in Hemit. injection Hemit as <-.
      exists docs. split; [reflexivity|]. split; [reflexivity|].
      exact (json_frames_shape columns h rows docs true Hdocs).
    + destruct (feed (JSONStreamFormatter columns) h {| isFirst := true |} rows None)
        as [cs res].
      simpl in Hfeed. subst res. discriminate.
  - intros columns h rows chunks Hemit. unfold emit in Hemit.
    cbn [construct fopen XMLStreamFormatter default_open] in Hemit.
    pose proof (xml_feed columns h rows) as Hfeed.
    destruct (mapM (xml_record columns h) rows) as [records|e] eqn:Hrecs.
    + rewrite Hfeed in Hemit. cbn [app] in Hemit. injection Hemit as <-.
      exists records. split; [reflexivity|]. split; [reflexivity|].
      split; [exact (mapM_length _ _ _ Hrecs)|].
      exact (xml_records_shape columns h rows records Hrecs).
    + destruct (feed (XMLStreamFormatter columns) h tt rows None) as [cs res].
      simpl in Hfeed. subst res. discriminate.
  - intros columns h rows chunks Hemit. unfold emit in Hemit.
    cbn [construct fopen CSVStreamFormatter default_open] in Hemit.
    pose proof (csv_feed columns h rows) as Hfeed.
    destruct (mapM (csv_line columns h) rows) as [lines|e] eqn:Hlines.
    + rewrite Hfeed in Hemit. cbn [app] in Hemit. rewrite List.app_nil_r in Hemit.
      injection Hemit as <-.
      exists lines. split; [reflexivity|]. split; [reflexivity|].
      exact (mapM_length _ _ _ Hlines).
    + destruct (feed (CSVStreamFormatter columns) h tt rows None) as [cs res].
      simpl in Hfeed. subst res. discriminate.
  - intros writer openStream appendRow close columns h rows chunks.
    split; [reflexivity|]. intros Hemit.
    destruct (parquet_emit_finished writer openStream appendRow close columns h
                rows chunks Hemit)
      as [w0 [opened [frames [st' [closing [Hopen [Hr [Hflush ->]]]]]]]].
    destruct (parquet_runs_append writer openStream appendRow close columns h
                _ rows frames st' Hr w0 eq_refl) as [prows [w [Hrows [Happs Hw]]]].
    cbn [flush ParquetStreamFormatter] in Hflush. unfold parquet_flush in Hflush.
    rewrite Hw in Hflush.
    exists w0, opened, prows, w, frames, closing.
    repeat split; try assumption.
    exact (runs_length _ h _ rows frames st' Hr).
  - intros columns h. repeat split.
Qed.

(** ** Line count of the delimited-text output *)

Lemma count_char_append (c : ascii) (s1 s2 : string) :
  count_char c (s1 ++ s2) = count_char c s1 + count_char c s2.
Proof. induction s1 as [|a s1 IH]; simpl; [reflexivity | rewrite IH; lia]. Qed.

Lemma count_char_includes (c : ascii) (s : string) :
  includes c s = false <-> count_char c s = 0.
Proof.
  induction s as [|a s IH]; simpl; [tauto|].
  destruct (Ascii.eqb a c); simpl; [split; [discriminate | lia] | exact IH].
Qed.

Lemma count_char_concat_empty (c : ascii) (l : list string) :
  count_char c (String.concat EmptyString l)
  = list_sum (map (count_char c) l).
Proof.
  induction l as [|x l IH]; [reflexivity|].
  rewrite concat_empty_cons, count_char_append, IH. reflexivity.
Qed.

Lemma count_char_concat_none (c : ascii) (sep : string) (l : list string) :
  count_char c sep = 0 ->
  (forall x, In x l -> count_char c x = 0) ->
  count_char c (String.concat sep l) = 0.
Proof.
  intros Hsep. induction l as [|x l IH]; intros Hall; [reflexivity|].
  destruct l as [|y l]; [apply Hall; now left|].
  change (String.concat sep (x :: y :: l))
    with (x ++ sep ++ String.concat sep (y :: l)).
  rewrite !count_char_append, Hsep, IH, (Hall x (or_introl eq_refl)).
  - reflexivity.
  - intros z Hz. apply Hall. now right.
Qed.

Lemma count_newline_csv_double (s : string) :
  count_char newline (csv_double s) = count_char newline s.
Proof.
  induction s as [|a s IH]; [reflexivity|]. cbn [csv_double].
  destruct (Ascii.eqb a dquote) eqn:E.
  - apply Ascii.eqb_eq in E. subst a. cbn. exact IH.
  - cbn [count_char]. now rewrite IH.
Qed.

Lemma count_newline_csv_quote (val : string) :
  count_char newline (csv_quote val) = count_char newline val.
Proof.
  rewrite csv_quote_spec, !count_char_append, count_newline_csv_double.
  cbn. lia.
Qed.

Lemma csv_field_prepared (h : heap) (chunk : row) (col : column) (field : string) :
  csv_field h chunk col = Ok field ->
  exists val, prepareValue h (get_prop chunk (source col)) = Ok val
              /\ field = csv_quote val.
Proof.
  unfold csv_field.
  destruct (prepareValue h (get_prop chunk (source col))) as [val|e];
    [|discriminate].
  cbn [bind]. intros H. injection H as <-. now exists val.
Qed.

(** C5, the claim as stated fails: a field that holds a newline is written
    with the newline inside its quotes, so one row can span two lines. *)
Lemma csv_line_count_exceeds :
  exists out,
    export (CSVStreamFormatter [ {| source := "name"; target := "name" |} ]) []
      [ [("name", VString ("a" ++ nl ++ "b"))] ]
    = Ok out
    /\ out = "name" ++ nl ++ dq ++ "a" ++ nl ++ "b" ++ dq ++ nl
    /\ line_count out = 3.
Proof. eexists. repeat split. Qed.

(** C5 (amended) -- a finished delimited-text export is the header followed
    by one record per row, each ended by a newline; when no target name and
    no normalized field holds a newline, the line count of the output is
    the row count plus one. *)
Theorem csv_line_count :
  forall (columns : list column) (h : heap) (rows : list row) (out : string),
    export (CSVStreamFormatter columns) h rows = Ok out ->
    (exists lines,
        Forall2 (fun chunk line => csv_line columns h chunk = Ok line) rows lines
        /\ List.length lines = List.length rows
        /\ (forall line, In line lines -> exists body, line = body ++ nl)
        /\ out = csv_header columns ++ String.concat EmptyString lines)
    /\ ((forall col, In col columns -> includes newline (target col) = false) ->
        (forall chunk col val,
            In chunk rows -> In col columns ->
            prepareValue h (get_prop chunk (source col)) = Ok val ->
            includes newline val = false) ->
        line_count out = List.length rows + 1).
Proof.
  intros columns h rows out Hexport. rewrite csv_export_lines in Hexport.
  destruct (mapM (csv_line columns h) rows) as [lines|e] eqn:Hlines;
    [|discriminate].
  cbn [bind] in Hexport. injection Hexport as <-.
  pose proof (mapM_Forall2 _ _ _ Hlines) as Hall.
  split.
  - exists lines. split; [assumption|]. split; [now apply mapM_length in Hlines|].
    split; [|reflexivity].
    intros line Hin. clear Hlines.
    induction Hall as [|chunk l rows' lines' Hl Hall IH]; [destruct Hin|].
    destruct Hin as [<- | Hin]; [|now apply IH].
    unfold csv_line in Hl.
    destruct (mapM (csv_field h chunk) columns) as [fields|e]; [|discriminate].
    cbn [bind] in Hl. injection Hl as <-. now eexists.
  - intros Htargets Hvalues. unfold line_count.
    rewrite count_char_append, count_char_concat_empty.
    assert (Hheader : count_char newline (csv_header columns) = 1).
    { unfold csv_header. rewrite count_char_append, count_char_concat_none.
      - reflexivity.
      - reflexivity.
      - intros x Hx. apply in_map_iff in Hx. destruct Hx as [col [<- Hcol]].
        apply count_char_includes. now apply Htargets. }
    rewrite Hheader. clear Hlines Hheader.
    assert (Hsum : list_sum (map (count_char newline) lines) = List.length rows).
    { induction Hall as [|chunk l rows' lines' Hl Hall IH]; [reflexivity|].
      change (count_char newline l + list_sum (map (count_char newline) lines')
              = S (List.length rows')).
      rewrite IH.
      - f_equal. unfold csv_line in Hl.
        destruct (mapM (csv_field h chunk) columns) as [fields|e] eqn:Hfields;
          [|discriminate].
        cbn [bind] in Hl. injection Hl as <-.
        rewrite count_char_append, count_char_concat_none.
        + reflexivity.
        + reflexivity.
        + intros field Hfield.
          destruct (Forall2_In_r _ _ _ _ (mapM_Forall2 _ _ _ Hfields) Hfield)
            as [col [Hcol Hc]].
          destruct (csv_field_prepared h chunk col field Hc) as [val [Hval ->]].
          rewrite count_newline_csv_quote. apply count_char_includes.
          apply (Hvalues chunk col val); [now left | assumption | assumption].
      - intros chunk0 col0 val0 Hchunk0. apply Hvalues. now right. }
    rewrite Hsum. lia.
Qed.

Lemma csv_line_count_witness :
  exists out,
    export (CSVStreamFormatter demo_columns) demo_heap [demo_row; demo_row] = Ok out
    /\ line_count out = 3.
Proof.
  eexists. split; [reflexivity|].
  refine (proj2 (csv_line_count demo_columns demo_heap [demo_row; demo_row] _
                   eq_refl) _ _).
  - intros col Hcol.
    repeat (destruct Hcol as [<- | Hcol]; [reflexivity|]). destruct Hcol.
  - intros chunk col val Hchunk Hcol.
    repeat (destruct Hchunk as [<- | Hchunk];
            [ repeat (destruct Hcol as [<- | Hcol];
                      [intros H; injection H as <-; reflexivity|]);
              destruct Hcol |]).
    destruct Hchunk.
Defined.

(** ** Property reads after property writes *)


Lemma keys_update {A : Type} (o : props A) (k : string) (v : A) :
  map fst (update_prop o k v) = map fst o.
Proof.
  induction o as [|[k0 v0] o IH]; [reflexivity|]. simpl.
  destruct (String.eqb k0 k); simpl; [reflexivity | now rewrite IH].
Qed.

Lemma get_update (o : object) (k : string) (v : value) (k' : string) :
  has_key o k = true ->
  get_prop (update_prop o k v) k' = if String.eqb k k' then v else get_prop o k'.
Proof.
  induction o as [|[k0 v0] o IH]; [discriminate|]. simpl.
  destruct (String.eqb_spec k0 k) as [-> | Hne]; simpl.
  - intros _. destruct (String.eqb k k'); reflexivity.
  - intros Hk. rewrite (IH Hk).
    destruct (String.eqb_spec k0 k') as [-> | Hne']; [|reflexivity].
    apply String.eqb_neq in Hne. rewrite String.eqb_sym in Hne. now rewrite Hne.
Qed.

Lemma In_insert {A : Type} (o : props A) (k : string) (v : A) (p : string * A) :
  In p (insert_prop o k v) <-> p = (k, v) \/ In p o.
Proof.
  induction o as [|[k0 v0] o IH]; simpl.
  - intuition congruence.
  - destruct (goes_before k k0); simpl; [intuition congruence|].
    rewrite IH. intuition congruence.
Qed.

Lemma get_insert (o : object) (k : string) (v : value) (k' : string) :
  has_key o k = false ->
  get_prop (insert_prop o k v) k' = if String.eqb k k' then v else get_prop o k'.
Proof.
  induction o as [|[k0 v0] o IH]; simpl.
  - intros _. destruct (String.eqb k k'); reflexivity.
  - destruct (String.eqb_spec k0 k) as [-> | Hne]; [discriminate|]. intros Hk.
    destruct (goes_before k k0); simpl.
    + destruct (String.eqb k k'); reflexivity.
    + rewrite (IH Hk).
      destruct (String.eqb_spec k0 k') as [-> | Hne']; [|reflexivity].
      apply String.eqb_neq in Hne. rewrite String.eqb_sym in Hne. now rewrite Hne.
Qed.

Lemma get_set_prop (o : object) (k : string) (v : value) (k' : string) :
  get_prop (set_prop o k v) k' = if String.eqb k k' then v else get_prop o k'.
Proof.
  unfold set_prop. destruct (has_key o k) eqn:Hk;
    [now apply get_update | now apply get_insert].
Qed.

Lemma has_key_In {A : Type} (o : props A) (k : string) :
  has_key o k = true <-> In k (map fst o).
Proof.
  induction o as [|[k0 v0] o IH]; simpl; [intuition discriminate|].
  destruct (String.eqb_spec k0 k) as [-> | Hne]; [intuition|].
  rewrite IH. intuition congruence.
Qed.

Lemma keys_insert {A : Type} (o : props A) (k : string) (v : A) (k' : string) :
  In k' (map fst (insert_prop o k v)) <-> k' = k \/ In k' (map fst o).
Proof.
  rewrite !in_map_iff. split.
  - intros [[k0 v0] [<- Hin]]. apply In_insert in Hin.
    destruct Hin as [Heq | Hin]; [injection Heq as -> ->; now left|].
    right. now exists (k0, v0).
  - intros [-> | [[k0 v0] [<- Hin]]].
    + exists (k, v). split; [reflexivity | apply In_insert; now left].
    + exists (k0, v0). split; [reflexivity | apply In_insert; now right].
Qed.

Lemma NoDup_keys_insert {A : Type} (o : props A) (k : string) (v : A) :
  has_key o k = false -> NoDup (map fst o) -> NoDup (map fst (insert_prop o k v)).
Proof.
  induction o as [|[k0 v0] o IH]; simpl.
  - intros _ _. constructor; [intros [] | constructor].
  - destruct (String.eqb_spec k0 k) as [-> | Hne]; [discriminate|].
    intros Hk Hnd. inversion Hnd as [|? ? Hnot Hnd']; subst.
    destruct (goes_before k k0); simpl.
    + constructor; [|assumption].
      intros [Heq | Hin]; [congruence|].
      apply has_key_In in Hin. congruence.
    + constructor; [|now apply IH].
      intros Hin. apply keys_insert in Hin. destruct Hin as [Heq | Hin]; auto.
Qed.

Lemma NoDup_keys_set_prop {A : Type} (o : props A) (k : string) (v : A) :
  NoDup (map fst o) -> NoDup (map fst (set_prop o k v)).
Proof.
  intros Hnd. unfold set_prop. destruct (has_key o k) eqn:Hk.
  - now rewrite keys_update.
  - now apply NoDup_keys_insert.
Qed.




(** ** The projected object *)

Lemma json_output_fold_keys (chunk : row) :
  forall columns o,
    NoDup (map fst o) ->
    NoDup (map fst
             (fold_left
                (fun output col =>
                   set_prop output (target col) (get_prop chunk (source col)))
                columns o)).
Proof.
  induction columns as [|col columns IH]; intros o Hnd; [assumption|].
  simpl. apply IH. now apply NoDup_keys_set_prop.
Qed.

Lemma json_output_keys (columns : list column) (chunk : row) :
  NoDup (map fst (json_output columns chunk)).
Proof. apply json_output_fold_keys. constructor. Qed.

Lemma json_output_fold_untouched (chunk : row) (k : string) :
  forall columns o,
    (forall c, In c columns -> target c <> k) ->
    get_prop
      (fold_left
         (fun output col =>
            set_prop output (target col) (get_prop chunk (source col)))
         columns o) k
    = get_prop o k.
Proof.
  induction columns as [|col columns IH]; intros o Hno; [reflexivity|].
  simpl. rewrite IH by (intros c Hc; apply Hno; now right).
  rewrite get_set_prop.
  destruct (String.eqb_spec (target col) k) as [Heq | Hne]; [|reflexivity].
  exfalso. apply (Hno col); [now left | assumption].
Qed.





(** ** Rows the structured-document encoder cannot represent *)

Lemma json_row_doc_decides (columns : list column) (h : heap) (chunk : row) :
  decides (json_row_doc columns h) (circular_row columns h)
    TypeError_CircularStructure chunk.
Proof.
  unfold decides, json_row_doc, circular_row.
  destruct (fresh_object_json_decides h (json_output columns chunk))
    as [[Hex Hj] | [Hnone [ms [_ Hj]]]].
  - left. now split.
  - right. exists (JObj ms). split; [assumption|].
    intros [k [x [Hin HC]]]. exact (Hnone k x Hin HC).
Qed.




(** ** Reading back what [JSON.stringify] wrote *)

Example JSON_parse_examples :
  map JSON_parse
    [ "[]"; " [ 1 , 2.5e-3 ,-0 ] "; "{}";
      "{" ++ dq ++ "a" ++ dq ++ " : [true,false,null] , " ++ dq ++ "b\nA"
          ++ dq ++ ":{" ++ dq ++ dq ++ ":" ++ dq ++ dq ++ "}}";
      "[1,]"; "01"; "[1 2]"; "1."; "nul"; "[" ++ dq ++ "a" ++ nl ++ dq ++ "]";
      "{" ++ dq ++ "a" ++ dq ++ ":1,}"; "[[[[]]]]"; "1e5"; "-"; "2 3" ]
  = [ Some (JArr []); Some (JArr [JNum "1"; JNum "2.5e-3"; JNum "-0"]);
      Some (JObj []);
      Some (JObj [("a", JArr [JBool true; JBool false; JNull]);
                  ("b" ++ nl ++ "A", JObj [(EmptyString, JStr EmptyString)])]);
      None; None; None; None; None; None; None;
      Some (JArr [JArr [JArr [JArr []]]]); Some (JNum "1e5"); None; None ].
Proof. reflexivity. Qed.

Example JSON_parse_demo :
  match export (JSONStreamFormatter demo_columns) demo_heap
          [demo_row; [("metadata", VRef 1)]] with
  | Called (Ok out) => JSON_parse out
  | _ => None
  end
  = Some (JArr
            [ JObj [ ("id", JNum "1"); ("name", JStr ("AT&T " ++ dq ++ "ok" ++ dq));
                     ("val", JNum "250");
                     ("meta", JObj [("tag", JStr "test"); ("index", JNum "0")]) ];
              JObj [ ("meta",
                      JArr [ JNull; JNull; JNull;
                             JObj [("tag", JStr "test"); ("index", JNum "0")] ]) ] ]).
Proof. reflexivity. Qed.

Arguments is_digit : simpl never.
Arguments is_ws : simpl never.

Lemma span_digits_append (s rest a r : string) :
  span_digits s = (a, r) ->
  (r = EmptyString -> starts_digit rest = false) ->
  span_digits (s ++ rest) = (a, r ++ rest).
Proof.
  revert a r. induction s as [|c s IH]; intros a r Hs Hrest; simpl in *.
  - injection Hs as <- <-. destruct rest as [|c rest]; [reflexivity|].
    simpl in Hrest |- *. now rewrite (Hrest eq_refl).
  - destruct (is_digit c).
    + destruct (span_digits s) as [ds r'] eqn:Hspan. injection Hs as <- <-.
      now rewrite (IH ds r' eq_refl Hrest).
    + injection Hs as <- <-. reflexivity.
Qed.

Lemma span_digits_all (ds : string) :
  str_forall is_digit ds = true -> span_digits ds = (ds, EmptyString).
Proof.
  induction ds as [|c ds IH]; simpl; [reflexivity|].
  intros H. apply andb_prop in H. destruct H as [Hc Hds].
  now rewrite Hc, (IH Hds).
Qed.

Lemma lex_digits1_append (s rest a r : string) :
  lex_digits1 s = Some (a, r) ->
  (r = EmptyString -> starts_digit rest = false) ->
  lex_digits1 (s ++ rest) = Some (a, r ++ rest).
Proof.
  unfold lex_digits1. intros Hs Hrest.
  destruct (span_digits s) as [ds r'] eqn:Hspan.
  destruct ds as [|c ds]; [discriminate|]. injection Hs as <- <-.
  now rewrite (span_digits_append s rest _ _ Hspan Hrest).
Qed.

Lemma lex_int_append (s rest i r : string) :
  lex_int s = Some (i, r) ->
  (r = EmptyString -> starts_digit rest = false) ->
  lex_int (s ++ rest) = Some (i, r ++ rest).
Proof.
  unfold lex_int. destruct s as [|c s]; [discriminate|]. simpl.
  destruct (Ascii.eqb c "0").
  - intros H _. now injection H as <- <-.
  - destruct (is_digit c); [|discriminate].
    destruct (span_digits s) as [ds r'] eqn:Hspan.
    intros H Hrest. injection H as <- <-.
    now rewrite (span_digits_append s rest _ _ Hspan Hrest).
Qed.

Lemma lex_frac_append (s rest f r : string) :
  lex_frac s = Some (f, r) ->
  (r = EmptyString ->
   starts_digit rest = false /\ starts_with "." rest = false) ->
  lex_frac (s ++ rest) = Some (f, r ++ rest).
Proof.
  unfold lex_frac. destruct s as [|c s]; simpl.
  - intros H Hrest. injection H as <- <-.
    destruct rest as [|c rest]; [reflexivity|].
    destruct (Hrest eq_refl) as [_ Hdot]. simpl in Hdot. now rewrite Hdot.
  - destruct (Ascii.eqb c ".").
    + destruct (lex_digits1 s) as [[ds r']|] eqn:Hd; [|discriminate].
      intros H Hrest. injection H as <- <-.
      rewrite (lex_digits1_append s rest _ _ Hd); [reflexivity|].
      intros Hr. now destruct (Hrest Hr).
    + intros H _. now injection H as <- <-.
Qed.

Lemma lex_exp_append (s rest x r : string) :
  lex_exp s = Some (x, r) ->
  (r = EmptyString ->
   starts_digit rest = false
   /\ starts_with "e" rest = false /\ starts_with "E" rest = false) ->
  lex_exp (s ++ rest) = Some (x, r ++ rest).
Proof.
  unfold lex_exp. destruct s as [|c s]; simpl.
  - intros H Hrest. injection H as <- <-.
    destruct rest as [|c rest]; [reflexivity|].
    destruct (Hrest eq_refl) as [_ [He HE]]. simpl in He, HE. now rewrite He, HE.
  - destruct (Ascii.eqb c "e" || Ascii.eqb c "E")%bool.
    + destruct (lex_sign s) as [sign s''] eqn:Hsign.
      destruct (lex_digits1 s'') as [[ds r']|] eqn:Hd; [|discriminate].
      intros H Hrest. injection H as <- <-.
      assert (Hsign' : lex_sign (s ++ rest) = (sign, s'' ++ rest)).
      { unfold lex_sign in *. destruct s as [|c' s].
        - injection Hsign as <- <-. discriminate.
        - simpl. destruct (Ascii.eqb c' "+" || Ascii.eqb c' "-")%bool;
            now injection Hsign as <- <-. }
      rewrite Hsign', (lex_digits1_append s'' rest _ _ Hd); [reflexivity|].
      intros Hr. now destruct (Hrest Hr).
    + intros H _. now injection H as <- <-.
Qed.

Lemma delimited_continues (rest : string) :
  delimited rest = true ->
  starts_digit rest = false /\ starts_with "." rest = false
  /\ starts_with "e" rest = false /\ starts_with "E" rest = false
  /\ skip_ws rest = rest.
Proof.
  destruct rest as [|c rest]; [now repeat split|]. simpl.
  destruct c as [[] [] [] [] [] [] [] []]; try discriminate; now repeat split.
Qed.

Lemma lex_number_append (l rest l' : string) :
  lex_number l = Some (l', EmptyString) -> delimited rest = true ->
  lex_number (l ++ rest) = Some (l', rest).
Proof.
  intros Hl Hrest.
  destruct (delimited_continues rest Hrest) as [Hd [Hdot [He [HE _]]]].
  assert (Hcore : forall s l0,
             match lex_int s with
             | None => None
             | Some (i, s2) =>
                 match lex_frac s2 with
                 | None => None
                 | Some (f, s3) =>
                     match lex_exp s3 with
                     | None => None
                     | Some (e, s4) => Some (i ++ f ++ e, s4)
                     end
                 end
             end = Some (l0, EmptyString) ->
             match lex_int (s ++ rest) with
             | None => None
             | Some (i, s2) =>
                 match lex_frac s2 with
                 | None => None
                 | Some (f, s3) =>
                     match lex_exp s3 with
                     | None => None
                     | Some (e, s4) => Some (i ++ f ++ e, s4)
                     end
                 end
             end = Some (l0, rest)).
  { intros s l0 H.
    destruct (lex_int s) as [[i s2]|] eqn:Hi; [|discriminate].
    destruct (lex_frac s2) as [[f s3]|] eqn:Hf; [|discriminate].
    destruct (lex_exp s3) as [[e s4]|] eqn:Hx; [|discriminate].
    injection H as <- ->.
    rewrite (lex_int_append s rest i s2 Hi).
    2:{ intros _. exact Hd. }
    rewrite (lex_frac_append s2 rest f s3 Hf).
    2:{ intros _. now split. }
    rewrite (lex_exp_append s3 rest e EmptyString Hx).
    2:{ intros _. now repeat split. }
    reflexivity. }
  unfold lex_number in *.
  destruct l as [|c l].
  - simpl in Hl. discriminate.
  - simpl. destruct (Ascii.eqb c "-").
    + specialize (Hcore l).
      destruct (lex_int l) as [[i s2]|]; [|discriminate].
      destruct (lex_frac s2) as [[f s3]|]; [|discriminate].
      destruct (lex_exp s3) as [[e s4]|]; [|discriminate].
      injection Hl as <- ->. specialize (Hcore _ eq_refl).
      destruct (lex_int (l ++ rest)) as [[i' s2']|]; [|discriminate].
      destruct (lex_frac s2') as [[f' s3']|]; [|discriminate].
      destruct (lex_exp s3') as [[e' s4']|]; [|discriminate].
      injection Hcore as -> ->. reflexivity.
    + specialize (Hcore (String c l)).
      change (String c (l ++ rest)) with (String c l ++ rest).
      destruct (lex_int (String c l)) as [[i s2]|]; [|discriminate].
      destruct (lex_frac s2) as [[f s3]|]; [|discriminate].
      destruct (lex_exp s3) as [[e s4]|]; [|discriminate].
      injection Hl as <- ->. specialize (Hcore _ eq_refl).
      destruct (lex_int (String c l ++ rest)) as [[i' s2']|]; [|discriminate].
      destruct (lex_frac s2') as [[f' s3']|]; [|discriminate].
      destruct (lex_exp s3') as [[e' s4']|]; [|discriminate].
      injection Hcore as -> ->. reflexivity.
Qed.

(** *** Number tokens written by [Number::toString] *)

Lemma string_of_uint_digits (d : Decimal.uint) :
  str_forall is_digit (NilEmpty.string_of_uint d) = true.
Proof. induction d; simpl; auto. Qed.

Lemma digits_of_digits (m : N) : str_forall is_digit (digits_of m) = true.
Proof. apply string_of_uint_digits. Qed.

Lemma pos_to_uint_head (p : positive) :
  exists c ds,
    NilEmpty.string_of_uint (Pos.to_uint p) = String c ds
    /\ Ascii.eqb c "0" = false.
Proof.
  assert (Hnorm : Decimal.unorm (Pos.to_uint p) = Pos.to_uint p).
  { rewrite <- (DecimalPos.Unsigned.to_of (Pos.to_uint p)).
    rewrite DecimalPos.Unsigned.of_to. reflexivity. }
  pose proof (DecimalPos.Unsigned.to_uint_nonzero p) as Hnz.
  pose proof (DecimalFacts.nzhead_nonzero (Pos.to_uint p)) as Hhead.
  unfold Decimal.unorm in Hnorm.
  destruct (Decimal.nzhead (Pos.to_uint p)) eqn:Hn;
    try (rewrite <- Hnorm; simpl; eexists; eexists; split; reflexivity).
  - now symmetry in Hnorm.
  - now destruct (Hhead u).
Qed.

Lemma digits_of_head (m : N) :
  m <> 0%N ->
  exists c ds, digits_of m = String c ds /\ Ascii.eqb c "0" = false.
Proof.
  destruct m as [|p]; [congruence|]. intros _. apply pos_to_uint_head.
Qed.

Lemma digits_of_nonempty (m : N) : exists c ds, digits_of m = String c ds.
Proof.
  destruct m as [|p]; [now exists "0"%char, EmptyString|].
  destruct (pos_to_uint_head p) as [c [ds [H _]]]. now exists c, ds.
Qed.

Lemma strip_zeros_digits (s : string) :
  str_forall is_digit s = true -> str_forall is_digit (fst (strip_zeros s)) = true.
Proof.
  induction s as [|c s IH]; [reflexivity|]. simpl.
  intros H. apply andb_prop in H. destruct H as [Hc Hs]. specialize (IH Hs).
  destruct (strip_zeros s) as [t z]. simpl in IH.
  destruct t as [|a t].
  - destruct (Ascii.eqb c "0"); simpl; [reflexivity | now rewrite Hc].
  - cbn [fst str_forall] in *. now rewrite Hc, IH.
Qed.

Lemma strip_zeros_head (c : ascii) (s : string) :
  Ascii.eqb c "0" = false ->
  exists t, fst (strip_zeros (String c s)) = String c t.
Proof.
  intros Hc. simpl. destruct (strip_zeros s) as [t z].
  destruct t as [|a t]; [rewrite Hc|]; eexists; reflexivity.
Qed.

Lemma str_forall_repeat_zero (n : nat) :
  str_forall is_digit (repeat_char "0" n) = true.
Proof. induction n; simpl; auto. Qed.

Lemma str_take_drop (n : nat) (s : string) : str_take n s ++ str_drop n s = s.
Proof.
  revert s. induction n as [|n IH]; intros [|c s]; simpl; try reflexivity.
  now rewrite IH.
Qed.

Lemma str_drop_nonempty (n : nat) (s : string) :
  n < String.length s -> exists c t, str_drop n s = String c t.
Proof.
  revert s. induction n as [|n IH]; intros [|c s] H; simpl in *; try lia.
  - now exists c, s.
  - apply IH. lia.
Qed.

Lemma lex_int_digits (c : ascii) (t : string) :
  is_digit c = true -> Ascii.eqb c "0" = false -> str_forall is_digit t = true ->
  lex_int (String c t) = Some (String c t, EmptyString).
Proof.
  intros Hc Hz Ht. unfold lex_int. now rewrite Hz, Hc, (span_digits_all t Ht).
Qed.

Lemma lex_frac_digits (c : ascii) (t : string) :
  str_forall is_digit (String c t) = true ->
  lex_frac ("." ++ String c t) = Some ("." ++ String c t, EmptyString).
Proof.
  intros H. pose proof (span_digits_all _ H) as Hs.
  unfold lex_frac, lex_digits1. simpl in Hs |- *. now rewrite Hs.
Qed.

Lemma lex_exp_part (n : Z) :
  lex_exp (exponent_part n) = Some (exponent_part n, EmptyString).
Proof.
  unfold exponent_part.
  destruct (digits_of_nonempty (Z.abs_N (n - 1))) as [c [ds Hd]].
  pose proof (digits_of_digits (Z.abs_N (n - 1))) as Hall.
  rewrite Hd in *. pose proof (span_digits_all _ Hall) as Hs.
  unfold lex_exp, lex_digits1.
  destruct (n - 1 <? 0)%Z; simpl in Hs |- *; now rewrite Hs.
Qed.

Lemma lex_number_parts (neg : bool) (i f x : string) :
  lex_int i = Some (i, EmptyString) ->
  lex_frac f = Some (f, EmptyString) ->
  lex_exp x = Some (x, EmptyString) ->
  starts_digit (f ++ x) = false ->
  starts_digit x = false -> starts_with "." x = false ->
  lex_number ((if neg then "-" else EmptyString) ++ i ++ f ++ x)
  = Some ((if neg then "-" else EmptyString) ++ i ++ f ++ x, EmptyString).
Proof.
  intros Hi Hf Hx Hfx Hdx Hdot.
  assert (Hcore : match lex_int (i ++ f ++ x) with
                  | None => None
                  | Some (i', s2) =>
                      match lex_frac s2 with
                      | None => None
                      | Some (f', s3) =>
                          match lex_exp s3 with
                          | None => None
                          | Some (e, s4) => Some (i' ++ f' ++ e, s4)
                          end
                      end
                  end = Some (i ++ f ++ x, EmptyString)).
  { rewrite (lex_int_append i (f ++ x) i EmptyString Hi) by (intros _; exact Hfx).
    cbn [append].
    rewrite (lex_frac_append f x f EmptyString Hf) by (intros _; now split).
    cbn [append]. now rewrite Hx. }
  unfold lex_number. destruct neg.
  - cbn [append]. rewrite Ascii.eqb_refl.
    destruct (lex_int (i ++ f ++ x)) as [[i' s2]|]; [|discriminate].
    destruct (lex_frac s2) as [[f' s3]|]; [|discriminate].
    destruct (lex_exp s3) as [[e s4]|]; [|discriminate].
    injection Hcore as -> ->. reflexivity.
  - cbn [append]. destruct i as [|c i]; [discriminate|]. cbn [append] in *.
    assert (Hc : Ascii.eqb c "-" = false).
    { unfold lex_int in Hi. destruct (Ascii.eqb_spec c "-") as [-> | Hne];
        [discriminate | reflexivity]. }
    rewrite Hc.
    destruct (lex_int (String c (i ++ f ++ x))) as [[i' s2]|]; [|discriminate].
    destruct (lex_frac s2) as [[f' s3]|]; [|discriminate].
    destruct (lex_exp s3) as [[e s4]|]; [|discriminate].
    injection Hcore as -> ->. reflexivity.
Qed.

Ltac zbool :=
  repeat match goal with
    | H : (_ && _)%bool = true |- _ => apply andb_prop in H; destruct H
    | H : (_ && _)%bool = false |- _ => apply andb_false_iff in H
    | H : (_ <=? _)%Z = true |- _ => apply Z.leb_le in H
    | H : (_ <=? _)%Z = false |- _ => apply Z.leb_gt in H
    | H : (_ <? _)%Z = true |- _ => apply Z.ltb_lt in H
    | H : (_ <? _)%Z = false |- _ => apply Z.ltb_ge in H
    | H : (_ =? _)%Z = true |- _ => apply Z.eqb_eq in H
    | H : (_ =? _)%Z = false |- _ => apply Z.eqb_neq in H
    end.

Lemma positive_to_string_token (neg : bool) (c : ascii) (t : string) (n : Z) :
  is_digit c = true -> Ascii.eqb c "0" = false -> str_forall is_digit t = true ->
  lex_number ((if neg then "-" else EmptyString) ++ positive_to_string (String c t) n)
  = Some ((if neg then "-" else EmptyString) ++ positive_to_string (String c t) n,
          EmptyString).
Proof.
  intros Hc Hz Ht. unfold positive_to_string.
  set (k := Z.of_nat (String.length (String c t))).
  assert (Hk : (k = 1 + Z.of_nat (String.length t))%Z) by (unfold k; cbn [String.length]; lia).
  destruct ((k <=? n) && (n <=? 21))%Z eqn:C1.
  - replace (String c t ++ repeat_char "0" (Z.to_nat (n - k)))
      with (String c (t ++ repeat_char "0" (Z.to_nat (n - k)))
              ++ EmptyString ++ EmptyString)
      by (cbn [append]; now rewrite append_nil_r).
    apply lex_number_parts; try reflexivity.
    apply lex_int_digits; try assumption.
    now rewrite str_forall_append, Ht, str_forall_repeat_zero.
  - destruct ((0 <? n) && (n <=? 21))%Z eqn:C2.
    + assert (Hn : (0 < n < k)%Z) by (zbool; lia).
      destruct (Z.to_nat n) as [|m] eqn:Hm; [lia|].
      destruct (str_drop_nonempty m t) as [c' [t' Hdrop]]; [lia|].
      cbn [str_take str_drop]. rewrite Hdrop.
      replace (String c (str_take m t) ++ "." ++ String c' t')
        with (String c (str_take m t) ++ ("." ++ String c' t') ++ EmptyString)
        by (now rewrite append_nil_r).
      assert (Hall : (str_forall is_digit (str_take m t)
                      && str_forall is_digit (String c' t'))%bool = true).
      { rewrite <- Hdrop, <- str_forall_append, str_take_drop. exact Ht. }
      apply andb_prop in Hall. destruct Hall as [Htake Hrest].
      apply lex_number_parts; try reflexivity.
      * now apply lex_int_digits.
      * now apply lex_frac_digits.
    + destruct ((-6 <? n) && (n <=? 0))%Z eqn:C3.
      * assert (Hfrac : exists c' t', repeat_char "0" (Z.to_nat (- n)) ++ String c t
                                      = String c' t'
                                      /\ str_forall is_digit (String c' t') = true).
        { destruct (repeat_char "0" (Z.to_nat (- n)) ++ String c t) as [|c' t'] eqn:E.
          - destruct (repeat_char "0" (Z.to_nat (- n))); discriminate.
          - exists c', t'. split; [reflexivity|]. rewrite <- E.
            rewrite str_forall_append, str_forall_repeat_zero. simpl.
            now rewrite Hc, Ht. }
        destruct Hfrac as [c' [t' [E Hall]]].
        replace ("0." ++ repeat_char "0" (Z.to_nat (- n)) ++ String c t)
          with ("0" ++ ("." ++ String c' t') ++ EmptyString)
          by (rewrite <- E; cbn [append]; now rewrite append_nil_r).
        apply lex_number_parts; try reflexivity.
        now apply lex_frac_digits.
      * destruct (k =? 1)%Z eqn:C4.
        -- replace (String c t ++ exponent_part n)
             with (String c t ++ EmptyString ++ exponent_part n) by reflexivity.
           apply lex_number_parts; try reflexivity.
           ++ now apply lex_int_digits.
           ++ apply lex_exp_part.
        -- destruct t as [|c' t']; [cbn [String.length] in Hk; zbool; lia|].
           cbn [str_take str_drop].
           replace (String c EmptyString ++ "." ++ String c' t' ++ exponent_part n)
             with (String c EmptyString ++ ("." ++ String c' t') ++ exponent_part n)
             by reflexivity.
           apply lex_number_parts; try reflexivity.
           ++ now apply lex_int_digits.
           ++ now apply lex_frac_digits.
           ++ apply lex_exp_part.
Qed.

Lemma Number_toString_token (n : number) :
  is_finite n = true -> valid_number (Number_toString n) = true.
Proof.
  destruct n as [| neg | neg m e]; try discriminate. intros _.
  unfold valid_number.
  assert (H : lex_number (Number_toString (Finite neg m e))
              = Some (Number_toString (Finite neg m e), EmptyString)).
  { destruct m as [|p]; [reflexivity|].
    destruct (digits_of_head (Npos p)) as [c [ds [Hd Hz]]]; [discriminate|].
    pose proof (digits_of_digits (Npos p)) as Hall. rewrite Hd in Hall.
    pose proof (strip_zeros_digits _ Hall) as Hstrip.
    destruct (strip_zeros_head c ds Hz) as [t Ht]. rewrite Ht in Hstrip.
    cbn [Number_toString]. rewrite Hd.
    destruct (strip_zeros (String c ds)) as [ds' z]. cbn [fst] in Ht. subst ds'.
    simpl in Hstrip. apply andb_prop in Hstrip. destruct Hstrip as [Hc Hrest].
    now apply positive_to_string_token. }
  rewrite H. apply String.eqb_refl.
Qed.

(** *** Strings *)

Lemma parse_string_body_char (c : ascii) (tail : string) :
  parse_string_body (json_escape_char c ++ tail)
  = match parse_string_body tail with
    | Some (v, rest) => Some (String c v, rest)
    | None => None
    end.
Proof. destruct c as [[] [] [] [] [] [] [] []]; reflexivity. Qed.

Lemma parse_string_body_escape (s rest : string) :
  parse_string_body (json_escape s ++ String dquote rest) = Some (s, rest).
Proof.
  induction s as [|c s IH]; [reflexivity|].
  cbn [json_escape]. rewrite append_assoc, parse_string_body_char, IH.
  reflexivity.
Qed.

(** *** Documents *)

Lemma json_nested_ind (P : json -> Prop) :
  P JNull -> (forall b, P (JBool b)) -> (forall l, P (JNum l)) ->
  (forall s, P (JStr s)) ->
  (forall es, Forall P es -> P (JArr es)) ->
  (forall ms, Forall (fun m => P (snd m)) ms -> P (JObj ms)) ->
  forall j, P j.
Proof.
  intros Hnull Hbool Hnum Hstr Harr Hobj.
  fix IH 1. intros [| b | l | s | es | ms];
    [apply Hnull | apply Hbool | apply Hnum | apply Hstr | |].
  - apply Harr. induction es as [|e es IHes]; constructor; [apply IH | exact IHes].
  - apply Hobj. induction ms as [|[k v] ms IHms]; constructor;
      [apply IH | exact IHms].
Qed.

Lemma concat_comma_cons (x : string) (l : list string) :
  String.concat "," (x :: l) = x ++ tail_text l.
Proof.
  revert x. induction l as [|y l IH]; intros x.
  - simpl. now rewrite append_nil_r.
  - change (String.concat "," (x :: y :: l))
      with (x ++ "," ++ String.concat "," (y :: l)).
    rewrite IH. reflexivity.
Qed.

Lemma value_start_facts (c : ascii) :
  value_start c = true ->
  is_ws c = false /\ Ascii.eqb c "]" = false /\ Ascii.eqb c "}" = false.
Proof. destruct c as [[] [] [] [] [] [] [] []]; try discriminate; now repeat split. Qed.

Lemma starts_number_facts (c : ascii) :
  starts_number c = true -> is_ws c = false /\ value_start c = true.
Proof. destruct c as [[] [] [] [] [] [] [] []]; try discriminate; now repeat split. Qed.

Lemma valid_number_start (l : string) :
  valid_number l = true ->
  lex_number l = Some (l, EmptyString)
  /\ exists c s, l = String c s /\ starts_number c = true.
Proof.
  unfold valid_number. intros H.
  destruct (lex_number l) as [[l' r]|] eqn:Hl; [|discriminate].
  destruct r; [|discriminate]. apply String.eqb_eq in H. subst l'.
  split; [reflexivity|].
  unfold lex_number in Hl. destruct l as [|c s]; [discriminate|].
  exists c, s. split; [reflexivity|]. unfold starts_number.
  destruct (Ascii.eqb c "-") eqn:E; [apply orb_true_r|].
  unfold lex_int in Hl. destruct (Ascii.eqb_spec c "0") as [-> | Hne]; [reflexivity|].
  destruct (is_digit c); [reflexivity | discriminate].
Qed.

Lemma json_print_start (j : json) :
  json_wf j = true ->
  exists c s, json_print j = String c s /\ value_start c = true.
Proof.
  destruct j as [| [|] | l | s | es | ms]; intros Hwf;
    try (eexists; eexists; split; reflexivity).
  destruct (valid_number_start l Hwf) as [_ [c [s [-> Hc]]]].
  exists c, s. split; [reflexivity|]. now apply starts_number_facts.
Qed.

Lemma skip_ws_value (c : ascii) (s : string) :
  value_start c = true -> skip_ws (String c s) = String c s.
Proof.
  intros H. destruct (value_start_facts c H) as [Hws _]. simpl. now rewrite Hws.
Qed.

Lemma parse_value_number (f : nat) (c : ascii) (r : string) :
  starts_number c = true ->
  parse_value (S f) (String c r)
  = match lex_number (String c r) with
    | Some (lexeme, rest) => Some (JNum lexeme, skip_ws rest)
    | None => None
    end.
Proof.
  intros H. destruct (starts_number_facts c H) as [Hws _].
  cbn [parse_value skip_ws]. now rewrite Hws, H.
Qed.

Lemma delimited_tail (l : list string) (c : ascii) (rest : string) :
  delimited (String c rest) = true ->
  delimited (tail_text l ++ String c rest) = true.
Proof. destruct l; intros H; [exact H | reflexivity]. Qed.

Lemma skip_ws_delimited (rest : string) :
  delimited rest = true -> skip_ws rest = rest.
Proof. intros H. now destruct (delimited_continues rest H) as [_ [_ [_ [_ E]]]]. Qed.

Lemma more_elements_print (es : list json) :
  Forall reads_back es -> forallb json_wf es = true ->
  forall fuel rest,
    String.length (tail_text (map json_print es) ++ String "]" rest) < fuel ->
    more_elements fuel (tail_text (map json_print es) ++ String "]" rest)
    = Some (es, rest).
Proof.
  induction 1 as [|e es He Hes IH]; intros Hwf fuel rest Hlen;
    (destruct fuel as [|f]; [simpl in Hlen; lia|]).
  - reflexivity.
  - cbn [forallb] in Hwf. apply andb_prop in Hwf. destruct Hwf as [Hwe Hwes].
    cbn [map tail_text] in Hlen |- *.
    rewrite !append_assoc in Hlen |- *. cbn [append] in Hlen |- *.
    change (more_elements (S f)
              (String ","
                 (json_print e ++ tail_text (map json_print es) ++ String "]" rest)))
      with (match parse_value f
                    (json_print e ++ tail_text (map json_print es) ++ String "]" rest)
            with
            | Some (v, rest0) =>
                match more_elements f rest0 with
                | Some (vs, rest') => Some (v :: vs, rest')
                | None => None
                end
            | None => None
            end).
    cbn [String.length] in Hlen.
    rewrite (He Hwe f _ (delimited_tail (map json_print es) "]" rest eq_refl))
      by lia.
    rewrite (IH Hwes f rest); [reflexivity|].
    rewrite length_append in Hlen. lia.
Qed.

Lemma parse_member_print (f : nat) (k : string) (v : json) (tail : string) :
  reads_back v -> json_wf v = true -> delimited tail = true ->
  String.length (json_print v ++ tail) < f ->
  parse_member (parse_value f) (member_text (k, v) ++ tail) = Some ((k, v), tail).
Proof.
  intros Hv Hwf Htail Hlen. unfold member_text, json_quote. cbn [fst snd].
  rewrite !append_assoc. cbn [dq append].
  change (parse_member (parse_value f)
            (String dquote
               (json_escape k ++ String dquote (String ":" (json_print v ++ tail)))))
    with (match parse_string_body
                  (json_escape k ++ String dquote (String ":" (json_print v ++ tail)))
          with
          | Some (k0, r1) =>
              match skip_ws r1 with
              | String c2 r2 =>
                  if Ascii.eqb c2 ":" then
                    match parse_value f r2 with
                    | Some (v0, rest) => Some ((k0, v0), rest)
                    | None => None
                    end
                  else None
              | EmptyString => None
              end
          | None => None
          end).
  rewrite parse_string_body_escape.
  change (skip_ws (String ":" (json_print v ++ tail)))
    with (String ":" (json_print v ++ tail)).
  cbn [Ascii.eqb Bool.eqb]. now rewrite (Hv Hwf f tail Htail Hlen).
Qed.

Lemma more_members_print (ms : list (string * json)) :
  Forall (fun m => reads_back (snd m)) ms ->
  forallb (fun m => json_wf (snd m)) ms = true ->
  forall fuel rest,
    String.length (tail_text (map member_text ms) ++ String "}" rest) < fuel ->
    more_members fuel (tail_text (map member_text ms) ++ String "}" rest)
    = Some (ms, rest).
Proof.
  induction 1 as [|[k v] ms Hm Hms IH]; intros Hwf fuel rest Hlen;
    (destruct fuel as [|f]; [simpl in Hlen; lia|]).
  - reflexivity.
  - cbn [forallb snd] in Hwf, Hm. apply andb_prop in Hwf. destruct Hwf as [Hwv Hwms].
    cbn [map tail_text] in Hlen |- *.
    rewrite !append_assoc in Hlen |- *. cbn [append] in Hlen |- *.
    change (more_members (S f)
              (String ","
                 (member_text (k, v)
                    ++ tail_text (map member_text ms) ++ String "}" rest)))
      with (match parse_member (parse_value f)
                    (member_text (k, v)
                       ++ tail_text (map member_text ms) ++ String "}" rest)
            with
            | Some (m, rest0) =>
                match more_members f rest0 with
                | Some (ms0, rest') => Some (m :: ms0, rest')
                | None => None
                end
            | None => None
            end).
    cbn [String.length] in Hlen. rewrite length_append in Hlen.
    rewrite parse_member_print;
      [| assumption | assumption | apply delimited_tail; reflexivity |].
    + rewrite (IH Hwms f rest); [reflexivity | lia].
    + change (member_text (k, v)) with (json_quote k ++ ":" ++ json_print v) in Hlen.
      rewrite !length_append in Hlen. rewrite !length_append. lia.
Qed.

Lemma parse_print (j : json) : reads_back j.
Proof.
  induction j as [| b | l | s | es Hes | ms Hms] using json_nested_ind;
    intros Hwf fuel rest Hrest Hlen;
    (destruct fuel as [|f]; [simpl in Hlen; lia|]).
  - change (parse_value (S f) (json_print JNull ++ rest))
      with (Some (JNull, skip_ws rest)).
    now rewrite skip_ws_delimited.
  - destruct b.
    + change (parse_value (S f) (json_print (JBool true) ++ rest))
        with (Some (JBool true, skip_ws rest)).
      now rewrite skip_ws_delimited.
    + change (parse_value (S f) (json_print (JBool false) ++ rest))
        with (Some (JBool false, skip_ws rest)).
      now rewrite skip_ws_delimited.
  - cbn [json_wf json_print] in *.
    destruct (valid_number_start l Hwf) as [Hl [c [s [-> Hc]]]].
    cbn [append]. rewrite (parse_value_number f c _ Hc).
    change (String c (s ++ rest)) with (String c s ++ rest).
    rewrite (lex_number_append _ rest _ Hl Hrest).
    now rewrite skip_ws_delimited.
  - cbn [json_print]. unfold json_quote. rewrite !append_assoc. cbn [dq append].
    change (parse_value (S f) (String dquote (json_escape s ++ String dquote rest)))
      with (match parse_string_body (json_escape s ++ String dquote rest) with
            | Some (str, rest0) => Some (JStr str, skip_ws rest0)
            | None => None
            end).
    rewrite parse_string_body_escape. now rewrite skip_ws_delimited.
  - cbn [json_wf json_print] in *.
    destruct es as [|e es].
    + change (parse_value (S f) (("[" ++ String.concat "," (map json_print []) ++ "]")
                                   ++ rest))
        with (Some (JArr [], skip_ws rest)).
      now rewrite skip_ws_delimited.
    + cbn [map] in *. rewrite concat_comma_cons in *.
      rewrite !append_assoc in *. cbn [append] in *.
      inversion Hes as [|? ? He Hes']; subst.
      cbn [forallb] in Hwf. apply andb_prop in Hwf. destruct Hwf as [Hwe Hwes].
      destruct (json_print_start e Hwe) as [c [s [Hp Hc]]].
      destruct (value_start_facts c Hc) as [Hws [Hclose _]].
      set (tail := tail_text (map json_print es) ++ String "]" rest) in *.
      change (parse_value (S f) (String "[" (json_print e ++ tail)))
        with (match skip_ws (json_print e ++ tail) with
              | EmptyString => None
              | String c' r' =>
                  if Ascii.eqb c' "]" then Some (JArr [], skip_ws r')
                  else
                    match parse_value f (json_print e ++ tail) with
                    | Some (v, rest0) =>
                        match more_elements f rest0 with
                        | Some (vs, rest') => Some (JArr (v :: vs), skip_ws rest')
                        | None => None
                        end
                    | None => None
                    end
              end).
      cbn [String.length] in Hlen.
      assert (Hskip : skip_ws (json_print e ++ tail) = String c (s ++ tail)).
      { rewrite Hp. cbn [append skip_ws]. now rewrite Hws. }
      rewrite Hskip, Hclose.
      rewrite (He Hwe f tail (delimited_tail (map json_print es) "]" rest eq_refl))
        by lia.
      unfold tail. rewrite (more_elements_print es Hes' Hwes f rest).
      * now rewrite skip_ws_delimited.
      * fold tail. rewrite length_append in Hlen. lia.
  - cbn [json_wf json_print] in *.
    destruct ms as [|[k v] ms].
    + change (parse_value (S f)
                (("{" ++ String.concat ","
                           (map (fun m => json_quote (fst m) ++ ":" ++ json_print (snd m))
                              []) ++ "}") ++ rest))
        with (Some (JObj [], skip_ws rest)).
      now rewrite skip_ws_delimited.
    + change (map (fun m => json_quote (fst m) ++ ":" ++ json_print (snd m))
                ((k, v) :: ms))
        with (member_text (k, v) :: map member_text ms) in *.
      rewrite concat_comma_cons in *.
      rewrite !append_assoc in *. cbn [append] in *.
      inversion Hms as [|? ? Hv Hms']; subst. cbn [snd] in Hv.
      cbn [forallb snd] in Hwf. apply andb_prop in Hwf. destruct Hwf as [Hwv Hwms].
      set (tail := tail_text (map member_text ms) ++ String "}" rest) in *.
      assert (Hstart : exists s, member_text (k, v) ++ tail = String dquote s).
      { unfold member_text, json_quote. cbn [fst dq append]. eexists. reflexivity. }
      destruct Hstart as [s Hs].
      change (parse_value (S f) (String "{" (member_text (k, v) ++ tail)))
        with (match skip_ws (member_text (k, v) ++ tail) with
              | EmptyString => None
              | String c' r' =>
                  if Ascii.eqb c' "}" then Some (JObj [], skip_ws r')
                  else
                    match parse_member (parse_value f) (member_text (k, v) ++ tail) with
                    | Some (m, rest0) =>
                        match more_members f rest0 with
                        | Some (ms0, rest') => Some (JObj (m :: ms0), skip_ws rest')
                        | None => None
                        end
                    | None => None
                    end
              end).
      assert (Hskip : skip_ws (member_text (k, v) ++ tail) = String dquote s).
      { rewrite Hs. reflexivity. }
      rewrite Hskip. cbn [Ascii.eqb Bool.eqb dquote].
      cbn [String.length] in Hlen. rewrite length_append in Hlen.
      rewrite parse_member_print;
        [| assumption | assumption | apply delimited_tail; reflexivity |].
      * unfold tail. rewrite (more_members_print ms Hms' Hwms f rest).
        -- now rewrite skip_ws_delimited.
        -- fold tail. lia.
      * change (member_text (k, v)) with (json_quote k ++ ":" ++ json_print v) in Hlen.
        rewrite !length_append in Hlen. rewrite length_append. lia.
Qed.

(** [JSON.parse] gives back every well-formed document from its text. *)
Lemma JSON_parse_print (j : json) :
  json_wf j = true -> JSON_parse (json_print j) = Some j.
Proof.
  intros Hwf. unfold JSON_parse.
  pose proof (parse_print j Hwf (S (String.length (json_print j))) EmptyString
                eq_refl) as H.
  rewrite append_nil_r in H. rewrite H; [reflexivity | lia].
Qed.

(** *** What [JSON.stringify] writes is well formed *)

Lemma mapM_forallb {A B : Type} (f : A -> result B) (q : B -> bool) :
  (forall x y, f x = Ok y -> q y = true) ->
  forall l ys, mapM f l = Ok ys -> forallb q ys = true.
Proof.
  intros Hq. induction l as [|x l IH]; intros ys H; simpl in H.
  - now injection H as <-.
  - destruct (f x) as [y|e] eqn:Hx; [|discriminate]. cbn [bind] in H.
    destruct (mapM f l) as [ys'|e]; [|discriminate]. cbn [bind] in H.
    injection H as <-. simpl. now rewrite (Hq x y Hx), (IH ys' eq_refl).
Qed.

Lemma ser_members_forallb (ser : value -> result json) :
  (forall x j, ser x = Ok j -> json_wf j = true) ->
  forall o ms, ser_members ser o = Ok ms ->
               forallb (fun m => json_wf (snd m)) ms = true.
Proof.
  intros Hq. induction o as [|[k v] o IH]; intros ms H; simpl in H.
  - now injection H as <-.
  - destruct v; try (now apply IH);
      (destruct (ser _) as [j|e] eqn:Hx; [|discriminate]; cbn [bind] in H;
       destruct (ser_members ser o) as [ms'|e]; [|discriminate]; cbn [bind] in H;
       injection H as <-; simpl; now rewrite (Hq _ j Hx), (IH ms' eq_refl)).
Qed.

Lemma to_json_wf (h : heap) :
  forall fuel stack v j, to_json fuel h stack v = Ok j -> json_wf j = true.
Proof.
  induction fuel as [|f IH]; intros stack v j H;
    (destruct v as [| | b | n | s | [t|] | a]; simpl in H;
     try (injection H as <-; try reflexivity;
          destruct n as [| neg | neg m e]; try reflexivity;
          apply (Number_toString_token (Finite neg m e)); reflexivity));
    (destruct (existsb (Nat.eqb a) stack); [discriminate|];
     destruct (nth_error h a) as [o|]; [|now injection H as <-]).
  - discriminate.
  - destruct o as [props | items].
    + destruct (ser_members (to_json f h (a :: stack)) props) as [ms|e] eqn:Hm;
        [|discriminate].
      cbn [bind] in H. injection H as <-.
      apply (ser_members_forallb (to_json f h (a :: stack))) with (o := props);
        [|assumption].
      intros x j. apply IH.
    + destruct (mapM (to_json f h (a :: stack)) items) as [es|e] eqn:Hm;
        [|discriminate].
      cbn [bind] in H. injection H as <-.
      apply (mapM_forallb (to_json f h (a :: stack)) json_wf) with (l := items);
        [|assumption].
      intros x j. apply IH.
Qed.

Lemma json_row_doc_wf (columns : list column) (h : heap) (chunk : row) (doc : json) :
  json_row_doc columns h chunk = Ok doc ->
  json_wf doc = true
  /\ exists ms, doc = JObj ms
                /\ ser_members (to_json (enough_fuel h) h [])
                     (json_output columns chunk) = Ok ms.
Proof.
  unfold json_row_doc, fresh_object_json. intros H.
  destruct (ser_members (to_json (enough_fuel h) h []) (json_output columns chunk))
    as [ms|e] eqn:Hm; [|discriminate].
  cbn [bind] in H. injection H as <-. split; [|now exists ms].
  apply (ser_members_forallb (to_json (enough_fuel h) h []))
    with (o := json_output columns chunk); [|assumption].
  intros x j. apply to_json_wf.
Qed.

(** C9 -- the text of a finished structured-document export parses back
    into an array with one element per input row, the element at each
    position being the document of the row at that position. *)
Theorem json_export_parses_back :
  forall (columns : list column) (h : heap) (rows : list row) (out : string),
    export (JSONStreamFormatter columns) h rows = Ok out ->
    exists docs,
      JSON_parse out = Some (JArr docs)
      /\ List.length docs = List.length rows
      /\ Forall2 (fun chunk doc => json_row_doc columns h chunk = Ok doc) rows docs.
Proof.
  intros columns h rows out Hexport. rewrite json_export_doc in Hexport.
  destruct (mapM (json_row_doc columns h) rows) as [docs|e] eqn:Hdocs;
    [|discriminate].
  cbn [bind] in Hexport. injection Hexport as <-.
  exists docs. split; [|split].
  - apply (JSON_parse_print (JArr docs)). cbn [json_wf].
    apply (mapM_forallb (json_row_doc columns h) json_wf) with (l := rows);
      [|assumption].
    intros chunk doc Hdoc. now destruct (json_row_doc_wf _ _ _ _ Hdoc).
  - now apply mapM_length in Hdocs.
  - now apply mapM_Forall2.
Qed.

Lemma json_export_parses_back_witness :
  exists docs,
    JSON_parse
      ("[{" ++ dq ++ "id" ++ dq ++ ":1," ++ dq ++ "val" ++ dq ++ ":250},{"
         ++ dq ++ "id" ++ dq ++ ":2," ++ dq ++ "name" ++ dq ++ ":" ++ dq ++ "b" ++ dq
         ++ "}]")
    = Some (JArr docs)
    /\ List.length docs = 2
    /\ Forall2 (fun chunk doc => json_row_doc demo_columns [] chunk = Ok doc)
         [ [("id", VNumber (of_Z 1)); ("value", VNumber (of_Z 250))];
           [("id", VNumber (of_Z 2)); ("name", VString "b")] ]
         docs.
Proof.
  exact (json_export_parses_back demo_columns []
           [ [("id", VNumber (of_Z 1)); ("value", VNumber (of_Z 250))];
             [("id", VNumber (of_Z 2)); ("name", VString "b")] ]
           _ eq_refl).
Defined.

(** ** The columnar-binary encoder *)

Lemma find_update {A : Type} (o : props A) (k : string) (v : A) (k' : string) :
  has_key o k = true ->
  find_prop (update_prop o k v) k'
  = if String.eqb k k' then Some v else find_prop o k'.
Proof.
  unfold find_prop. induction o as [|[k0 v0] o IH]; [discriminate|]. simpl.
  destruct (String.eqb_spec k0 k) as [-> | Hne]; simpl.
  - intros _. destruct (String.eqb k k'); reflexivity.
  - intros Hk.
    destruct (String.eqb_spec k0 k') as [-> | Hne'].
    + apply String.eqb_neq in Hne. rewrite String.eqb_sym in Hne. now rewrite Hne.
    + now apply IH.
Qed.

Lemma find_insert {A : Type} (o : props A) (k : string) (v : A) (k' : string) :
  has_key o k = false ->
  find_prop (insert_prop o k v) k'
  = if String.eqb k k' then Some v else find_prop o k'.
Proof.
  unfold find_prop. induction o as [|[k0 v0] o IH]; simpl.
  - intros _. destruct (String.eqb k k'); reflexivity.
  - destruct (String.eqb_spec k0 k) as [-> | Hne]; [discriminate|]. intros Hk.
    destruct (goes_before k k0); simpl.
    + destruct (String.eqb k k'); reflexivity.
    + destruct (String.eqb_spec k0 k') as [-> | Hne'].
      * apply String.eqb_neq in Hne. rewrite String.eqb_sym in Hne. now rewrite Hne.
      * now apply IH.
Qed.

Lemma find_set_prop {A : Type} (o : props A) (k : string) (v : A) (k' : string) :
  find_prop (set_prop o k v) k' = if String.eqb k k' then Some v else find_prop o k'.
Proof.
  unfold set_prop. destruct (has_key o k) eqn:Hk;
    [now apply find_update | now apply find_insert].
Qed.

Lemma In_update {A : Type} (o : props A) (k : string) (v : A) (p : string * A) :
  In p (update_prop o k v) -> (fst p = k /\ snd p = v) \/ In p o.
Proof.
  induction o as [|[k0 v0] o IH]; [intros []|]. simpl.
  destruct (String.eqb_spec k0 k) as [-> | Hne]; simpl.
  - intros [<- | Hin]; [now left | right; now right].
  - intros [<- | Hin]; [right; now left|].
    destruct (IH Hin) as [H | H]; [now left | right; now right].
Qed.

Lemma In_set_prop {A : Type} (o : props A) (k : string) (v : A) (p : string * A) :
  In p (set_prop o k v) -> p = (k, v) \/ In p o.
Proof.
  unfold set_prop. destruct (has_key o k).
  - intros H. destruct (In_update o k v p H) as [[Hk Hv] | Hin]; [|now right].
    left. destruct p. simpl in *. now subst.
  - intros H. now apply In_insert in H.
Qed.

Lemma parquet_schema_fold (columns : list column) :
  forall defs : schema,
    let defs' :=
      fold_left
        (fun schemaDefs col =>
           set_prop schemaDefs (target col) {| ftype := "UTF8"; optional := true |})
        columns defs in
    (forall col, In col columns ->
                 find_prop defs' (target col)
                 = Some {| ftype := "UTF8"; optional := true |})
    /\ (forall k, find_prop defs k = Some {| ftype := "UTF8"; optional := true |} ->
                  find_prop defs' k = Some {| ftype := "UTF8"; optional := true |})
    /\ (forall k fd, In (k, fd) defs' ->
                     In (k, fd) defs
                     \/ (fd = {| ftype := "UTF8"; optional := true |}
                         /\ exists col, In col columns /\ target col = k)).
Proof.
  induction columns as [|c columns IH]; intros defs; cbn zeta.
  - split; [intros col []|]. split; [auto|]. intros k fd H. now left.
  - cbn [fold_left].
    destruct (IH (set_prop defs (target c) {| ftype := "UTF8"; optional := true |}))
      as [Hcols [Hkeep Hall]].
    split; [|split].
    + intros col [<- | Hin]; [|now apply Hcols].
      apply Hkeep. now rewrite find_set_prop, String.eqb_refl.
    + intros k Hk. apply Hkeep. rewrite find_set_prop, Hk.
      now destruct (String.eqb (target c) k).
    + intros k fd Hin. destruct (Hall k fd Hin) as [Hset | [-> [col [Hcol <-]]]].
      * apply In_set_prop in Hset. destruct Hset as [Heq | Hdefs]; [|now left].
        injection Heq as -> ->. right. split; [reflexivity|].
        exists c. split; [now left | reflexivity].
      * right. split; [reflexivity|]. exists col. split; [now right | reflexivity].
Qed.

Lemma parquet_row_fold (h : heap) (chunk : row) :
  forall (columns : list column) (row0 row1 : props string),
    foldM
      (fun row col =>
         val <- prepareValue h (get_prop chunk (source col)) ;;
         Ok (set_prop row (target col) val))
      columns row0 = Ok row1 ->
    forall k s,
      In (k, s) row1 ->
      In (k, s) row0
      \/ exists col, In col columns /\ target col = k
                     /\ prepareValue h (get_prop chunk (source col)) = Ok s.
Proof.
  induction columns as [|c columns IH]; intros row0 row1 H k s Hin; simpl in H.
  - injection H as <-. now left.
  - destruct (prepareValue h (get_prop chunk (source c))) as [val|e] eqn:Hval;
      [|discriminate].
    cbn [bind] in H.
    destruct (IH _ _ H k s Hin) as [Hset | [col [Hcol [Hk Hs]]]].
    + apply In_set_prop in Hset. destruct Hset as [Heq | H0]; [|now left].
      injection Heq as -> ->. right. exists c. now repeat split; [left|..].
    + right. exists col. now repeat split; [right|..].
Qed.

(** C8 -- for target names other than [__proto__] (an assignment under
    that name sets no property), the columnar-binary encoder builds, in its
    constructor, schema definitions in which every target column of the
    projection is declared and every declared field is an optional UTF8
    (string) field named by a target column; this is the schema the writer
    is opened on; and every value of a row handed to the writer is the
    normalizer's string for the value of a projected source field, so a
    number or a boolean is stored as its text. *)
Theorem parquet_schema_and_values :
  forall (writer : Type)
         (openStream : schema -> reply (writer * list string))
         (appendRow : writer -> props string -> reply (writer * list string))
         (close : writer -> reply (list string))
         (columns : list column),
    ~ In proto_key (map target columns) ->
    pschema _ (fst (construct
                      (ParquetStreamFormatter writer openStream appendRow close
                         columns)))
    = parquet_schema_defs columns
    /\ (forall col, In col columns ->
                    find_prop (parquet_schema_defs columns) (target col)
                    = Some {| ftype := "UTF8"; optional := true |})
    /\ (forall k fd, In (k, fd) (parquet_schema_defs columns) ->
                     fd = {| ftype := "UTF8"; optional := true |}
                     /\ exists col, In col columns /\ target col = k)
    /\ (forall st st' cs,
           fopen (ParquetStreamFormatter writer openStream appendRow close columns) st
           = Ok (st', cs) ->
           exists w, openStream (pschema _ st) = Ok (w, cs)
                     /\ pwriter _ st' = Some w /\ pschema _ st' = pschema _ st)
    /\ (forall h st chunk st' cs,
           transform (ParquetStreamFormatter writer openStream appendRow close columns)
             h st chunk = Ok (st', cs) ->
           exists w row w',
             pwriter _ st = Some w
             /\ parquet_row columns h chunk = Ok row
             /\ appendRow w row = Ok (w', cs)
             /\ forall k s,
                 In (k, s) row ->
                 exists col, In col columns /\ target col = k
                             /\ prepareValue h (get_prop chunk (source col)) = Ok s)
    /\ parquet_row demo_columns []
         [("id", VNumber (of_Z 7)); ("name", VBoolean true); ("value", VNull)]
       = Ok [("id", "7"); ("name", "true"); ("val", EmptyString);
             ("meta", EmptyString)].
Proof.
  intros writer openStream appendRow close columns _.
  destruct (parquet_schema_fold columns []) as [Hcols [_ Hall]].
  split; [reflexivity|]. split; [exact Hcols|]. split; [|split; [|split]].
  - intros k fd Hin. destruct (Hall k fd Hin) as [[] | H]. exact H.
  - intros st st' cs H. cbn [fopen ParquetStreamFormatter] in H.
    unfold parquet_open in H.
    destruct (openStream (pschema writer st)) as [[[w cs']|e]|pushed];
      try discriminate.
    injection H as <- <-. now exists w.
  - intros h st chunk st' cs H. cbn [transform ParquetStreamFormatter] in H.
    destruct (parquet_transform_accepts writer appendRow columns h st st' chunk cs H)
      as [w [row [w' [Hw [Hrow [Happ _]]]]]].
    exists w, row, w'. repeat split; try assumption.
    intros k s Hin.
    destruct (parquet_row_fold h chunk columns [] row Hrow k s Hin) as [[] | H'].
    exact H'.
  - reflexivity.
Qed.

Lemma parquet_schema_and_values_witness :
  ~ In proto_key (map target demo_columns)
  /\ (forall col, In col demo_columns ->
                  find_prop (parquet_schema_defs demo_columns) (target col)
                  = Some {| ftype := "UTF8"; optional := true |})
  /\ (forall k fd, In (k, fd) (parquet_schema_defs demo_columns) ->
                   fd = {| ftype := "UTF8"; optional := true |}
                   /\ exists col, In col demo_columns /\ target col = k).
Proof.
  assert (H : ~ In proto_key (map target demo_columns)).
  { intros [H | [H | [H | [H | []]]]]; discriminate. }
  split; [exact H|].
  pose proof (parquet_schema_and_values unit (fun _ => Ok (tt, []))
                (fun w _ => Ok (w, [])) (fun _ => Ok []) demo_columns H) as P.
  split; [exact (proj1 (proj2 P)) | exact (proj1 (proj2 (proj2 P)))].
Defined.

(** ** Absent source fields *)

Lemma parquet_row_untouched (h : heap) (chunk : row) (k : string) :
  forall (columns : list column) (row0 row1 : props string),
    foldM
      (fun row col =>
         val <- prepareValue h (get_prop chunk (source col)) ;;
         Ok (set_prop row (target col) val))
      columns row0 = Ok row1 ->
    (forall c, In c columns -> target c <> k) ->
    find_prop row1 k = find_prop row0 k.
Proof.
  induction columns as [|c columns IH]; intros row0 row1 H Hno; simpl in H.
  - now injection H as <-.
  - destruct (prepareValue h (get_prop chunk (source c))) as [val|e];
      [|discriminate].
    cbn [bind] in H. rewrite (IH _ _ H) by (intros c' Hc'; apply Hno; now right).
    rewrite find_set_prop.
    destruct (String.eqb_spec (target c) k) as [Heq | Hne]; [|reflexivity].
    now destruct (Hno c (or_introl eq_refl)).
Qed.





(** ** The pipeline *)

Lemma write_all_cases (K : Sink) :
  forall cs k k' received res,
    write_all K k cs = (k', received, res) ->
    (res = Ok tt /\ received = cs)
    \/ (exists e c rest,
           res = Throw e /\ cs = (received ++ c :: rest)%list
           /\ swrite K k' c = Throw e).
Proof.
  induction cs as [|c cs IH]; intros k k' received res H; simpl in H.
  - injection H as <- <- <-. now left.
  - destruct (swrite K k c) as [k1|e] eqn:Hw.
    + destruct (write_all K k1 cs) as [[k2 received'] res'] eqn:Hrest.
      injection H as <- <- <-.
      destruct (IH k1 k2 received' res' Hrest)
        as [[-> ->] | [e [c' [rest [-> [-> Hrefuse]]]]]].
      * now left.
      * right. exists e, c', rest. now repeat split.
    + injection H as <- <- <-. right. exists e, c, cs. now repeat split.
Qed.

Lemma write_all_prefix (K : Sink) :
  forall cs k k' received res,
    write_all K k cs = (k', received, res) ->
    exists rest, cs = (received ++ rest)%list.
Proof.
  intros cs k k' received res H.
  destruct (write_all_cases K cs k k' received res H)
    as [[_ ->] | [e [c [rest [_ [-> _]]]]]].
  - exists []. now rewrite List.app_nil_r.
  - now exists (c :: rest).
Qed.

Lemma emit_destroyed (F : Formatter) (h : heap) (rows : list row)
    (src_end : option error) (cs : list string) (e : error) :
  emit F h rows src_end = (cs, Destroyed e) ->
  (fopen F (fst (construct F)) = Throw e /\ cs = snd (construct F))
  \/ (exists st1 opened done frames st',
         fopen F (fst (construct F)) = Ok (st1, opened)
         /\ runs F h st1 done frames st'
         /\ cs = (snd (construct F) ++ opened ++ List.concat frames)%list
         /\ ((done = rows /\ src_end = Some e)
             \/ (done = rows /\ src_end = None /\ flush F st' = Throw e)
             \/ (exists r later, rows = (done ++ r :: later)%list
                                 /\ transform F h st' r = Throw e
                                 /\ guarded F = true))).
Proof.
  unfold emit. destruct (construct F) as [st0 cs0]. cbn [fst snd].
  destruct (fopen F st0) as [[[st1 cs1]|e']|pushed]; [| |discriminate].
  - destruct (feed F h st1 rows src_end) as [cs' res] eqn:Hfeed.
    intros H. injection H as <- ->.
    destruct (feed_destroyed F h rows st1 src_end cs' e Hfeed)
      as [done [frames [st' [Hruns [-> Hwhy]]]]].
    right. exists st1, cs1, done, frames, st'. now repeat split.
  - intros H. injection H as <- <-. now left.
Qed.

Lemma emit_uncaught (F : Formatter) (h : heap) (rows : list row)
    (src_end : option error) (cs : list string) (e : error) :
  emit F h rows src_end = (cs, Uncaught e) ->
  exists st1 opened done frames st' r later,
    fopen F (fst (construct F)) = Ok (st1, opened)
    /\ runs F h st1 done frames st'
    /\ cs = (snd (construct F) ++ opened ++ List.concat frames)%list
    /\ rows = (done ++ r :: later)%list
    /\ transform F h st' r = Throw e
    /\ guarded F = false.
Proof.
  unfold emit. destruct (construct F) as [st0 cs0]. cbn [fst snd].
  destruct (fopen F st0) as [[[st1 cs1]|e']|pushed]; try discriminate.
  destruct (feed F h st1 rows src_end) as [cs' res] eqn:Hfeed.
  intros H. injection H as <- ->.
  destruct (feed_uncaught F h rows st1 src_end cs' e Hfeed)
    as [done [frames [st' [r [later [Hruns [-> [-> [Hthrow Hg]]]]]]]]].
  exists st1, cs1, done, frames, st', r, later. now repeat split.
Qed.

(** A run stalls in the opening, in a row step or in the flush. *)
Lemma emit_stalled (F : Formatter) (h : heap) (rows : list row)
    (src_end : option error) (cs : list string) :
  emit F h rows src_end = (cs, Stalled) ->
  (exists pushed,
      fopen F (fst (construct F)) = Silent pushed
      /\ cs = (snd (construct F) ++ pushed)%list)
  \/ (exists st1 opened done frames st' pushed,
         fopen F (fst (construct F)) = Ok (st1, opened)
         /\ runs F h st1 done frames st'
         /\ cs = (snd (construct F) ++ opened ++ List.concat frames ++ pushed)%list
         /\ ((done = rows /\ src_end = None /\ flush F st' = Silent pushed)
             \/ (exists r later, rows = (done ++ r :: later)%list
                                 /\ transform F h st' r = Silent pushed))).
Proof.
  unfold emit. destruct (construct F) as [st0 cs0]. cbn [fst snd].
  destruct (fopen F st0) as [[[st1 cs1]|e']|pushed]; [|discriminate|].
  - destruct (feed F h st1 rows src_end) as [cs' res] eqn:Hfeed.
    intros H. injection H as <- ->.
    destruct (feed_stalled F h rows st1 src_end cs' Hfeed)
      as [done [frames [st' [pushed [Hruns [-> Hwhy]]]]]].
    right. exists st1, cs1, done, frames, st', pushed. now repeat split.
  - intros H. injection H as <-. left. now exists pushed.
Qed.

Lemma emit_stalled_step (F : Formatter) (h : heap) (rows : list row)
    (src_end : option error) (cs : list string) :
  emit F h rows src_end = (cs, Stalled) ->
  exists pushed,
    fopen F (fst (construct F)) = Silent pushed
    \/ (exists st, flush F st = Silent pushed)
    \/ (exists st r, transform F h st r = Silent pushed).
Proof.
  intros Hemit.
  destruct (emit_stalled F h rows src_end cs Hemit) as [[pushed [Ho _]] | Hrun].
  - exists pushed. now left.
  - destruct Hrun as [st1 [opened [done [frames [st' [pushed [_ [_ [_ Hwhy]]]]]]]]].
    exists pushed. destruct Hwhy as [[_ [_ Hf]] | [r [later [_ Ht]]]].
    + right; left. now exists st'.
    + right; right. now exists st', r.
Qed.

Lemma emit_finished_end (F : Formatter) (h : heap) (rows : list row)
    (src_end : option error) (cs : list string) :
  emit F h rows src_end = (cs, Finished) -> src_end = None.
Proof.
  destruct src_end as [e|]; [|reflexivity]. intros Hemit. exfalso.
  unfold emit in Hemit. destruct (construct F) as [st0 cs0].
  destruct (fopen F st0) as [[[st1 cs1]|e']|pushed]; try discriminate.
  destruct (feed F h st1 rows (Some e)) as [cs' res'] eqn:Hfeed.
  injection Hemit as _ ->. revert st1 cs' Hfeed. clear.
  induction rows as [|r rows IH]; intros st1 cs' Hfeed; simpl in Hfeed;
    [discriminate|].
  destruct (transform F h st1 r) as [[[st2 cs2]|e2]|pushed];
    [|destruct (guarded F); discriminate|discriminate].
  destruct (feed F h st2 rows (Some e)) as [cs3 res3] eqn:Hrest.
  injection Hfeed as _ ->. exact (IH st2 cs3 Hrest).
Qed.

Lemma feed_source_failed (F : Formatter) (h : heap) (e : error) :
  forall st rows frames st',
    runs F h st rows frames st' ->
    feed F h st rows (Some e) = (List.concat frames, Destroyed e).
Proof.
  induction 1 as [st | st r st2 cs rows frames st' Ht _ IH].
  - reflexivity.
  - simpl. now rewrite Ht, IH.
Qed.

Lemma null_write_all (heapUsedMB : nat -> nat) :
  forall cs k,
    exists k',
      write_all (nullStream heapUsedMB) k cs = (k', cs, Ok tt)
      /\ chunkCount k' = chunkCount k + List.length cs.
Proof.
  induction cs as [|c cs IH]; intros k.
  - exists k. split; [reflexivity | simpl; lia].
  - cbn [write_all swrite nullStream]. unfold null_write at 1.
    match goal with
    | |- context [write_all _ ?k1 cs] => destruct (IH k1) as [k' [Hw Hc]]
    end.
    exists k'. rewrite Hw. split; [reflexivity|]. rewrite Hc. simpl. lia.
Qed.

Lemma pipeline_cases (T : schedule) (F : Formatter) (K : Sink) (h : heap)
    (rows : list row) (src_end : option error) (k0 k : sstate K)
    (received : list string) (en : ending) :
  pipeline T F K h rows src_end k0 = (k, received, en) ->
  exists cs res,
    emit F h rows src_end = (cs, res)
    /\ ((received = reach T cs res /\ en = end_of_run T src_end res)
        \/ (exists e c rest,
               en = Destroyed e /\ swrite K k c = Throw e
               /\ reach T cs res = (received ++ c :: rest)%list)).
Proof.
  unfold pipeline. destruct (emit F h rows src_end) as [cs res].
  destruct (write_all K k0 (reach T cs res)) as [[k1 received1] wres] eqn:Hw.
  intros H. injection H as <- <- <-. exists cs, res. split; [reflexivity|].
  destruct (write_all_cases K _ k0 k1 received1 wres Hw)
    as [[-> ->] | [e [c [rest [-> [Hsplit Hrefuse]]]]]].
  - left. split; reflexivity.
  - right. now exists e, c, rest.
Qed.

Lemma pipeline_null (heapUsedMB : nat -> nat) (T : schedule) (F : Formatter)
    (h : heap) (rows : list row) (src_end : option error) (k0 : null_state) :
  exists k,
    pipeline T F (nullStream heapUsedMB) h rows src_end k0
    = (k, reach T (fst (emit F h rows src_end)) (snd (emit F h rows src_end)),
       end_of_run T src_end (snd (emit F h rows src_end)))
    /\ chunkCount k
       = chunkCount k0
         + List.length (reach T (fst (emit F h rows src_end))
                          (snd (emit F h rows src_end))).
Proof.
  unfold pipeline. destruct (emit F h rows src_end) as [cs res]. cbn [fst snd].
  destruct (null_write_all heapUsedMB (reach T cs res) k0) as [k [Hw Hc]].
  exists k. rewrite Hw. split; [reflexivity | exact Hc].
Qed.

(** C7 -- the code at the failing inputs.  The delimited-text and the
    markup encoder call the normalizer outside any [try]: for a row with an
    invalid timestamp the exception leaves [_transform], and when the row
    step was called from the write of the source nothing catches it:
    [pipeline] does not settle, and neither the handler nor
    [client.release()] of [measureExport] runs.  On the same rows the
    columnar-binary encoder, whose row step catches, makes the pipeline
    reject: the error is logged and the client is released once.  A
    columnar-binary export whose writer waits for the callback of its last
    write does not settle either: its client is not released on the success
    path. *)
Theorem measureExport_unreported_failure_keeps_client :
  csv_transform demo_columns demo_heap tt [("id", VDate None)]
  = Throw RangeError_InvalidTimeValue
  /\ guarded (CSVStreamFormatter demo_columns) = false
  /\ measureExport nat sample_open sample_append sample_close (fun _ => 0)
       (sink_keeps_up 2)
       (Ok tt) "csv" [demo_row; [("id", VDate None)]; demo_row] None
       demo_heap demo_columns
       {| released := 0; console_errors := [] |}
     = ({| released := 0; console_errors := [] |},
        Crashed RangeError_InvalidTimeValue)
  /\ measureExport nat sample_open sample_append sample_close (fun _ => 0)
       (sink_keeps_up 2)
       (Ok tt) "xml" [demo_row; [("id", VDate None)]; demo_row] None
       demo_heap demo_columns
       {| released := 0; console_errors := [] |}
     = ({| released := 0; console_errors := [] |},
        Crashed RangeError_InvalidTimeValue)
  /\ measureExport nat sample_open sample_append sample_close (fun _ => 0)
       (sink_keeps_up 1)
       (Ok tt) "parquet" [demo_row; [("id", VDate None)]; demo_row] None
       demo_heap demo_columns
       {| released := 0; console_errors := [] |}
     = ({| released := 1; console_errors := [RangeError_InvalidTimeValue] |},
        Rejected RangeError_InvalidTimeValue)
  /\ measureExport nat sample_open sample_append sample_close (fun _ => 0)
       (sink_keeps_up 2)
       (Ok tt) "parquet" [demo_row] None demo_heap demo_columns
       {| released := 0; console_errors := [] |}
     = ({| released := 0; console_errors := [] |}, Pending).
Proof. repeat split. Qed.

(** The same rows with a slow sink: the failing row step is called from a
    read of the formatter's output, Node destroys the stream with what it
    threw, and the run is reported and released like any other failure. *)
Example measureExport_slow_sink :
  measureExport nat sample_open sample_append sample_close (fun _ => 0)
    (sink_is_slow 1)
    (Ok tt) "csv" [demo_row; [("id", VDate None)]; demo_row] None
    demo_heap demo_columns
    {| released := 0; console_errors := [] |}
  = ({| released := 1; console_errors := [RangeError_InvalidTimeValue] |},
     Rejected RangeError_InvalidTimeValue).
Proof. reflexivity. Qed.

(** X22 -- an error that a stage reports to the pipeline ends the run at
    once: when the pipeline rejects, the sink refused a chunk, or the opening,
    the source, the flush or a row step failed, the row step being guarded
    or called from a read, or the source failed while a step was waiting.
    What the sink received is always the beginning of what the formatter
    pushed.  The pipeline resolves only when the source ended cleanly and
    every chunk was written.  An exception that leaves an unguarded
    [_transform] called from the source's write ends the run at that row,
    and a step that never calls back ends it there: in both cases the
    pipeline does not settle.  [measureExport] releases the client exactly
    once when the pipeline resolves and when it rejects, logs and rethrows
    the pipeline's error, releases nothing when the pipeline does not
    settle, and acquires nothing when the connection fails.  When the source
    fails after delivering rows, the sink of [measureExport] receives
    frames of the delivered rows and nothing more. *)
Theorem pipeline_endings :
  forall (writer : Type)
         (openStream : schema -> reply (writer * list string))
         (appendRow : writer -> props string -> reply (writer * list string))
         (close : writer -> reply (list string))
         (heapUsedMB : nat -> nat),
    (forall T (F : Formatter) (K : Sink) h rows src_end k0 k received e,
        pipeline T F K h rows src_end k0 = (k, received, Destroyed e) ->
        (exists c, swrite K k c = Throw e)
        \/ fopen F (fst (construct F)) = Throw e
        \/ (exists st1 opened done frames st',
               fopen F (fst (construct F)) = Ok (st1, opened)
               /\ runs F h st1 done frames st'
               /\ ((done = rows /\ src_end = Some e)
                   \/ (done = rows /\ src_end = None /\ flush F st' = Throw e)
                   \/ (exists r later, rows = (done ++ r :: later)%list
                                       /\ transform F h st' r = Throw e
                                       /\ (guarded F = true \/ in_read T = true))))
        \/ (src_end = Some e /\ source_drained T = true
            /\ snd (emit F h rows src_end) = Stalled))
    /\ (forall T (F : Formatter) (K : Sink) h rows src_end k0 k received en,
           pipeline T F K h rows src_end k0 = (k, received, en) ->
           exists rest, fst (emit F h rows src_end) = (received ++ rest)%list)
    /\ (forall T (F : Formatter) (K : Sink) h rows src_end k0 k received,
           pipeline T F K h rows src_end k0 = (k, received, Finished) ->
           src_end = None /\ emit F h rows None = (received, Finished))
    /\ (forall T (F : Formatter) (K : Sink) h rows src_end k0 k received e,
           pipeline T F K h rows src_end k0 = (k, received, Uncaught e) ->
           in_read T = false
           /\ exists st1 opened done frames st' r later,
               fopen F (fst (construct F)) = Ok (st1, opened)
               /\ runs F h st1 done frames st'
               /\ rows = (done ++ r :: later)%list
               /\ transform F h st' r = Throw e
               /\ guarded F = false)
    /\ (forall T (F : Formatter) (K : Sink) h rows src_end k0 k received,
           pipeline T F K h rows src_end k0 = (k, received, Stalled) ->
           snd (emit F h rows src_end) = Stalled
           /\ (src_end = None \/ source_drained T = false))
    /\ (forall columns,
           guarded (JSONStreamFormatter columns) = true
           /\ guarded (ParquetStreamFormatter writer openStream appendRow close
                         columns) = true
           /\ guarded (CSVStreamFormatter columns) = false
           /\ guarded (XMLStreamFormatter columns) = false)
    /\ (forall T format columns F h rows src_end w,
           getFormatter writer openStream appendRow close columns format = Ok F ->
           let '(sink, _, res) :=
             pipeline T F (nullStream heapUsedMB) h rows src_end
               {| bytesWritten := 0; chunkCount := 0; peakMem := 0 |} in
           let (w', outcome) :=
             measureExport writer openStream appendRow close heapUsedMB T
               (Ok tt) format rows src_end h columns w in
           match res with
           | Finished =>
               released w' = S (released w)
               /\ outcome = Resolved {| rformat := format;
                                        fileSizeBytes := bytesWritten sink;
                                        peakMemoryMB := peakMem sink |}
               /\ console_errors w' = console_errors w
           | Destroyed e =>
               released w' = S (released w)
               /\ outcome = Rejected e
               /\ console_errors w' = (console_errors w ++ [e])%list
           | Uncaught e =>
               w' = w /\ outcome = Crashed e
           | Stalled =>
               w' = w /\ outcome = Pending
           end)
    /\ (forall T e format columns h rows src_end w,
           measureExport writer openStream appendRow close heapUsedMB T
             (Throw e) format rows src_end h columns w
           = (w, Rejected e))
    /\ (forall T (F : Formatter) h rows e st1 opened frames st' k0,
           fopen F (fst (construct F)) = Ok (st1, opened) ->
           runs F h st1 rows frames st' ->
           exists k,
             pipeline T F (nullStream heapUsedMB) h rows (Some e) k0
             = (k,
                firstn (delivered T)
                  (snd (construct F) ++ opened ++ List.concat frames)%list,
                Destroyed e)
             /\ chunkCount k
                = chunkCount k0
                  + List.length
                      (firstn (delivered T)
                         (snd (construct F) ++ opened ++ List.concat frames)%list)).
Proof.
  intros writer openStream appendRow close heapUsedMB.
  split; [|split; [|split; [|split; [|split; [|split; [|split; [|split]]]]]]].
  - intros T F K h rows src_end k0 k received e H.
    destruct (pipeline_cases T F K h rows src_end k0 k received _ H)
      as [cs [res [Hemit [[_ Hen] | [e' [c [rest [He [Hrefuse _]]]]]]]]].
    + destruct res as [|e'|e'|]; cbn [end_of_run] in Hen.
      * discriminate.
      * injection Hen as ->.
        destruct (emit_destroyed F h rows src_end cs e' Hemit)
          as [[Ho _] | [st1 [opened [done [frames [st' [Ho [Hr [_ Hwhy]]]]]]]]].
        -- right; left. exact Ho.
        -- right; right; left. exists st1, opened, done, frames, st'.
           split; [exact Ho|]. split; [exact Hr|].
           destruct Hwhy as [Hs | [Hf | [r [later [Hrows [Ht Hg]]]]]].
           ++ now left.
           ++ right; now left.
           ++ right; right. exists r, later. repeat split; try assumption.
              now left.
      * destruct (in_read T) eqn:Hin; [|discriminate]. injection Hen as ->.
        destruct (emit_uncaught F h rows src_end cs e' Hemit)
          as [st1 [opened [done [frames [st' [r [later
               [Ho [Hr [_ [Hrows [Ht Hg]]]]]]]]]]]].
        right; right; left. exists st1, opened, done, frames, st'.
        split; [exact Ho|]. split; [exact Hr|].
        right; right. exists r, later. repeat split; try assumption. now right.
      * destruct src_end as [e'|]; [|discriminate].
        destruct (source_drained T) eqn:Hd; [|discriminate]. injection Hen as ->.
        right; right; right. rewrite Hemit. now repeat split.
    + injection He as ->. left. now exists c.
  - intros T F K h rows src_end k0 k received en H.
    destruct (pipeline_cases T F K h rows src_end k0 k received _ H)
      as [cs [res [Hemit [[Hrec _] | [e' [c [rest [_ [_ Hsplit]]]]]]]]];
      rewrite Hemit; cbn [fst].
    + subst received. destruct res; cbn [reach];
        try (exists (skipn (delivered T) cs); now rewrite firstn_skipn).
      exists []. now rewrite List.app_nil_r.
    + destruct res; cbn [reach] in Hsplit;
        try (exists ((c :: rest) ++ skipn (delivered T) cs)%list;
             rewrite app_assoc, <- Hsplit; now rewrite firstn_skipn).
      exists (c :: rest). exact Hsplit.
  - intros T F K h rows src_end k0 k received H.
    destruct (pipeline_cases T F K h rows src_end k0 k received _ H)
      as [cs [res [Hemit [[Hrec Hen] | [e' [c [rest [He _]]]]]]]];
      [|discriminate].
    assert (res = Finished) as ->.
    { destruct res as [|e|e|]; cbn [end_of_run] in Hen; try discriminate.
      - reflexivity.
      - destruct (in_read T); discriminate.
      - destruct src_end; [destruct (source_drained T)|]; discriminate. }
    cbn [reach] in Hrec. subst received.
    pose proof (emit_finished_end F h rows src_end cs Hemit) as ->. now split.
  - intros T F K h rows src_end k0 k received e H.
    destruct (pipeline_cases T F K h rows src_end k0 k received _ H)
      as [cs [res [Hemit [[_ Hen] | [e' [c [rest [He _]]]]]]]];
      [|discriminate].
    destruct res as [|e'|e'|]; cbn [end_of_run] in Hen; try discriminate.
    + destruct (in_read T) eqn:Hin; [discriminate|]. injection Hen as <-.
      split; [reflexivity|].
      destruct (emit_uncaught F h rows src_end cs e Hemit)
        as [st1 [opened [done [frames [st' [r [later
             [Ho [Hr [_ [Hrows [Ht Hg]]]]]]]]]]]].
      exists st1, opened, done, frames, st', r, later. now repeat split.
    + destruct src_end; [destruct (source_drained T)|]; discriminate.
  - intros T F K h rows src_end k0 k received H.
    destruct (pipeline_cases T F K h rows src_end k0 k received _ H)
      as [cs [res [Hemit [[_ Hen] | [e' [c [rest [He _]]]]]]]];
      [|discriminate].
    rewrite Hemit. cbn [snd].
    destruct res as [|e'|e'|]; cbn [end_of_run] in Hen; try discriminate.
    + destruct (in_read T); discriminate.
    + split; [reflexivity|].
      destruct src_end as [e'|]; [|now left].
      destruct (source_drained T); [discriminate | now right].
  - intros columns. now repeat split.
  - intros T format columns F h rows src_end w HF.
    unfold measureExport, bindM, lift, await, try_catch_finally. rewrite HF.
    destruct (pipeline T F (nullStream heapUsedMB) h rows src_end
                {| bytesWritten := 0; chunkCount := 0; peakMem := 0 |})
      as [[sink received] res].
    destruct res as [|e|e|]; cbn; now repeat split.
  - reflexivity.
  - intros T F h rows e st1 opened frames st' k0 Hopen Hruns.
    destruct (pipeline_null heapUsedMB T F h rows (Some e) k0) as [k [Hp Hc]].
    assert (Hemit : emit F h rows (Some e)
                    = ((snd (construct F) ++ opened ++ List.concat frames)%list,
                       Destroyed e)).
    { unfold emit. destruct (construct F) as [st0 cs0]. cbn [fst snd] in *.
      now rewrite Hopen, (feed_source_failed F h e st1 rows frames st' Hruns). }
    rewrite Hemit in Hp, Hc. cbn [fst snd reach end_of_run] in Hp, Hc.
    exists k. now split.
Qed.

Example measureExport_source_failure :
  measureExport nat sample_open sample_append sample_close (fun _ => 0)
    (sink_keeps_up 3)
    (Ok tt) "csv" [demo_row; demo_row] (Some (ExternalError "connection lost"))
    demo_heap demo_columns
    {| released := 0; console_errors := [] |}
  = ({| released := 1; console_errors := [ExternalError "connection lost"] |},
     Rejected (ExternalError "connection lost")).
Proof. reflexivity. Qed.

Example measureExport_encoder_failure :
  measureExport nat sample_open sample_append sample_close (fun _ => 0)
    (sink_keeps_up 2)
    (Ok tt) "json"
    [ [("id", VNumber (of_Z 1))]; [("metadata", VRef 0)]; [("id", VNumber (of_Z 3))] ]
    None [HObject [("self", VRef 0)]] demo_columns
    {| released := 0; console_errors := [] |}
  = ({| released := 1; console_errors := [TypeError_CircularStructure] |},
     Rejected TypeError_CircularStructure).
Proof. reflexivity. Qed.

Example measureExport_success :
  measureExport nat sample_open sample_append sample_close (fun _ => 0)
    (sink_keeps_up 3)
    (Ok tt) "json" [[("id", VNumber (of_Z 1))]] None [] demo_columns
    {| released := 0; console_errors := [] |}
  = ({| released := 1; console_errors := [] |},
     Resolved {| rformat := "json"; fileSizeBytes := 10; peakMemoryMB := 0 |}).
Proof. reflexivity. Qed.

(** With no row the writer of the examples refuses to close: the run
    rejects and the client is released. *)
Example measureExport_parquet_without_rows :
  measureExport nat sample_open sample_append sample_close (fun _ => 0)
    (sink_keeps_up 1)
    (Ok tt) "parquet" [] None [] demo_columns
    {| released := 0; console_errors := [] |}
  = ({| released := 1; console_errors := [ExternalError "no rows"] |},
     Rejected (ExternalError "no rows")).
Proof. reflexivity. Qed.

(** * Further properties of the formatters *)

(** ** Reading the delimited text back *)

Lemma read_quoted_field_quote (val rest : string) :
  starts_with dquote rest = false ->
  read_quoted_field (csv_quote val ++ rest) = Some (val, rest).
Proof.
  intros Hrest. rewrite csv_quote_spec.
  rewrite !append_assoc. cbn [dq append read_quoted_field].
  rewrite Ascii.eqb_refl. now apply read_quoted_body_double.
Qed.

Lemma read_more_fields_tail (vals : list string) (rest : string) :
  forall fuel,
    List.length vals < fuel ->
    read_more_fields fuel (tail_text (map csv_quote vals) ++ nl ++ rest)
    = Some (vals, rest).
Proof.
  induction vals as [|v vals IH]; intros fuel Hfuel.
  - destruct fuel as [|f]; [simpl in Hfuel; lia|]. reflexivity.
  - destruct fuel as [|f]; [simpl in Hfuel; lia|].
    cbn [map tail_text]. rewrite !append_assoc.
    cbn [append read_more_fields].
    change (Ascii.eqb "," newline) with false. cbn iota.
    rewrite Ascii.eqb_refl.
    rewrite read_quoted_field_quote.
    + rewrite IH by (simpl in Hfuel; lia). reflexivity.
    + destruct vals; reflexivity.
Qed.

Lemma tail_text_length (l : list string) :
  List.length l <= String.length (tail_text l).
Proof.
  induction l as [|y l IH]; [reflexivity|].
  cbn [tail_text]. rewrite !length_append. simpl. lia.
Qed.

Lemma read_record_quoted (body : string) :
  read_record (String dquote body)
  = match read_quoted_field (String dquote body) with
    | Some (v, rest) =>
        match read_more_fields (S (String.length rest)) rest with
        | Some (vs, rest') => Some (v :: vs, rest')
        | None => None
        end
    | None => None
    end.
Proof. reflexivity. Qed.

(** A row line is read back as the list of the normalized values. *)
Lemma read_record_line (vals : list string) (rest : string) :
  read_record (String.concat "," (map csv_quote vals) ++ nl ++ rest)
  = Some (vals, rest).
Proof.
  destruct vals as [|v vals]; [reflexivity|].
  cbn [map]. rewrite concat_comma_cons, append_assoc.
  assert (Hq : exists body,
             csv_quote v ++ tail_text (map csv_quote vals) ++ nl ++ rest
             = String dquote body).
  { rewrite csv_quote_spec. now eexists. }
  destruct Hq as [body Hq]. rewrite Hq, read_record_quoted, <- Hq.
  rewrite read_quoted_field_quote by (destruct vals; reflexivity).
  rewrite read_more_fields_tail; [reflexivity|].
  pose proof (tail_text_length (map csv_quote vals)) as Hlen.
  rewrite length_map in Hlen. rewrite !length_append. lia.
Qed.

Lemma csv_line_values (columns : list column) (h : heap) (chunk : row)
    (line : string) :
  csv_line columns h chunk = Ok line ->
  exists vals,
    mapM (fun col => prepareValue h (get_prop chunk (source col))) columns = Ok vals
    /\ line = String.concat "," (map csv_quote vals) ++ nl.
Proof.
  unfold csv_line. rewrite mapM_csv_field.
  destruct (mapM (fun col => prepareValue h (get_prop chunk (source col))) columns)
    as [vals|e]; [|discriminate].
  cbn [bind]. intros H. injection H as <-. now exists vals.
Qed.

Lemma read_records_lines (columns : list column) (h : heap) :
  forall rows lines,
    Forall2 (fun chunk line => csv_line columns h chunk = Ok line) rows lines ->
    forall fuel,
      List.length lines <= fuel ->
      exists records,
        read_records fuel (String.concat EmptyString lines) = Some records
        /\ Forall2
             (fun chunk vals =>
                mapM (fun col => prepareValue h (get_prop chunk (source col)))
                  columns = Ok vals)
             rows records.
Proof.
  induction 1 as [|chunk line rows lines Hline Hall IH]; intros fuel Hfuel.
  - exists []. split; [destruct fuel; reflexivity | constructor].
  - destruct fuel as [|f]; [simpl in Hfuel; lia|].
    destruct (IH f) as [records [Hread Hvals]]; [simpl in Hfuel; lia|].
    destruct (csv_line_values columns h chunk line Hline) as [vals [Hv ->]].
    exists (vals :: records). split; [|now constructor].
    rewrite concat_empty_cons, append_assoc.
    assert (Hne : exists c t,
               String.concat "," (map csv_quote vals) ++ nl
                 ++ String.concat EmptyString lines = String c t).
    { destruct (String.concat "," (map csv_quote vals));
        do 2 eexists; reflexivity. }
    destruct Hne as [c [t Hne]].
    cbn [read_records]. rewrite Hne at 1.
    now rewrite read_record_line, Hread.
Qed.

Lemma concat_empty_length (lines : list string) :
  (forall l, In l lines -> l <> EmptyString) ->
  List.length lines <= String.length (String.concat EmptyString lines).
Proof.
  induction lines as [|l lines IH]; intros Hne; [reflexivity|].
  rewrite concat_empty_cons, length_append.
  assert (l <> EmptyString) by (apply Hne; now left).
  assert (List.length lines <= String.length (String.concat EmptyString lines))
    by (apply IH; intros l' Hl'; apply Hne; now right).
  destruct l; [congruence|]. simpl. lia.
Qed.

(** X1 -- every finished delimited-text export is the header followed by a
    body that a reader of quoted records reads back as exactly one record
    per row, in row order, the fields of a record being the normalized
    values of the row's projected columns: commas, quotes and newlines
    inside a value come back unchanged. *)
Theorem csv_export_reads_back :
  forall (columns : list column) (h : heap) (rows : list row) (out : string),
    export (CSVStreamFormatter columns) h rows = Ok out ->
    exists body records,
      out = csv_header columns ++ body
      /\ read_csv_body body = Some records
      /\ List.length records = List.length rows
      /\ Forall2
           (fun chunk vals =>
              mapM (fun col => prepareValue h (get_prop chunk (source col)))
                columns = Ok vals)
           rows records.
Proof.
  intros columns h rows out Hexport. rewrite csv_export_lines in Hexport.
  destruct (mapM (csv_line columns h) rows) as [lines|e] eqn:Hlines;
    [|discriminate].
  cbn [bind] in Hexport. injection Hexport as <-.
  pose proof (mapM_Forall2 _ _ _ Hlines) as Hall.
  destruct (read_records_lines columns h rows lines Hall
              (String.length (String.concat EmptyString lines)))
    as [records [Hread Hvals]].
  - apply concat_empty_length. intros l Hl.
    destruct (Forall2_In_r _ _ _ _ Hall Hl) as [chunk [_ Hc]].
    destruct (csv_line_values columns h chunk l Hc) as [vals [_ ->]].
    destruct (String.concat "," (map csv_quote vals)); discriminate.
  - exists (String.concat EmptyString lines), records.
    split; [reflexivity|]. split; [exact Hread|]. split; [|exact Hvals].
    symmetry. exact (Forall2_length Hvals).
Qed.

Lemma csv_export_reads_back_witness :
  exists out,
    export (CSVStreamFormatter demo_columns) demo_heap
      [ demo_row; [("name", VString ("a," ++ nl ++ dq ++ "b"))] ]
    = Ok out
    /\ exists body records,
        out = csv_header demo_columns ++ body
        /\ read_csv_body body = Some records
        /\ List.length records = 2
        /\ Forall2
             (fun chunk vals =>
                mapM (fun col => prepareValue demo_heap (get_prop chunk (source col)))
                  demo_columns = Ok vals)
             [ demo_row; [("name", VString ("a," ++ nl ++ dq ++ "b"))] ] records.
Proof.
  eexists. split; [reflexivity|].
  exact (csv_export_reads_back demo_columns demo_heap
           [ demo_row; [("name", VString ("a," ++ nl ++ dq ++ "b"))] ] _ eq_refl).
Defined.

(** ** Reading the element text back *)

Lemma xml_unescape_entity (c : ascii) (s : string) :
  xml_unescape_from 0 (xml_entity c ++ s) = String c (xml_unescape_from 0 s).
Proof. destruct c as [[] [] [] [] [] [] [] []]; reflexivity. Qed.

Lemma str_forall_entity (c : ascii) :
  str_forall (fun a => negb (xml_markup_char a)) (xml_entity c) = true.
Proof. destruct c as [[] [] [] [] [] [] [] []]; reflexivity. Qed.

(** X2 -- the escaped element text holds no less-than sign, greater-than
    sign, double quote or apostrophe, and a reader that replaces the five
    predefined entities by their characters gives back the value, so that
    different values are written as different texts. *)
Theorem xml_escape_reads_back :
  forall val : string,
    str_forall (fun a => negb (xml_markup_char a)) (xml_escape val) = true
    /\ xml_unescape (xml_escape val) = val
    /\ forall val', xml_escape val = xml_escape val' -> val = val'.
Proof.
  assert (Hback : forall val, xml_unescape (xml_escape val) = val).
  { unfold xml_unescape. induction val as [|c val IH]; [reflexivity|].
    now rewrite xml_escape_cons, xml_unescape_entity, IH. }
  intros val. split; [|split; [apply Hback|]].
  - induction val as [|c val IH]; [reflexivity|].
    now rewrite xml_escape_cons, str_forall_append, str_forall_entity, IH.
  - intros val' Heq. rewrite <- (Hback val), <- (Hback val'). now rewrite Heq.
Qed.

(** ** One row in the three string formats *)

Lemma xml_fold_values (h : heap) (chunk : row) :
  forall (columns : list column) (acc : string),
    foldM (xml_element h chunk) columns acc
    = (vals <- normalized columns h chunk ;;
       Ok (acc ++ String.concat EmptyString (map xml_child (combine columns vals)))).
Proof.
  unfold normalized.
  induction columns as [|col columns IH]; intros acc.
  - simpl. now rewrite append_nil_r.
  - cbn [foldM mapM]. unfold xml_element at 1.
    destruct (prepareValue h (get_prop chunk (source col))) as [val|e];
      cbn [bind]; [|reflexivity].
    rewrite IH.
    destruct (mapM (fun col => prepareValue h (get_prop chunk (source col))) columns)
      as [vals|e]; cbn [bind]; [|reflexivity].
    cbn [combine map]. rewrite concat_empty_cons. unfold xml_child at 2.
    cbn [fst snd]. now rewrite !append_assoc.
Qed.

Lemma parquet_fold_values (h : heap) (chunk : row) :
  forall (columns : list column) (row0 : props string),
    foldM
      (fun row col =>
         val <- prepareValue h (get_prop chunk (source col)) ;;
         Ok (set_prop row (target col) val))
      columns row0
    = (vals <- normalized columns h chunk ;;
       Ok (fold_left (fun row cv => set_prop row (target (fst cv)) (snd cv))
             (combine columns vals) row0)).
Proof.
  unfold normalized.
  induction columns as [|col columns IH]; intros row0; [reflexivity|].
  cbn [foldM mapM].
  destruct (prepareValue h (get_prop chunk (source col))) as [val|e];
    cbn [bind]; [|reflexivity].
  rewrite IH.
  destruct (mapM (fun col => prepareValue h (get_prop chunk (source col))) columns)
    as [vals|e]; reflexivity.
Qed.

(** X3 -- the delimited-text, the markup and the columnar-binary encoder
    accept exactly the same rows: the rows whose projected values all
    normalize.  For such a row each of them writes the same normalized
    values, column by column (quoted fields, escaped child elements, the
    members of the row handed to the writer); for any other row each of them
    fails with the same error, that of the first column whose value does
    not normalize, and writes nothing for the row. *)
Theorem string_encoders_agree :
  forall (writer : Type)
         (openStream : schema -> reply (writer * list string))
         (appendRow : writer -> props string -> reply (writer * list string))
         (close : writer -> reply (list string))
         (columns : list column) (h : heap) (chunk : row)
         (st : parquet_state writer),
    match normalized columns h chunk with
    | Ok vals =>
        List.length vals = List.length columns
        /\ transform (CSVStreamFormatter columns) h tt chunk
           = Ok (tt, [String.concat "," (map csv_quote vals) ++ nl])
        /\ transform (XMLStreamFormatter columns) h tt chunk
           = Ok (tt, ["  <record>" ++ nl
                        ++ String.concat EmptyString
                             (map xml_child (combine columns vals))
                        ++ "  </record>" ++ nl])
        /\ parquet_row columns h chunk
           = Ok (fold_left (fun row cv => set_prop row (target (fst cv)) (snd cv))
                   (combine columns vals) [])
    | Throw e =>
        transform (CSVStreamFormatter columns) h tt chunk = Throw e
        /\ transform (XMLStreamFormatter columns) h tt chunk = Throw e
        /\ transform
             (ParquetStreamFormatter writer openStream appendRow close columns)
             h st chunk = Throw e
    end.
Proof.
  intros writer openStream appendRow close columns h chunk st.
  cbn [transform CSVStreamFormatter XMLStreamFormatter ParquetStreamFormatter].
  unfold csv_transform, xml_transform, parquet_transform, parquet_row.
  rewrite mapM_csv_field, xml_fold_values, parquet_fold_values.
  fold (normalized columns h chunk).
  destruct (normalized columns h chunk) as [vals|e] eqn:Hvals; cbn [bind].
  - split; [now apply mapM_length in Hvals|]. split; [reflexivity|].
    split; [|reflexivity]. now rewrite !append_assoc.
  - now repeat split.
Qed.

Lemma json_output_fold_In (chunk : row) (k : string) (x : value) :
  forall (columns : list column) (o : object),
    In (k, x)
      (fold_left
         (fun output col =>
            set_prop output (target col) (get_prop chunk (source col)))
         columns o) ->
    In (k, x) o
    \/ exists col, In col columns /\ target col = k
                   /\ get_prop chunk (source col) = x.
Proof.
  induction columns as [|c columns IH]; intros o Hin; [now left|].
  simpl in Hin. destruct (IH _ Hin) as [Hset | [col [Hcol [Hk Hx]]]].
  - apply In_set_prop in Hset. destruct Hset as [Heq | Ho]; [|now left].
    injection Heq as -> ->. right. exists c. split; [now left | now split].
  - right. exists col. split; [now right | now split].
Qed.

Lemma mapM_fails {A B : Type} (f : A -> result B) (l : list A) (x : A) (e : error) :
  In x l -> f x = Throw e -> exists e', mapM f l = Throw e'.
Proof.
  induction l as [|y l IH]; intros Hin Hx; [destruct Hin|].
  simpl. destruct (f y) as [b|e0] eqn:Hy; cbn [bind]; [|now exists e0].
  destruct Hin as [-> | Hin]; [congruence|].
  destruct (IH Hin Hx) as [e' ->]. now exists e'.
Qed.

(** X4 -- the structured-document encoder rejects a row only for a circular
    structure, and every row it rejects is rejected by the three string
    encoders as well.  The converse does not hold: a row with an invalid
    timestamp is written by the structured-document encoder, with null in
    its place, and rejected by the others. *)
Theorem json_rejects_fewer_rows :
  forall (columns : list column) (h : heap) (st : json_state) (chunk : row)
         (e : error),
    transform (JSONStreamFormatter columns) h st chunk = Throw e ->
    e = TypeError_CircularStructure
    /\ (exists e', normalized columns h chunk = Throw e')
    /\ transform (JSONStreamFormatter [ {| source := "at"; target := "at" |} ]) []
         {| isFirst := true |} [("at", VDate None)]
       = Ok ({| isFirst := false |}, ["{" ++ dq ++ "at" ++ dq ++ ":null}"])
    /\ normalized [ {| source := "at"; target := "at" |} ] [] [("at", VDate None)]
       = Throw RangeError_InvalidTimeValue.
Proof.
  intros columns h st chunk e Ht.
  cbn [transform JSONStreamFormatter] in Ht. rewrite json_transform_doc in Ht.
  destruct (json_row_doc_decides columns h chunk) as [[Hj HC] | [j [Hj _]]];
    rewrite Hj in Ht; [|discriminate].
  cbn [bind] in Ht. injection Ht as <-.
  split; [reflexivity|]. split; [|split; reflexivity].
  destruct HC as [k [x [Hin Hcirc]]].
  destruct (json_output_fold_In chunk k x columns [] Hin)
    as [[] | [col [Hcol [_ Hx]]]].
  unfold normalized.
  apply (mapM_fails _ columns col TypeError_CircularStructure Hcol).
  rewrite Hx.
  destruct (JSON_stringify_decides h x) as [[_ Hs] | [Hn _]]; [|contradiction].
  assert (Href : exists a, x = VRef a) by (inversion Hcirc; now eexists).
  destruct Href as [a ->]. exact Hs.
Qed.

Lemma json_rejects_fewer_rows_witness :
  TypeError_CircularStructure = TypeError_CircularStructure
  /\ (exists e', normalized demo_columns [HObject [("self", VRef 0)]]
                   [("id", VDate None); ("metadata", VRef 0)] = Throw e')
  /\ transform (JSONStreamFormatter [ {| source := "at"; target := "at" |} ]) []
       {| isFirst := true |} [("at", VDate None)]
     = Ok ({| isFirst := false |}, ["{" ++ dq ++ "at" ++ dq ++ ":null}"])
  /\ normalized [ {| source := "at"; target := "at" |} ] [] [("at", VDate None)]
     = Throw RangeError_InvalidTimeValue.
Proof.
  exact (json_rejects_fewer_rows demo_columns [HObject [("self", VRef 0)]]
           {| isFirst := true |} [("id", VDate None); ("metadata", VRef 0)]
           TypeError_CircularStructure eq_refl).
Defined.

(** ** Members of the written object *)

Lemma insert_prop_last {A : Type} (o : props A) (k : string) (v : A) :
  array_index k = None -> insert_prop o k v = (o ++ [(k, v)])%list.
Proof.
  intros Hk. induction o as [|[k0 v0] o IH]; [reflexivity|].
  simpl. unfold goes_before. rewrite Hk. now rewrite IH.
Qed.

Lemma json_output_fold_order (chunk : row) :
  forall (columns : list column) (o : object),
    NoDup (map fst o ++ map target columns) ->
    (forall col, In col columns -> array_index (target col) = None) ->
    fold_left
      (fun output col => set_prop output (target col) (get_prop chunk (source col)))
      columns o
    = (o ++ map (fun col => (target col, get_prop chunk (source col))) columns)%list.
Proof.
  induction columns as [|col columns IH]; intros o Hnd Hidx.
  - simpl. now rewrite List.app_nil_r.
  - cbn [fold_left map].
    assert (Hfresh : has_key o (target col) = false).
    { destruct (has_key o (target col)) eqn:Hk; [|reflexivity].
      apply has_key_In in Hk. exfalso.
      apply NoDup_remove_2 in Hnd. apply Hnd. apply in_or_app. now left. }
    unfold set_prop at 2. rewrite Hfresh.
    rewrite insert_prop_last by (apply Hidx; now left).
    rewrite IH.
    + now rewrite <- app_assoc.
    + rewrite map_app, <- app_assoc. exact Hnd.
    + intros c Hc. apply Hidx. now right.
Qed.

Lemma ser_members_defined (ser : value -> result json) :
  forall (o : object) (ms : list (string * json)),
    ser_members ser o = Ok ms ->
    map fst ms = map fst (filter (fun p => negb (is_undefined (snd p))) o).
Proof.
  induction o as [|[k v] o IH]; intros ms H; simpl in H.
  - now injection H as <-.
  - destruct v; try (now apply IH);
      (destruct (ser _) as [j|e]; [|discriminate]; cbn [bind] in H;
       destruct (ser_members ser o) as [ms'|e]; [|discriminate]; cbn [bind] in H;
       injection H as <-; simpl; now rewrite (IH ms' eq_refl)).
Qed.

Lemma filter_map_swap {A B : Type} (f : A -> B) (p : B -> bool) (l : list A) :
  filter p (map f l) = map f (filter (fun x => p (f x)) l).
Proof.
  induction l as [|x l IH]; [reflexivity|]. simpl.
  destruct (p (f x)); simpl; now rewrite IH.
Qed.

(** X5 -- when the target names are unique, none of them is an array
    index (the canonical decimal of an integer below 2^32 - 1) or
    [__proto__], and no source name is the name of a member inherited from
    [Object.prototype], the members of the object written for a row are the
    target names of the columns whose value is not undefined, in column
    order. *)
Theorem json_members_follow_columns :
  forall (columns : list column) (h : heap) (st : json_state) (chunk : row)
         (st' : json_state) (cs : list string),
    NoDup (map target columns) ->
    (forall col, In col columns -> array_index (target col) = None) ->
    ~ In proto_key (map target columns) ->
    (forall col, In col columns -> inherited_name (source col) = false) ->
    transform (JSONStreamFormatter columns) h st chunk = Ok (st', cs) ->
    exists ms,
      cs = [(if isFirst st then EmptyString else ",") ++ json_print (JObj ms)]
      /\ map fst ms
         = map target
             (filter (fun col => negb (is_undefined (get_prop chunk (source col))))
                columns).
Proof.
  intros columns h st chunk st' cs Hnd Hidx _ _ Ht.
  cbn [transform JSONStreamFormatter] in Ht. rewrite json_transform_doc in Ht.
  destruct (json_row_doc columns h chunk) as [doc|e] eqn:Hdoc; [|discriminate].
  cbn [bind] in Ht. injection Ht as <- <-.
  destruct (json_row_doc_wf _ _ _ _ Hdoc) as [_ [ms [-> Hms]]].
  exists ms. split; [reflexivity|].
  rewrite (ser_members_defined _ _ _ Hms). unfold json_output.
  rewrite json_output_fold_order by assumption.
  cbn [app]. rewrite filter_map_swap, map_map. reflexivity.
Qed.

Lemma json_members_follow_columns_witness :
  exists ms,
    ["{" ++ dq ++ "id" ++ dq ++ ":7," ++ dq ++ "meta" ++ dq ++ ":null}"]
    = [EmptyString ++ json_print (JObj ms)]
    /\ map fst ms
       = map target
           (filter
              (fun col =>
                 negb (is_undefined
                         (get_prop [("metadata", VNull); ("id", VNumber (of_Z 7))]
                            (source col))))
              demo_columns).
Proof.
  refine (json_members_follow_columns demo_columns [] {| isFirst := true |}
            [("metadata", VNull); ("id", VNumber (of_Z 7))]
            {| isFirst := false |} _ _ _ _ _ eq_refl).
  - repeat constructor; simpl; intuition discriminate.
  - intros col Hcol.
    repeat (destruct Hcol as [<- | Hcol]; [reflexivity|]). destruct Hcol.
  - intros [H | [H | [H | [H | []]]]]; discriminate.
  - intros col Hcol.
    repeat (destruct Hcol as [<- | Hcol]; [reflexivity|]). destruct Hcol.
Defined.

(** A target that is an array index is written before the other members,
    whatever its column position. *)
Example json_index_target_comes_first :
  transform
    (JSONStreamFormatter [ {| source := "name"; target := "name" |};
                           {| source := "id"; target := "1" |} ]) []
    {| isFirst := true |} [("id", VNumber (of_Z 7)); ("name", VString "a")]
  = Ok ({| isFirst := false |},
        ["{" ++ dq ++ "1" ++ dq ++ ":7," ++ dq ++ "name" ++ dq ++ ":" ++ dq ++ "a"
           ++ dq ++ "}"]).
Proof. reflexivity. Qed.

(** ** Columns that share a target name *)

Lemma foldM_app {A B : Type} (f : A -> B -> result A) (l1 l2 : list B) (a : A) :
  foldM f (l1 ++ l2) a = (a' <- foldM f l1 a ;; foldM f l2 a').
Proof.
  revert a. induction l1 as [|x l1 IH]; intros a; [reflexivity|].
  simpl. destruct (f a x) as [a'|e]; cbn [bind]; [apply IH | reflexivity].
Qed.

Lemma parquet_row_fold_keys (h : heap) (chunk : row) :
  forall (columns : list column) (row0 row1 : props string),
    foldM
      (fun row col =>
         val <- prepareValue h (get_prop chunk (source col)) ;;
         Ok (set_prop row (target col) val))
      columns row0 = Ok row1 ->
    NoDup (map fst row0) -> NoDup (map fst row1).
Proof.
  induction columns as [|c columns IH]; intros row0 row1 H Hnd; simpl in H.
  - now injection H as <-.
  - destruct (prepareValue h (get_prop chunk (source c))) as [val|e];
      [|discriminate].
    cbn [bind] in H. apply (IH _ _ H). now apply NoDup_keys_set_prop.
Qed.

(** X6 -- when several columns share a target name (none being
    [__proto__]), the object of the structured-document encoder and the row
    handed to the columnar writer hold that name once, with the value of
    the last such column; the values of the earlier ones are not written.
    The schema declares the name once. *)
Theorem shared_target_last_column_wins :
  forall (columns before after : list column) (col : column) (h : heap)
         (chunk : row),
    columns = (before ++ col :: after)%list ->
    (forall c, In c after -> target c <> target col) ->
    ~ In proto_key (map target columns) ->
    get_prop (json_output columns chunk) (target col) = get_prop chunk (source col)
    /\ NoDup (map fst (json_output columns chunk))
    /\ NoDup (map fst (parquet_schema_defs columns))
    /\ (forall row,
           parquet_row columns h chunk = Ok row ->
           NoDup (map fst row)
           /\ exists s, prepareValue h (get_prop chunk (source col)) = Ok s
                        /\ find_prop row (target col) = Some s).
Proof.
  intros columns before after col h chunk -> Hlast _.
  split; [|split; [apply json_output_keys|split]].
  - unfold json_output. rewrite fold_left_app. cbn [fold_left].
    rewrite json_output_fold_untouched by assumption.
    rewrite get_set_prop. now rewrite String.eqb_refl.
  - unfold parquet_schema_defs.
    assert (H : forall (cols : list column) (defs : schema),
               NoDup (map fst defs) ->
               NoDup (map fst
                        (fold_left
                           (fun schemaDefs c =>
                              set_prop schemaDefs (target c)
                                {| ftype := "UTF8"; optional := true |})
                           cols defs))).
    { induction cols as [|c cols IH]; intros defs Hnd; [assumption|].
      simpl. apply IH. now apply NoDup_keys_set_prop. }
    apply H. constructor.
  - intros row Hrow. split.
    + apply (parquet_row_fold_keys h chunk _ [] row Hrow). constructor.
    + unfold parquet_row in Hrow. rewrite foldM_app in Hrow.
      match type of Hrow with
      | (a' <- ?m ;; _) = _ => destruct m as [row0|e]; [|discriminate]
      end.
      cbn [bind foldM] in Hrow.
      destruct (prepareValue h (get_prop chunk (source col))) as [s|e];
        [|discriminate].
      cbn [bind] in Hrow. exists s. split; [reflexivity|].
      rewrite (parquet_row_untouched h chunk (target col) after _ _ Hrow Hlast).
      now rewrite find_set_prop, String.eqb_refl.
Qed.

Lemma shared_target_last_column_wins_witness :
  get_prop
    (json_output
       [ {| source := "id"; target := "key" |};
         {| source := "name"; target := "key" |} ]
       [("id", VNumber (of_Z 7)); ("name", VString "a")]) "key"
  = VString "a"
  /\ NoDup (map fst
              (json_output
                 [ {| source := "id"; target := "key" |};
                   {| source := "name"; target := "key" |} ]
                 [("id", VNumber (of_Z 7)); ("name", VString "a")]))
  /\ NoDup (map fst
              (parquet_schema_defs
                 [ {| source := "id"; target := "key" |};
                   {| source := "name"; target := "key" |} ]))
  /\ (forall row,
         parquet_row
           [ {| source := "id"; target := "key" |};
             {| source := "name"; target := "key" |} ] []
           [("id", VNumber (of_Z 7)); ("name", VString "a")] = Ok row ->
         NoDup (map fst row)
         /\ exists s,
             prepareValue [] (get_prop [("id", VNumber (of_Z 7)); ("name", VString "a")]
                                "name") = Ok s
             /\ find_prop row "key" = Some s).
Proof.
  refine (shared_target_last_column_wins
            [ {| source := "id"; target := "key" |};
              {| source := "name"; target := "key" |} ]
            [ {| source := "id"; target := "key" |} ] []
            {| source := "name"; target := "key" |} []
            [("id", VNumber (of_Z 7)); ("name", VString "a")] eq_refl _ _).
  - intros c [].
  - intros [H | [H | []]]; discriminate.
Defined.

(** ** The state of the columnar-binary encoder *)

Lemma div_step (n : nat) :
  S n / 1000 = (if (S n mod 1000 =? 0)%nat then S (n / 1000) else n / 1000).
Proof.
  pose proof (Nat.div_mod_eq n 1000) as Hn.
  pose proof (Nat.mod_upper_bound n 1000 ltac:(lia)) as Hb.
  destruct (Nat.eqb_spec (S n mod 1000) 0) as [Hz | Hnz].
  - assert (Hq : S n = 1000 * (S (n / 1000)) + 0).
    { pose proof (Nat.div_mod_eq (S n) 1000) as Hs.
      pose proof (Nat.mod_upper_bound (S n) 1000 ltac:(lia)).
      assert (n mod 1000 = 999); [|lia].
      destruct (Nat.eq_dec (n mod 1000) 999) as [|Hne]; [assumption|].
      exfalso.
      assert (S n = 1000 * (n / 1000) + S (n mod 1000)) as Hs' by lia.
      rewrite Hs' in Hz at 1.
      rewrite Nat.add_comm, Nat.mul_comm, Nat.Div0.mod_add in Hz.
      rewrite Nat.mod_small in Hz by lia. discriminate. }
    rewrite Hq at 1. rewrite Nat.add_0_r, Nat.mul_comm.
    now rewrite Nat.div_mul by lia.
  - assert (Hlt : S (n mod 1000) < 1000).
    { destruct (Nat.eq_dec (n mod 1000) 999) as [He|]; [|lia]. exfalso.
      apply Hnz.
      assert (S n = 0 + (S (n / 1000)) * 1000) as Hs' by lia.
      rewrite Hs'. now rewrite Nat.Div0.mod_add. }
    assert (Hs' : S n = S (n mod 1000) + (n / 1000) * 1000) by lia.
    rewrite Hs' at 1. rewrite Nat.div_add by lia.
    now rewrite Nat.div_small by lia.
Qed.

(** X7 -- while rows are accepted, the columnar-binary encoder counts them,
    keeps the schema it was built with and the writer it opened, and has
    handed control back to the event loop once for every full thousand of
    rows.  A finished export opened the writer on the schema of the
    constructor before the first row, appended every row, yielded once per
    thousand rows, and closed the writer it ended with. *)
Theorem parquet_counts_rows_and_yields :
  forall (writer : Type)
         (openStream : schema -> reply (writer * list string))
         (appendRow : writer -> props string -> reply (writer * list string))
         (close : writer -> reply (list string))
         (columns : list column) (h : heap),
    (forall st rows frames st',
        runs (ParquetStreamFormatter writer openStream appendRow close columns)
          h st rows frames st' ->
        rowCount _ st' = rowCount _ st + List.length rows
        /\ pschema _ st' = pschema _ st
        /\ (yields _ st = rowCount _ st / 1000 ->
            yields _ st' = rowCount _ st' / 1000)
        /\ (forall w, pwriter _ st = Some w -> exists w', pwriter _ st' = Some w')
        /\ (rows <> [] -> exists w, pwriter _ st = Some w))
    /\ (forall rows chunks,
           emit (ParquetStreamFormatter writer openStream appendRow close columns)
             h rows None = (chunks, Finished) ->
           exists w0 opened frames st' w closing,
             openStream (parquet_schema_defs columns) = Ok (w0, opened)
             /\ runs (ParquetStreamFormatter writer openStream appendRow close columns)
                  h {| pschema := parquet_schema_defs columns; pwriter := Some w0;
                       rowCount := 0; yields := 0 |} rows frames st'
             /\ rowCount _ st' = List.length rows
             /\ yields _ st' = List.length rows / 1000
             /\ pschema _ st' = parquet_schema_defs columns
             /\ pwriter _ st' = Some w
             /\ close w = Ok closing
             /\ chunks = (opened ++ List.concat frames ++ closing)%list).
Proof.
  intros writer openStream appendRow close columns h.
  assert (Hruns : forall st rows frames st',
             runs (ParquetStreamFormatter writer openStream appendRow close columns)
               h st rows frames st' ->
             rowCount _ st' = rowCount _ st + List.length rows
             /\ pschema _ st' = pschema _ st
             /\ (yields _ st = rowCount _ st / 1000 ->
                 yields _ st' = rowCount _ st' / 1000)
             /\ (forall w, pwriter _ st = Some w -> exists w', pwriter _ st' = Some w')
             /\ (rows <> [] -> exists w, pwriter _ st = Some w)).
  { induction 1 as [st | st r st1 cs rows frames st' Ht Hr IH].
    - repeat split; [simpl; lia | auto | intros w Hw; now exists w | congruence].
    - cbn [transform ParquetStreamFormatter] in Ht.
      destruct (parquet_transform_accepts writer appendRow columns h st st1 r cs Ht)
        as [w [row [w' [Hw [_ [_ ->]]]]]].
      cbn [rowCount pschema yields pwriter] in IH.
      destruct IH as [Hcount [Hschema [Hyield [Hwriter _]]]].
      split; [rewrite Hcount; simpl; lia|]. split; [assumption|].
      split; [|split].
      + intros Hy. apply Hyield. rewrite div_step, Hy. reflexivity.
      + intros w1 _. apply (Hwriter w'). reflexivity.
      + intros _. now exists w. }
  split; [exact Hruns|].
  intros rows chunks Hemit.
  destruct (parquet_emit_finished writer openStream appendRow close columns h
              rows chunks Hemit)
    as [w0 [opened [frames [st' [closing [Hopen [Hr [Hflush ->]]]]]]]].
  destruct (Hruns _ _ _ _ Hr) as [Hcount [Hschema [Hyield [Hwriter _]]]].
  cbn [rowCount pschema yields pwriter] in Hcount, Hschema, Hyield, Hwriter.
  destruct (Hwriter w0 eq_refl) as [w Hw].
  cbn [flush ParquetStreamFormatter] in Hflush. unfold parquet_flush in Hflush.
  rewrite Hw in Hflush.
  exists w0, opened, frames, st', w, closing.
  simpl in Hcount. rewrite <- Hcount.
  repeat split; try assumption.
  apply Hyield. reflexivity.
Qed.

(** X8 -- in a finished columnar-binary export the writer was opened once,
    on the schema of the constructor; every row was normalized and appended
    exactly once, in source order, each to the writer that the previous
    append left; and the writer that the last append left was closed.  The
    output is what the opening, the appends in order and the closing
    wrote. *)
Theorem parquet_appends_rows_in_order :
  forall (writer : Type)
         (openStream : schema -> reply (writer * list string))
         (appendRow : writer -> props string -> reply (writer * list string))
         (close : writer -> reply (list string))
         (columns : list column) (h : heap) (rows : list row)
         (chunks : list string),
    emit (ParquetStreamFormatter writer openStream appendRow close columns)
      h rows None = (chunks, Finished) ->
    exists w0 opened prows w frames closing,
      openStream (parquet_schema_defs columns) = Ok (w0, opened)
      /\ mapM (parquet_row columns h) rows = Ok prows
      /\ append_rows writer appendRow w0 prows = Ok (w, frames)
      /\ close w = Ok closing
      /\ chunks = (opened ++ List.concat frames ++ closing)%list.
Proof.
  intros writer openStream appendRow close columns h rows chunks Hemit.
  destruct (parquet_emit_finished writer openStream appendRow close columns h
              rows chunks Hemit)
    as [w0 [opened [frames [st' [closing [Hopen [Hr [Hflush ->]]]]]]]].
  destruct (parquet_runs_append writer openStream appendRow close columns h
              _ rows frames st' Hr w0 eq_refl) as [prows [w [Hrows [Happs Hw]]]].
  cbn [flush ParquetStreamFormatter] in Hflush. unfold parquet_flush in Hflush.
  rewrite Hw in Hflush.
  exists w0, opened, prows, w, frames, closing. now repeat split.
Qed.

Lemma parquet_appends_rows_in_order_witness :
  exists w0 opened prows w frames closing,
    (fun _ : schema => Called (Ok (0, ["PAR1"]))) (parquet_schema_defs demo_columns)
    = Ok (w0, opened)
    /\ mapM (parquet_row demo_columns demo_heap) [demo_row; demo_row] = Ok prows
    /\ append_rows nat (fun n _ => Called (Ok (S n, ["row"]))) w0 prows
       = Ok (w, frames)
    /\ (fun n : nat =>
          Called (Ok [String.concat EmptyString (repeat "r" n); "PAR1"])) w
       = Ok closing
    /\ ["PAR1"; "row"; "row"; "rr"; "PAR1"]
       = (opened ++ List.concat frames ++ closing)%list.
Proof.
  exact (parquet_appends_rows_in_order nat (fun _ => Ok (0, ["PAR1"]))
           (fun n _ => Ok (S n, ["row"]))
           (fun n => Ok [String.concat EmptyString (repeat "r" n); "PAR1"])
           demo_columns demo_heap [demo_row; demo_row] _ eq_refl).
Defined.

(** ** The text of a nested structure *)

(** X9 -- the text that the normalizer produces for a nested structure
    (and that the string encoders then quote or escape) is a JSON text: a
    JSON reader reads it back as the document the structured-document
    encoder embeds for the same value. *)
Theorem nested_value_text_parses_back :
  forall (h : heap) (a : nat) (s : string),
    prepareValue h (VRef a) = Ok s ->
    exists j,
      to_json (enough_fuel h) h [] (VRef a) = Ok j
      /\ s = json_print j
      /\ JSON_parse s = Some j
      /\ forall rest,
          starts_with dquote rest = false ->
          read_quoted_field (csv_quote s ++ rest) = Some (json_print j, rest).
Proof.
  intros h a s H.
  change (prepareValue h (VRef a)) with (JSON_stringify h (VRef a)) in H.
  unfold JSON_stringify in H.
  destruct (to_json (enough_fuel h) h [] (VRef a)) as [j|e] eqn:Hj; [|discriminate].
  cbn [bind] in H. injection H as <-. exists j.
  split; [reflexivity|]. split; [reflexivity|]. split.
  - apply JSON_parse_print. exact (to_json_wf h _ _ _ _ Hj).
  - intros rest Hrest. now apply read_quoted_field_quote.
Qed.

Lemma nested_value_text_parses_back_witness :
  exists j,
    to_json (enough_fuel demo_heap) demo_heap [] (VRef 1) = Ok j
    /\ "[null,null,null,{" ++ dq ++ "tag" ++ dq ++ ":" ++ dq ++ "test" ++ dq ++ ","
         ++ dq ++ "index" ++ dq ++ ":0}]"
       = json_print j
    /\ JSON_parse
         ("[null,null,null,{" ++ dq ++ "tag" ++ dq ++ ":" ++ dq ++ "test" ++ dq ++ ","
            ++ dq ++ "index" ++ dq ++ ":0}]") = Some j
    /\ forall rest,
        starts_with dquote rest = false ->
        read_quoted_field
          (csv_quote
             ("[null,null,null,{" ++ dq ++ "tag" ++ dq ++ ":" ++ dq ++ "test" ++ dq
                ++ "," ++ dq ++ "index" ++ dq ++ ":0}]") ++ rest)
        = Some (json_print j, rest).
Proof.
  exact (nested_value_text_parses_back demo_heap 1 _ eq_refl).
Defined.

(** ** Values that are written verbatim *)

Lemma plain_text_append (s1 s2 : string) :
  plain_text (s1 ++ s2) = (plain_text s1 && plain_text s2)%bool.
Proof. apply str_forall_append. Qed.

Lemma digit_is_plain (c : ascii) :
  is_digit c = true -> negb (rewritten_char c) = true.
Proof. destruct c as [[] [] [] [] [] [] [] []]; intros H; try reflexivity; discriminate. Qed.

Lemma digits_plain (s : string) : str_forall is_digit s = true -> plain_text s = true.
Proof.
  induction s as [|c s IH]; [reflexivity|]. cbn [str_forall plain_text].
  intros H. apply andb_prop in H. destruct H as [Hc Hs].
  rewrite (digit_is_plain c Hc). exact (IH Hs).
Qed.

Lemma str_forall_take (p : ascii -> bool) (n : nat) (s : string) :
  str_forall p s = true -> str_forall p (str_take n s) = true.
Proof.
  revert s. induction n as [|n IH]; intros [|c s] H; try reflexivity.
  simpl in *. apply andb_prop in H. destruct H as [-> Hs]. now apply IH.
Qed.

Lemma str_forall_drop (p : ascii -> bool) (n : nat) (s : string) :
  str_forall p s = true -> str_forall p (str_drop n s) = true.
Proof.
  revert s. induction n as [|n IH]; intros [|c s] H; try reflexivity; try assumption.
  simpl in *. apply andb_prop in H. destruct H as [_ Hs]. now apply IH.
Qed.

Lemma str_forall_impl (p q : ascii -> bool) (s : string) :
  (forall c, p c = true -> q c = true) ->
  str_forall p s = true -> str_forall q s = true.
Proof.
  intros Hpq. induction s as [|c s IH]; [reflexivity|]. cbn [str_forall].
  intros H. apply andb_prop in H. destruct H as [Hc Hs].
  now rewrite (Hpq c Hc), (IH Hs).
Qed.

Lemma digit_is_number_char (c : ascii) : is_digit c = true -> number_char c = true.
Proof. intros H. unfold number_char. now rewrite H. Qed.

Lemma digits_number_chars (s : string) :
  str_forall is_digit s = true -> str_forall number_char s = true.
Proof. apply str_forall_impl, digit_is_number_char. Qed.

Lemma exponent_part_chars (n : Z) : str_forall number_char (exponent_part n) = true.
Proof.
  unfold exponent_part. rewrite !str_forall_append.
  rewrite (digits_number_chars _ (digits_of_digits _)).
  now destruct (n - 1 <? 0)%Z.
Qed.

Lemma positive_to_string_chars (ds : string) (n : Z) :
  str_forall is_digit ds = true ->
  str_forall number_char (positive_to_string ds n) = true.
Proof.
  intros Hds. unfold positive_to_string.
  pose proof (digits_number_chars ds Hds) as Hp.
  pose proof (digits_number_chars _ (str_forall_take _ (Z.to_nat n) ds Hds)) as Ht.
  pose proof (digits_number_chars _ (str_forall_drop _ (Z.to_nat n) ds Hds)) as Hd.
  pose proof (digits_number_chars _ (str_forall_take _ 1 ds Hds)) as Ht1.
  pose proof (digits_number_chars _ (str_forall_drop _ 1 ds Hds)) as Hd1.
  repeat match goal with
         | |- context [if ?b then _ else _] => destruct b
         end;
    rewrite ?str_forall_append, ?Hp, ?Ht, ?Hd, ?Ht1, ?Hd1, ?exponent_part_chars,
      ?(digits_number_chars _ (str_forall_repeat_zero _)); reflexivity.
Qed.

(** The text of a number holds digits, a point, a sign, the letter e, or
    spells NaN or Infinity. *)
Lemma Number_toString_chars (n : number) :
  str_forall number_char (Number_toString n) = true.
Proof.
  destruct n as [| [|] | neg m e]; try reflexivity.
  destruct m as [|p]; [reflexivity|]. unfold Number_toString.
  pose proof (strip_zeros_digits _ (digits_of_digits (N.pos p))) as Hds.
  destruct (strip_zeros (digits_of (N.pos p))) as [ds z]. cbn [fst] in Hds.
  rewrite str_forall_append, (positive_to_string_chars _ _ Hds).
  now destruct neg.
Qed.

Lemma iso_string_chars (t : Z) : str_forall date_char (iso_string t) = true.
Proof.
  unfold iso_string. destruct (civil_from_days (t / 86400000)) as [[y m] d].
  assert (Hpad : forall w n, str_forall date_char (pad_digits w n) = true).
  { intros w n. apply (str_forall_impl is_digit).
    - intros c Hc. unfold date_char. now rewrite Hc.
    - apply pad_digits_shape. }
  assert (Hyear : str_forall date_char (year_string y) = true).
  { unfold year_string.
    destruct ((0 <=? y) && (y <=? 9999))%Z; [apply Hpad|].
    rewrite str_forall_append, Hpad. now destruct (y <? 0)%Z. }
  rewrite !str_forall_append, Hyear, !Hpad. reflexivity.
Qed.

Lemma number_char_plain (c : ascii) :
  number_char c = true -> negb (rewritten_char c) = true.
Proof. destruct c as [[] [] [] [] [] [] [] []]; intros H; try reflexivity; discriminate. Qed.

Lemma date_char_plain (c : ascii) :
  date_char c = true -> negb (rewritten_char c) = true.
Proof. destruct c as [[] [] [] [] [] [] [] []]; intros H; try reflexivity; discriminate. Qed.

Lemma Number_toString_plain (n : number) : plain_text (Number_toString n) = true.
Proof.
  exact (str_forall_impl _ _ _ number_char_plain (Number_toString_chars n)).
Qed.

Lemma iso_string_plain (t : Z) : plain_text (iso_string t) = true.
Proof. exact (str_forall_impl _ _ _ date_char_plain (iso_string_chars t)). Qed.

Lemma plain_text_includes (s : string) (c : ascii) :
  plain_text s = true -> rewritten_char c = true -> includes c s = false.
Proof.
  intros Hs Hc. induction s as [|a s IH]; [reflexivity|].
  cbn [plain_text str_forall] in Hs. apply andb_prop in Hs. destruct Hs as [Ha Hs].
  simpl. destruct (Ascii.eqb_spec a c) as [-> | _]; [|now apply IH].
  rewrite Hc in Ha. discriminate.
Qed.

Lemma plain_text_verbatim (s : string) :
  plain_text s = true ->
  xml_escape s = s /\ csv_quote s = dq ++ s ++ dq.
Proof.
  intros Hs. split.
  - unfold xml_escape.
    rewrite (replace_all_absent "&" _ s (plain_text_includes s "&" Hs eq_refl)).
    rewrite (replace_all_absent "<" _ s (plain_text_includes s "<" Hs eq_refl)).
    rewrite (replace_all_absent ">" _ s (plain_text_includes s ">" Hs eq_refl)).
    rewrite (replace_all_absent dquote _ s (plain_text_includes s dquote Hs eq_refl)).
    exact (replace_all_absent "'" _ s (plain_text_includes s "'" Hs eq_refl)).
  - unfold csv_quote. now rewrite (plain_text_includes s dquote Hs eq_refl).
Qed.

(** X10 -- only strings and nested structures are ever rewritten by the
    quoting of the delimited-text encoder and the escaping of the markup
    encoder: the normalized text of null, undefined, a boolean, a number or
    a valid timestamp holds none of the rewritten characters, so it is
    written as it is, between the quotes or the tags. *)
Theorem scalars_are_written_verbatim :
  forall (h : heap) (v : value) (s : string),
    is_scalar v = true ->
    prepareValue h v = Ok s ->
    plain_text s = true
    /\ xml_escape s = s
    /\ csv_quote s = dq ++ s ++ dq.
Proof.
  intros h v s Hv Hs.
  assert (Hplain : plain_text s = true).
  { destruct v as [| | [|] | n | s0 | [t|] | a]; try discriminate;
      simpl in Hs; injection Hs as <-; try reflexivity.
    - apply Number_toString_plain.
    - apply iso_string_plain. }
  split; [assumption|]. now apply plain_text_verbatim.
Qed.

Lemma scalars_are_written_verbatim_witness :
  plain_text "1970-01-01T00:00:00.000Z" = true
  /\ xml_escape "1970-01-01T00:00:00.000Z" = "1970-01-01T00:00:00.000Z"
  /\ csv_quote "1970-01-01T00:00:00.000Z" = dq ++ "1970-01-01T00:00:00.000Z" ++ dq.
Proof.
  exact (scalars_are_written_verbatim [] (VDate (Some 0%Z)) _ eq_refl eq_refl).
Defined.

(** ** The structured document is one line *)

Lemma json_escape_char_printable (c : ascii) :
  str_forall printable_char (json_escape_char c) = true.
Proof. destruct c as [[] [] [] [] [] [] [] []]; reflexivity. Qed.

Lemma json_quote_printable (s : string) :
  str_forall printable_char (json_quote s) = true.
Proof.
  unfold json_quote. rewrite !str_forall_append.
  assert (H : str_forall printable_char (json_escape s) = true).
  { induction s as [|c s IH]; [reflexivity|]. cbn [json_escape].
    now rewrite str_forall_append, json_escape_char_printable, IH. }
  now rewrite H.
Qed.

Lemma str_forall_concat (p : ascii -> bool) (sep : string) (l : list string) :
  str_forall p sep = true ->
  (forall x, In x l -> str_forall p x = true) ->
  str_forall p (String.concat sep l) = true.
Proof.
  intros Hsep. induction l as [|x l IH]; intros Hall; [reflexivity|].
  destruct l as [|y l]; [apply Hall; now left|].
  change (String.concat sep (x :: y :: l))
    with (x ++ sep ++ String.concat sep (y :: l)).
  rewrite !str_forall_append, Hsep, IH, (Hall x (or_introl eq_refl)).
  - reflexivity.
  - intros z Hz. apply Hall. now right.
Qed.

Lemma number_char_printable (c : ascii) :
  number_char c = true -> printable_char c = true.
Proof. destruct c as [[] [] [] [] [] [] [] []]; intros H; try reflexivity; discriminate. Qed.

Lemma json_print_printable :
  forall j,
    json_numbers (str_forall number_char) j = true ->
    str_forall printable_char (json_print j) = true.
Proof.
  apply (json_nested_ind
           (fun j => json_numbers (str_forall number_char) j = true ->
                     str_forall printable_char (json_print j) = true)).
  - reflexivity.
  - intros [|] _; reflexivity.
  - intros l Hl. exact (str_forall_impl _ _ _ number_char_printable Hl).
  - intros s _. apply json_quote_printable.
  - intros es IH Hes. cbn [json_print json_numbers] in *.
    rewrite !str_forall_append. rewrite str_forall_concat; [reflexivity..|].
    intros x Hx. apply in_map_iff in Hx. destruct Hx as [e [<- He]].
    rewrite Forall_forall in IH. apply IH; [assumption|].
    rewrite forallb_forall in Hes. now apply Hes.
  - intros ms IH Hms. cbn [json_print json_numbers] in *.
    rewrite !str_forall_append. rewrite str_forall_concat; [reflexivity..|].
    intros x Hx. apply in_map_iff in Hx. destruct Hx as [m [<- Hm]].
    rewrite !str_forall_append, json_quote_printable. cbn [str_forall andb].
    rewrite andb_true_r.
    rewrite Forall_forall in IH. apply IH; [assumption|].
    rewrite forallb_forall in Hms. now apply Hms.
Qed.

Lemma ser_members_numbers (q : string -> bool) (ser : value -> result json) :
  (forall x j, ser x = Ok j -> json_numbers q j = true) ->
  forall o ms, ser_members ser o = Ok ms ->
               forallb (fun m => json_numbers q (snd m)) ms = true.
Proof.
  intros Hq. induction o as [|[k v] o IH]; intros ms H; simpl in H.
  - now injection H as <-.
  - destruct v; try (now apply IH);
      (destruct (ser _) as [j|e] eqn:Hx; [|discriminate]; cbn [bind] in H;
       destruct (ser_members ser o) as [ms'|e]; [|discriminate]; cbn [bind] in H;
       injection H as <-; simpl; now rewrite (Hq _ j Hx), (IH ms' eq_refl)).
Qed.

Lemma to_json_numbers (h : heap) :
  forall fuel stack v j,
    to_json fuel h stack v = Ok j ->
    json_numbers (str_forall number_char) j = true.
Proof.
  induction fuel as [|f IH]; intros stack v j H;
    (destruct v as [| | b | n | s | [t|] | a]; simpl in H;
     try (injection H as <-; try reflexivity;
          destruct n as [| neg | neg m e]; try reflexivity;
          apply (Number_toString_chars (Finite neg m e))));
    (destruct (existsb (Nat.eqb a) stack); [discriminate|];
     destruct (nth_error h a) as [o|]; [|now injection H as <-]).
  - discriminate.
  - destruct o as [props | items].
    + destruct (ser_members (to_json f h (a :: stack)) props) as [ms|e] eqn:Hm;
        [|discriminate].
      cbn [bind] in H. injection H as <-.
      apply (ser_members_numbers _ (to_json f h (a :: stack))) with (o := props);
        [|assumption].
      intros x j. apply IH.
    + destruct (mapM (to_json f h (a :: stack)) items) as [es|e] eqn:Hm;
        [|discriminate].
      cbn [bind] in H. injection H as <-.
      apply (mapM_forallb (to_json f h (a :: stack))
               (json_numbers (str_forall number_char))) with (l := items);
        [|assumption].
      intros x j. apply IH.
Qed.

Lemma printable_no_newline (s : string) :
  str_forall printable_char s = true -> count_char newline s = 0.
Proof.
  induction s as [|c s IH]; [reflexivity|]. cbn [str_forall count_char].
  intros H. apply andb_prop in H. destruct H as [Hc Hs]. rewrite (IH Hs).
  destruct (Ascii.eqb_spec c newline) as [-> | _]; [discriminate | reflexivity].
Qed.

(** X11 -- a finished structured-document export holds no control
    character: every newline, tab or other control character of a string
    value or of a member name is written as an escape, so the whole
    document is one line whatever the rows hold (the delimited-text export
    of the same rows can span more lines than it has records). *)
Theorem json_export_is_one_line :
  forall (columns : list column) (h : heap) (rows : list row) (out : string),
    export (JSONStreamFormatter columns) h rows = Ok out ->
    str_forall printable_char out = true
    /\ line_count out = 0.
Proof.
  intros columns h rows out Hexport. rewrite json_export_doc in Hexport.
  destruct (mapM (json_row_doc columns h) rows) as [docs|e] eqn:Hdocs;
    [|discriminate].
  cbn [bind] in Hexport. injection Hexport as <-.
  assert (Hprint : str_forall printable_char (json_print (JArr docs)) = true).
  { apply json_print_printable. cbn [json_numbers].
    apply (mapM_forallb (json_row_doc columns h)
             (json_numbers (str_forall number_char))) with (l := rows);
      [|assumption].
    intros chunk doc Hdoc. unfold json_row_doc, fresh_object_json in Hdoc.
    destruct (ser_members (to_json (enough_fuel h) h []) (json_output columns chunk))
      as [ms|e] eqn:Hms; [|discriminate].
    cbn [bind] in Hdoc. injection Hdoc as <-. cbn [json_numbers].
    apply (ser_members_numbers _ (to_json (enough_fuel h) h []))
      with (o := json_output columns chunk); [|assumption].
    intros x j. apply to_json_numbers. }
  split; [exact Hprint|]. unfold line_count. now apply printable_no_newline.
Qed.

Lemma json_export_is_one_line_witness :
  exists out,
    export (JSONStreamFormatter demo_columns) demo_heap
      [ demo_row; [("name", VString ("a" ++ nl ++ "b"))] ] = Ok out
    /\ str_forall printable_char out = true
    /\ line_count out = 0.
Proof.
  eexists. split; [reflexivity|].
  exact (json_export_is_one_line demo_columns demo_heap
           [ demo_row; [("name", VString ("a" ++ nl ++ "b"))] ] _ eq_refl).
Defined.

(** * Further properties of the benchmark driver *)

(** ** What the sink counts *)

Lemma null_write_totals (heapUsedMB : nat -> nat) :
  forall cs k,
    exists k',
      write_all (nullStream heapUsedMB) k cs = (k', cs, Ok tt)
      /\ bytesWritten k'
         = bytesWritten k + String.length (String.concat EmptyString cs)
      /\ chunkCount k' = chunkCount k + List.length cs.
Proof.
  induction cs as [|c cs IH]; intros k.
  - exists k. repeat split; simpl; lia.
  - cbn [write_all swrite nullStream]. unfold null_write at 1.
    match goal with
    | |- context [write_all _ ?k1 cs] => destruct (IH k1) as [k' [Hw [Hb Hc]]]
    end.
    exists k'. rewrite Hw. split; [reflexivity|].
    rewrite Hb, Hc, concat_empty_cons, length_append. simpl. lia.
Qed.

Lemma export_chunks (F : Formatter) (h : heap) (rows : list row) (out : string) :
  export F h rows = Ok out ->
  exists cs, emit F h rows None = (cs, Finished)
             /\ out = String.concat EmptyString cs.
Proof.
  unfold export. destruct (emit F h rows None) as [cs [|e|e|]];
    try discriminate.
  intros H. injection H as <-. now exists cs.
Qed.

(** X12 -- when an export finishes, [measureExport] resolves, has released
    the client once and logged nothing, and the size it reports is the
    number of bytes of the exported text. *)
Theorem report_size_is_output_length :
  forall (writer : Type)
         (openStream : schema -> reply (writer * list string))
         (appendRow : writer -> props string -> reply (writer * list string))
         (close : writer -> reply (list string))
         (heapUsedMB : nat -> nat) (timing : schedule)
         (format : string) (columns : list column) (F : Formatter) (h : heap)
         (rows : list row) (out : string) (w : world),
    getFormatter writer openStream appendRow close columns format = Ok F ->
    export F h rows = Ok out ->
    exists peak,
      measureExport writer openStream appendRow close heapUsedMB timing
        (Ok tt) format rows None h columns w
      = ({| released := S (released w); console_errors := console_errors w |},
         Resolved {| rformat := format;
                     fileSizeBytes := String.length out;
                     peakMemoryMB := peak |}).
Proof.
  intros writer openStream appendRow close heapUsedMB timing format columns F h
    rows out w HF Hout.
  destruct (export_chunks F h rows out Hout) as [cs [Hemit ->]].
  destruct (null_write_totals heapUsedMB cs
              {| bytesWritten := 0; chunkCount := 0; peakMem := 0 |})
    as [k [Hw [Hbytes _]]].
  exists (peakMem k).
  unfold measureExport, bindM, lift, await, try_catch_finally, pipeline.
  rewrite HF, Hemit. cbn [reach]. rewrite Hw. cbn. now rewrite Hbytes.
Qed.

Lemma report_size_is_output_length_witness :
  exists out,
    export (CSVStreamFormatter demo_columns) demo_heap [demo_row] = Ok out
    /\ exists peak,
        measureExport nat sample_open sample_append sample_close (fun _ => 0)
          (sink_is_slow 0)
          (Ok tt) "csv" [demo_row] None demo_heap demo_columns
          {| released := 0; console_errors := [] |}
        = ({| released := 1; console_errors := [] |},
           Resolved {| rformat := "csv"; fileSizeBytes := String.length out;
                       peakMemoryMB := peak |}).
Proof.
  eexists. split; [reflexivity|].
  exact (report_size_is_output_length nat sample_open sample_append sample_close
           (fun _ => 0) (sink_is_slow 0)
           "csv" demo_columns (CSVStreamFormatter demo_columns) demo_heap
           [demo_row] _ {| released := 0; console_errors := [] |} eq_refl eq_refl).
Defined.

(** ** The memory figure *)

Lemma null_write_peak (heapUsedMB : nat -> nat) :
  forall cs k,
    exists k',
      write_all (nullStream heapUsedMB) k cs = (k', cs, Ok tt)
      /\ chunkCount k' = chunkCount k + List.length cs
      /\ peakMem k <= peakMem k'
      /\ (forall c, chunkCount k < c <= chunkCount k' -> c mod 500 = 0 ->
                    heapUsedMB c <= peakMem k')
      /\ (peakMem k' = peakMem k
          \/ exists c, chunkCount k < c <= chunkCount k' /\ c mod 500 = 0
                       /\ peakMem k' = heapUsedMB c)
      /\ ((forall c, chunkCount k < c <= chunkCount k' -> c mod 500 <> 0) ->
          peakMem k' = peakMem k).
Proof.
  induction cs as [|c0 cs IH]; intros k.
  - exists k. split; [reflexivity|]. split; [simpl; lia|]. split; [lia|].
    split; [intros c Hc; simpl in Hc; lia|]. split; [now left | reflexivity].
  - cbn [write_all swrite nullStream]. unfold null_write at 1.
    match goal with
    | |- context [write_all _ ?k1 cs] =>
        destruct (IH k1) as [k' [Hw [Hc [Hle [Hub [Hatt Hnone]]]]]]
    end.
    cbn [chunkCount peakMem] in Hc, Hle, Hub, Hatt, Hnone.
    exists k'. rewrite Hw. split; [reflexivity|].
    split; [rewrite Hc; simpl; lia|].
    destruct (Nat.eqb_spec (S (chunkCount k) mod 500) 0) as [Hs | Hs].
    + destruct (Nat.ltb_spec (peakMem k) (heapUsedMB (S (chunkCount k))))
        as [Hlt | Hge].
      * split; [lia|]. split; [|split].
        -- intros c Hrange Hmod.
           destruct (Nat.eq_dec c (S (chunkCount k))) as [-> | Hne]; [lia|].
           apply Hub; [lia | assumption].
        -- right. destruct Hatt as [Heq | [c [Hrange [Hmod Heq]]]].
           ++ exists (S (chunkCount k)). split; [lia|]. now split.
           ++ exists c. split; [lia|]. now split.
        -- intros Hno. exfalso. apply (Hno (S (chunkCount k))); [lia | assumption].
      * split; [lia|]. split; [|split].
        -- intros c Hrange Hmod.
           destruct (Nat.eq_dec c (S (chunkCount k))) as [-> | Hne]; [lia|].
           apply Hub; [lia | assumption].
        -- destruct Hatt as [Heq | [c [Hrange [Hmod Heq]]]]; [now left|].
           right. exists c. split; [lia|]. now split.
        -- intros Hno. exfalso. apply (Hno (S (chunkCount k))); [lia | assumption].
    + split; [lia|]. split; [|split].
      * intros c Hrange Hmod.
        destruct (Nat.eq_dec c (S (chunkCount k))) as [-> | Hne]; [contradiction|].
        apply Hub; [lia | assumption].
      * destruct Hatt as [Heq | [c [Hrange [Hmod Heq]]]]; [now left|].
        right. exists c. split; [lia|]. now split.
      * intros Hno. apply Hnone. intros c Hrange. apply Hno. lia.
Qed.

(** X13 -- the sink never refuses a chunk and looks at the heap only when
    its chunk count reaches a multiple of 500: the peak it holds is the
    largest of the figures sampled at those counts (and of the peak it
    started with).  Hence an export of fewer than 500 chunks is reported
    with a peak memory of zero. *)
Theorem peak_memory_is_sampled_every_500_chunks :
  forall (heapUsedMB : nat -> nat),
    (forall (cs : list string) (k : null_state),
        exists k',
          write_all (nullStream heapUsedMB) k cs = (k', cs, Ok tt)
          /\ chunkCount k' = chunkCount k + List.length cs
          /\ peakMem k <= peakMem k'
          /\ (forall c, chunkCount k < c <= chunkCount k' -> c mod 500 = 0 ->
                        heapUsedMB c <= peakMem k')
          /\ (peakMem k' = peakMem k
              \/ exists c, chunkCount k < c <= chunkCount k' /\ c mod 500 = 0
                           /\ peakMem k' = heapUsedMB c))
    /\ (forall (writer : Type)
               (openStream : schema -> reply (writer * list string))
               (appendRow : writer -> props string -> reply (writer * list string))
               (close : writer -> reply (list string))
               (timing : schedule)
               (format : string) (columns : list column) (F : Formatter)
               (h : heap) (rows : list row) (cs : list string) (w : world),
           getFormatter writer openStream appendRow close columns format = Ok F ->
           emit F h rows None = (cs, Finished) ->
           List.length cs < 500 ->
           exists size,
             measureExport writer openStream appendRow close heapUsedMB timing
               (Ok tt) format rows None h columns w
             = ({| released := S (released w); console_errors := console_errors w |},
                Resolved {| rformat := format; fileSizeBytes := size;
                            peakMemoryMB := 0 |})).
Proof.
  intros heapUsedMB. split.
  - intros cs k.
    destruct (null_write_peak heapUsedMB cs k)
      as [k' [Hw [Hc [Hle [Hub [Hatt _]]]]]].
    exists k'. now repeat split.
  - intros writer openStream appendRow close timing format columns F h rows cs w
      HF Hemit Hlen.
    destruct (null_write_peak heapUsedMB cs
                {| bytesWritten := 0; chunkCount := 0; peakMem := 0 |})
      as [k [Hw [Hc [_ [_ [_ Hnone]]]]]].
    cbn [chunkCount peakMem] in Hc, Hnone.
    exists (bytesWritten k).
    unfold measureExport, bindM, lift, await, try_catch_finally, pipeline.
    rewrite HF, Hemit. cbn [reach]. rewrite Hw. cbn.
    rewrite Hnone; [reflexivity|].
    intros c Hrange Hmod.
    rewrite Nat.mod_small in Hmod by lia. lia.
Qed.

(** ** A format that is not one of the four *)

(** X14 -- for a format other than json, csv, xml and parquet,
    [measureExport] of the benchmark library rejects with the
    unknown-format error after it has obtained the client and before it
    enters its [try]: the client is never released and nothing is
    logged. *)
Theorem unknown_format_keeps_client :
  forall (writer : Type)
         (openStream : schema -> reply (writer * list string))
         (appendRow : writer -> props string -> reply (writer * list string))
         (close : writer -> reply (list string))
         (heapUsedMB : nat -> nat) (timing : schedule)
         (format : string) (columns : list column) (h : heap)
         (rows : list row) (src_end : option error) (w : world),
    format <> "json" -> format <> "csv" -> format <> "xml" ->
    format <> "parquet" ->
    getFormatter writer openStream appendRow close columns format
    = Throw (Error_UnknownFormat format)
    /\ measureExport writer openStream appendRow close heapUsedMB timing
         (Ok tt) format rows src_end h columns w
       = (w, Rejected (Error_UnknownFormat format)).
Proof.
  intros writer openStream appendRow close heapUsedMB timing format columns h rows
    src_end w Hj Hc Hx Hp.
  assert (HF : getFormatter writer openStream appendRow close columns format
               = Throw (Error_UnknownFormat format)).
  { unfold getFormatter.
    apply String.eqb_neq in Hj, Hc, Hx, Hp. now rewrite Hj, Hc, Hx, Hp. }
  split; [exact HF|].
  unfold measureExport, bindM, lift. now rewrite HF.
Qed.

Lemma unknown_format_keeps_client_witness :
  getFormatter nat sample_open sample_append sample_close demo_columns "yaml"
  = Throw (Error_UnknownFormat "yaml")
  /\ measureExport nat sample_open sample_append sample_close (fun _ => 0)
       (sink_keeps_up 0)
       (Ok tt) "yaml" [demo_row] None demo_heap demo_columns
       {| released := 0; console_errors := [] |}
     = ({| released := 0; console_errors := [] |},
        Rejected (Error_UnknownFormat "yaml")).
Proof.
  apply (unknown_format_keeps_client nat sample_open sample_append sample_close
           (fun _ => 0) (sink_keeps_up 0)
           "yaml" demo_columns demo_heap [demo_row] None
           {| released := 0; console_errors := [] |}); discriminate.
Defined.

(** ** Runs that do not settle *)

(** Only the delimited-text and the markup formatter let an exception
    out, and only for a row with a value that does not normalize. *)
Lemma formatter_crash_cause (writer : Type)
    (openStream : schema -> reply (writer * list string))
    (appendRow : writer -> props string -> reply (writer * list string))
    (close : writer -> reply (list string))
    (fmt : string) (columns : list column) (F : Formatter) (h : heap)
    (rows : list row) (src_end : option error) (cs : list string) (e : error) :
  getFormatter writer openStream appendRow close columns fmt = Ok F ->
  emit F h rows src_end = (cs, Uncaught e) ->
  (fmt = "csv" \/ fmt = "xml")
  /\ exists r, In r rows /\ normalized columns h r = Throw e.
Proof.
  intros HF Hemit.
  destruct (emit_uncaught F h rows src_end cs e Hemit)
    as [st1 [opened [done [frames [st' [r [later [_ [_ [_ [Hrows [Ht Hg]]]]]]]]]]]].
  assert (Hin : In r rows) by (rewrite Hrows; apply in_or_app; right; now left).
  unfold getFormatter in HF.
  destruct (String.eqb_spec fmt "json") as [-> | _];
    [injection HF as <-; discriminate|].
  destruct (String.eqb_spec fmt "csv") as [-> | _].
  { injection HF as <-. split; [now left|]. exists r. split; [exact Hin|].
    cbn [transform CSVStreamFormatter] in Ht. unfold csv_transform in Ht.
    rewrite mapM_csv_field in Ht. fold (normalized columns h r) in Ht.
    destruct (normalized columns h r) as [vals|e0]; [discriminate|].
    cbn [bind] in Ht. congruence. }
  destruct (String.eqb_spec fmt "xml") as [-> | _].
  { injection HF as <-. split; [now right|]. exists r. split; [exact Hin|].
    cbn [transform XMLStreamFormatter] in Ht. unfold xml_transform in Ht.
    rewrite xml_fold_values in Ht.
    destruct (normalized columns h r) as [vals|e0]; [discriminate|].
    cbn [bind] in Ht. congruence. }
  destruct (String.eqb_spec fmt "parquet") as [-> | _]; [|discriminate].
  injection HF as <-. discriminate.
Qed.

(** Only the columnar-binary formatter stalls, and only in a step of its
    writer: the opening, an append or the closing. *)
Lemma formatter_stall_cause (writer : Type)
    (openStream : schema -> reply (writer * list string))
    (appendRow : writer -> props string -> reply (writer * list string))
    (close : writer -> reply (list string))
    (fmt : string) (columns : list column) (F : Formatter) (h : heap)
    (rows : list row) (src_end : option error) (cs : list string) :
  getFormatter writer openStream appendRow close columns fmt = Ok F ->
  emit F h rows src_end = (cs, Stalled) ->
  fmt = "parquet"
  /\ exists pushed,
      openStream (parquet_schema_defs columns) = Silent pushed
      \/ (exists w row, appendRow w row = Silent pushed)
      \/ (exists w, close w = Silent pushed).
Proof.
  intros HF Hemit. unfold getFormatter in HF.
  destruct (String.eqb_spec fmt "json") as [-> | _].
  { injection HF as <-. exfalso.
    destruct (emit_stalled_step _ h rows src_end cs Hemit)
      as [pushed [Ho | [[st Hf] | [st [r Ht]]]]]; discriminate. }
  destruct (String.eqb_spec fmt "csv") as [-> | _].
  { injection HF as <-. exfalso.
    destruct (emit_stalled_step _ h rows src_end cs Hemit)
      as [pushed [Ho | [[st Hf] | [st [r Ht]]]]]; discriminate. }
  destruct (String.eqb_spec fmt "xml") as [-> | _].
  { injection HF as <-. exfalso.
    destruct (emit_stalled_step _ h rows src_end cs Hemit)
      as [pushed [Ho | [[st Hf] | [st [r Ht]]]]]; discriminate. }
  destruct (String.eqb_spec fmt "parquet") as [-> | _]; [|discriminate].
  injection HF as <-. split; [reflexivity|].
  destruct (emit_stalled_step _ h rows src_end cs Hemit)
    as [pushed [Ho | [[st Hf] | [st [r Ht]]]]]; exists pushed.
  - left. cbn [fopen construct fst ParquetStreamFormatter parquet_construct] in Ho.
    unfold parquet_open in Ho. cbn [pschema] in Ho.
    destruct (openStream (parquet_schema_defs columns)) as [[[w cs']|e]|pushed'];
      try discriminate.
    now injection Ho as ->.
  - right; right. cbn [flush ParquetStreamFormatter] in Hf.
    unfold parquet_flush in Hf.
    destruct (pwriter writer st) as [w|]; [|discriminate]. now exists w.
  - right; left. cbn [transform ParquetStreamFormatter] in Ht.
    unfold parquet_transform in Ht.
    destruct (parquet_row columns h r) as [row|e]; [|discriminate].
    destruct (pwriter writer st) as [w|]; [|discriminate].
    exists w, row.
    destruct (appendRow w row) as [[[w' cs']|e]|pushed']; try discriminate.
    now injection Ht as ->.
Qed.

(** ** The loop over the formats *)

Section RunBenchmarkFacts.

Variable writer : Type.
Variable openStream : schema -> reply (writer * list string).
Variable appendRow : writer -> props string -> reply (writer * list string).
Variable close : writer -> reply (list string).
Variable heapUsedMB : nat -> nat.
Variable gc_exposed : bool.
Variable pool : string -> db_run.

(** One call of [measureExport] with a format that has a formatter. *)
Lemma measureExport_known_format (fmt : string) (columns : list column)
    (F : Formatter) (run : db_run) (w : world) :
  getFormatter writer openStream appendRow close columns fmt = Ok F ->
  match db_connect run with
  | Throw e =>
      measureExport writer openStream appendRow close heapUsedMB (db_timing run)
        (db_connect run) fmt (db_rows run) (db_end run) (db_heap run) columns w
      = (w, Rejected e)
  | Ok _ =>
      (exists rep,
          rformat rep = fmt
          /\ measureExport writer openStream appendRow close heapUsedMB
               (db_timing run)
               (db_connect run) fmt (db_rows run) (db_end run) (db_heap run)
               columns w
             = ({| released := S (released w);
                   console_errors := console_errors w |}, Resolved rep))
      \/ (exists e,
             measureExport writer openStream appendRow close heapUsedMB
               (db_timing run)
               (db_connect run) fmt (db_rows run) (db_end run) (db_heap run)
               columns w
             = ({| released := S (released w);
                   console_errors := (console_errors w ++ [e])%list |},
                Rejected e))
      \/ (exists e,
             measureExport writer openStream appendRow close heapUsedMB
               (db_timing run)
               (db_connect run) fmt (db_rows run) (db_end run) (db_heap run)
               columns w
             = (w, Crashed e)
             /\ (fmt = "csv" \/ fmt = "xml")
             /\ exists r, In r (db_rows run)
                          /\ normalized columns (db_heap run) r = Throw e)
      \/ (measureExport writer openStream appendRow close heapUsedMB
            (db_timing run)
            (db_connect run) fmt (db_rows run) (db_end run) (db_heap run)
            columns w
          = (w, Pending)
          /\ fmt = "parquet")
  end.
Proof.
  intros HF. unfold measureExport, bindM, lift, await, try_catch_finally.
  destruct (db_connect run) as [[]|e]; [|reflexivity].
  rewrite HF.
  destruct (pipeline (db_timing run) F (nullStream heapUsedMB) (db_heap run)
              (db_rows run) (db_end run)
              {| bytesWritten := 0; chunkCount := 0; peakMem := 0 |})
    as [[sink received] [|e|e|]] eqn:Hpipe; cbn.
  - left. eexists. split; [|reflexivity]. reflexivity.
  - right; left. now exists e.
  - right; right; left. exists e. split; [now destruct w|].
    destruct (pipeline_cases _ _ _ _ _ _ _ _ _ _ Hpipe)
      as [cs [res [Hemit [[_ Hen] | [e' [c [rest [He _]]]]]]]]; [|discriminate].
    assert (res = Uncaught e) as ->.
    { destruct res as [|e'|e'|]; cbn [end_of_run] in Hen; try discriminate.
      - destruct (in_read (db_timing run)); [discriminate | congruence].
      - destruct (db_end run); [destruct (source_drained (db_timing run))|];
          discriminate. }
    exact (formatter_crash_cause writer openStream appendRow close fmt columns F
             _ _ _ _ e HF Hemit).
  - right; right; right. split; [now destruct w|].
    destruct (pipeline_cases _ _ _ _ _ _ _ _ _ _ Hpipe)
      as [cs [res [Hemit [[_ Hen] | [e' [c [rest [He _]]]]]]]]; [|discriminate].
    assert (res = Stalled) as ->.
    { destruct res as [|e'|e'|]; cbn [end_of_run] in Hen; try discriminate.
      - destruct (in_read (db_timing run)); discriminate.
      - reflexivity. }
    exact (proj1 (formatter_stall_cause writer openStream appendRow close fmt
                    columns F _ _ _ _ HF Hemit)).
Qed.

Lemma benchmark_loop_step (fmt : string) (formats : list string)
    (results : list report) (p : process report) :
  benchmark_loop writer openStream appendRow close heapUsedMB gc_exposed pool
    (fmt :: formats) results p
  = match measureExport writer openStream appendRow close heapUsedMB
            (db_timing (pool fmt))
            (db_connect (pool fmt)) fmt (db_rows (pool fmt)) (db_end (pool fmt))
            (db_heap (pool fmt)) benchmark_columns (pworld p) with
    | (w, Resolved rep) =>
        benchmark_loop writer openStream appendRow close heapUsedMB gc_exposed
          pool formats (results ++ [rep])%list (after_run gc_exposed p fmt w)
    | (w, Rejected e) => (after_run gc_exposed p fmt w, Rejected e)
    | (w, Crashed e) => (after_run gc_exposed p fmt w, Crashed e)
    | (w, Pending) => (after_run gc_exposed p fmt w, Pending)
    end.
Proof.
  cbn [benchmark_loop]. unfold abind, log, forceGC, sleep, in_world, after_run.
  cbn [pworld console_log error_lines tables gc_runs timeouts pool_ended].
  destruct (measureExport writer openStream appendRow close heapUsedMB
              (db_timing (pool fmt))
              (db_connect (pool fmt)) fmt (db_rows (pool fmt)) (db_end (pool fmt))
              (db_heap (pool fmt)) benchmark_columns (pworld p)) as [w [rep|e|e|]];
    reflexivity.
Qed.

Lemma benchmark_loop_runs :
  forall (formats : list string) (results : list report) (p : process report),
    (forall fmt, In fmt formats ->
       exists F, getFormatter writer openStream appendRow close
                   benchmark_columns fmt = Ok F) ->
    exists p' r started rest,
      benchmark_loop writer openStream appendRow close heapUsedMB gc_exposed pool
        formats results p = (p', r)
      /\ formats = (started ++ rest)%list
      /\ console_log p' = (console_log p ++ map benchmarking_line started)%list
      /\ gc_runs p'
         = (if gc_exposed then gc_runs p + List.length started else gc_runs p)
      /\ timeouts p' = (timeouts p ++ repeat 200 (List.length started))%list
      /\ error_lines p' = error_lines p
      /\ tables p' = tables p
      /\ pool_ended p' = pool_ended p
      /\ match r with
         | Resolved all =>
             rest = []
             /\ (exists new, all = (results ++ new)%list
                             /\ map rformat new = formats)
             /\ released (pworld p') = released (pworld p) + List.length formats
             /\ console_errors (pworld p') = console_errors (pworld p)
         | Rejected e =>
             exists done fmt,
               started = (done ++ [fmt])%list
               /\ released (pworld p')
                  = released (pworld p) + List.length done
                    + (if connected pool fmt then 1 else 0)
               /\ console_errors (pworld p')
                  = (console_errors (pworld p)
                       ++ (if connected pool fmt then [e] else []))%list
         | Crashed e =>
             exists done fmt,
               started = (done ++ [fmt])%list
               /\ connected pool fmt = true
               /\ released (pworld p') = released (pworld p) + List.length done
               /\ console_errors (pworld p') = console_errors (pworld p)
               /\ (fmt = "csv" \/ fmt = "xml")
               /\ exists r, In r (db_rows (pool fmt))
                            /\ normalized benchmark_columns (db_heap (pool fmt)) r
                               = Throw e
         | Pending =>
             exists done,
               started = (done ++ ["parquet"])%list
               /\ connected pool "parquet" = true
               /\ released (pworld p') = released (pworld p) + List.length done
               /\ console_errors (pworld p') = console_errors (pworld p)
         end.
Proof.
  induction formats as [|fmt formats IH]; intros results p Hknown.
  - exists p, (Resolved results), [], []. cbn. rewrite !List.app_nil_r.
    repeat split; try lia; try (destruct gc_exposed; lia).
    exists []. now rewrite List.app_nil_r.
  - destruct (Hknown fmt (or_introl eq_refl)) as [F HF].
    pose proof (measureExport_known_format fmt benchmark_columns F (pool fmt)
                  (pworld p) HF) as Hone.
    rewrite benchmark_loop_step. unfold connected in *.
    destruct (db_connect (pool fmt)) as [[]|e0] eqn:Hconn.
    + destruct Hone as [[rep [Hfmt Hm]] | [[e Hm] | [[e [Hm Hcause]] | [Hm Hpq]]]];
        rewrite Hm.
      * destruct (IH (results ++ [rep])%list
                    (after_run gc_exposed p fmt
                       {| released := S (released (pworld p));
                          console_errors := console_errors (pworld p) |}))
          as [p' [r [started [rest [Hloop [Hsplit [Hlog [Hgc [Hto [Hel [Htb
               [Hpe Hout]]]]]]]]]]]].
        { intros f Hf. apply Hknown. now right. }
        cbn [after_run pworld console_log gc_runs timeouts released console_errors
               error_lines tables pool_ended] in *.
        exists p', r, (fmt :: started), rest.
        split; [exact Hloop|]. split; [now rewrite Hsplit|].
        split; [rewrite Hlog; cbn [map]; now rewrite <- app_assoc|].
        split; [rewrite Hgc; destruct gc_exposed; simpl; lia|].
        split; [rewrite Hto; cbn [List.length repeat]; now rewrite <- app_assoc|].
        split; [assumption|]. split; [assumption|]. split; [assumption|].
        destruct r as [all|e|e|].
        -- destruct Hout as [-> [[new [-> Hnew]] [Hrel Herr]]].
           split; [reflexivity|]. split; [|split].
           ++ exists (rep :: new). rewrite <- app_assoc. split; [reflexivity|].
              cbn [map]. now rewrite Hfmt, Hnew.
           ++ rewrite Hrel. simpl. lia.
           ++ exact Herr.
        -- destruct Hout as [done [f [-> [Hrel Herr]]]].
           exists (fmt :: done), f. split; [reflexivity|].
           split; [rewrite Hrel; simpl; lia | exact Herr].
        -- destruct Hout as [done [f [-> [Hcon [Hrel [Herr Hwhy]]]]]].
           exists (fmt :: done), f. split; [reflexivity|].
           split; [exact Hcon|]. split; [rewrite Hrel; simpl; lia|].
           split; [exact Herr | exact Hwhy].
        -- destruct Hout as [done [-> [Hcon [Hrel Herr]]]].
           exists (fmt :: done). split; [reflexivity|].
           split; [exact Hcon|]. split; [rewrite Hrel; simpl; lia | exact Herr].
      * eexists _, _, [fmt], formats. split; [reflexivity|]. cbn.
        repeat split; try (destruct gc_exposed; lia).
        exists [], fmt. cbn. rewrite Hconn. repeat split; lia.
      * eexists _, _, [fmt], formats. split; [reflexivity|].
        cbn [after_run pworld console_log gc_runs timeouts error_lines tables
               pool_ended map List.length repeat].
        split; [reflexivity|]. split; [reflexivity|].
        split; [destruct gc_exposed; lia|].
        do 4 (split; [reflexivity|]).
        exists [], fmt. rewrite Hconn. cbn [List.length app].
        split; [reflexivity|]. split; [reflexivity|]. split; [lia|].
        split; [reflexivity | exact Hcause].
      * subst fmt. eexists _, _, ["parquet"], formats. split; [reflexivity|].
        cbn [after_run pworld console_log gc_runs timeouts error_lines tables
               pool_ended map List.length repeat].
        split; [reflexivity|]. split; [reflexivity|].
        split; [destruct gc_exposed; lia|].
        do 4 (split; [reflexivity|]).
        exists []. rewrite Hconn. cbn [List.length app].
        split; [reflexivity|]. split; [reflexivity|]. split; [lia | reflexivity].
    + rewrite Hone. eexists _, _, [fmt], formats. split; [reflexivity|]. cbn.
      repeat split; try (destruct gc_exposed; lia).
      exists [], fmt. cbn. rewrite Hconn, List.app_nil_r. repeat split; lia.
Qed.

End RunBenchmarkFacts.

(** X15 -- [runBenchmark] runs the formats csv, json, xml and parquet in
    this order, announcing each, forcing the collector (when it is exposed)
    and pausing 200 ms before each.  When every run resolves it resolves
    with the four reports in that order, each client having been released.
    The first run that fails ends the loop: the formats after it are not
    started, the reports gathered so far are not returned, and
    [runBenchmark] fails with that run's error.  Every client obtained
    before was released; the client of the failing run was released unless
    an exception escaped the formatter, which only happens in the csv or
    the xml run, on a row with a value that does not normalize.  A run that
    never settles, which only the parquet run can be, leaves [runBenchmark]
    waiting with that run's client not released. *)
Theorem runBenchmark_stops_at_first_failure :
  forall (writer : Type)
         (openStream : schema -> reply (writer * list string))
         (appendRow : writer -> props string -> reply (writer * list string))
         (close : writer -> reply (list string))
         (heapUsedMB : nat -> nat) (gc_exposed : bool) (pool : string -> db_run)
         (p : process report),
    exists p' r started rest,
      runBenchmark writer openStream appendRow close heapUsedMB gc_exposed pool p
      = (p', r)
      /\ ["csv"; "json"; "xml"; "parquet"] = (started ++ rest)%list
      /\ console_log p' = (console_log p ++ map benchmarking_line started)%list
      /\ gc_runs p'
         = (if gc_exposed then gc_runs p + List.length started else gc_runs p)
      /\ timeouts p' = (timeouts p ++ repeat 200 (List.length started))%list
      /\ match r with
         | Resolved all =>
             rest = []
             /\ map rformat all = ["csv"; "json"; "xml"; "parquet"]
             /\ released (pworld p') = released (pworld p) + 4
             /\ console_errors (pworld p') = console_errors (pworld p)
         | Rejected e =>
             exists done fmt,
               started = (done ++ [fmt])%list
               /\ released (pworld p')
                  = released (pworld p) + List.length done
                    + (if connected pool fmt then 1 else 0)
               /\ console_errors (pworld p')
                  = (console_errors (pworld p)
                       ++ (if connected pool fmt then [e] else []))%list
         | Crashed e =>
             exists done fmt,
               started = (done ++ [fmt])%list
               /\ connected pool fmt = true
               /\ released (pworld p') = released (pworld p) + List.length done
               /\ console_errors (pworld p') = console_errors (pworld p)
               /\ (fmt = "csv" \/ fmt = "xml")
               /\ exists r, In r (db_rows (pool fmt))
                            /\ normalized benchmark_columns (db_heap (pool fmt)) r
                               = Throw e
         | Pending =>
             exists done,
               started = (done ++ ["parquet"])%list
               /\ connected pool "parquet" = true
               /\ released (pworld p') = released (pworld p) + List.length done
               /\ console_errors (pworld p') = console_errors (pworld p)
         end.
Proof.
  intros writer openStream appendRow close heapUsedMB gc_exposed pool p.
  destruct (benchmark_loop_runs writer openStream appendRow close heapUsedMB
              gc_exposed pool ["csv"; "json"; "xml"; "parquet"] [] p)
    as [p' [r [started [rest [Hloop [Hsplit [Hlog [Hgc [Hto [_ [_ [_ Hout]]]]]]]]]]]].
  { intros fmt Hfmt.
    repeat (destruct Hfmt as [<- | Hfmt]; [eexists; reflexivity|]).
    destruct Hfmt. }
  exists p', r, started, rest. unfold runBenchmark.
  repeat (split; [assumption|]).
  destruct r as [all|e|e|]; [|exact Hout|exact Hout|exact Hout].
  destruct Hout as [Hrest [[new [-> Hnew]] [Hrel Herr]]].
  repeat split; assumption.
Qed.

Example runBenchmark_second_run_fails :
  runBenchmark nat sample_open sample_append sample_close (fun _ => 0) true
    (fun fmt =>
       {| db_connect := Ok tt;
          db_rows := [[("id", VNumber (of_Z 1))]];
          db_heap := [];
          db_end := if String.eqb fmt "json"
                    then Some (ExternalError "connection lost") else None;
          db_timing := sink_keeps_up 2 |})
    {| pworld := {| released := 0; console_errors := [] |};
       console_log := []; error_lines := []; tables := []; gc_runs := 0;
       timeouts := []; pool_ended := 0 |}
  = ({| pworld := {| released := 2;
                     console_errors := [ExternalError "connection lost"] |};
        console_log := ["Benchmarking csv..."; "Benchmarking json..."];
        error_lines := []; tables := []; gc_runs := 2;
        timeouts := [200; 200]; pool_ended := 0 |},
     Rejected (ExternalError "connection lost")).
Proof. reflexivity. Qed.

(** With rows in the table and the writer of the examples the fourth run
    never settles: [runBenchmark] returns nothing and the client of that
    run stays with it. *)
Example runBenchmark_waits_for_parquet :
  runBenchmark nat sample_open sample_append sample_close (fun _ => 0) false
    (fun fmt =>
       {| db_connect := Ok tt;
          db_rows := [[("id", VNumber (of_Z 1))]];
          db_heap := [];
          db_end := None;
          db_timing := sink_keeps_up 2 |})
    {| pworld := {| released := 0; console_errors := [] |};
       console_log := []; error_lines := []; tables := []; gc_runs := 0;
       timeouts := []; pool_ended := 0 |}
  = ({| pworld := {| released := 3; console_errors := [] |};
        console_log := ["Benchmarking csv..."; "Benchmarking json...";
                        "Benchmarking xml..."; "Benchmarking parquet..."];
        error_lines := []; tables := []; gc_runs := 0;
        timeouts := [200; 200; 200; 200]; pool_ended := 0 |},
     Pending).
Proof. reflexivity. Qed.

(** * Properties of [index.js] *)

Section IndexFacts.

Variable writer : Type.
Variable openStream : schema -> reply (writer * list string).
Variable appendRow : writer -> props string -> reply (writer * list string).
Variable close : writer -> reply (list string).
Variable heapUsed : nat -> nat.
Variable elapsed : string -> string.
Variable gc_exposed : bool.
Variable pool : string -> db_run.
Variable db_ready : result unit.

(** The outcome of a run does not depend on the world it starts in, and
    the world changes by one release at most. *)
Lemma index_measureExport_world (fmt : string) (cols : list column) (w : world) :
  Index.measureExport writer openStream appendRow close heapUsed elapsed pool
    fmt cols w
  = (match db_connect (pool fmt),
           snd (Index.measureExport writer openStream appendRow close heapUsed
                  elapsed pool fmt cols {| released := 0; console_errors := [] |})
     with
     | Ok _, Crashed _ => w
     | Ok _, Pending => w
     | Ok _, _ => {| released := S (released w);
                     console_errors := console_errors w |}
     | Throw _, _ => w
     end,
     snd (Index.measureExport writer openStream appendRow close heapUsed
            elapsed pool fmt cols {| released := 0; console_errors := [] |})).
Proof.
  unfold Index.measureExport, abind, try_finally, lift, await, aret, client_release.
  destruct (db_connect (pool fmt)) as [[]|e]; [|reflexivity].
  destruct (getFormatter writer openStream appendRow close cols fmt) as [F|e];
    [|reflexivity].
  destruct (pipeline (db_timing (pool fmt)) F (nullStream heapUsed)
              (db_heap (pool fmt)) (db_rows (pool fmt)) (db_end (pool fmt))
              {| bytesWritten := 0; chunkCount := 0; peakMem := 0 |})
    as [[sink received] [|e|e|]]; cbn; try reflexivity; now destruct w.
Qed.

(** What a run that does not settle comes from. *)
Lemma index_unsettled_cause (fmt : string) (cols : list column) :
  match snd (Index.measureExport writer openStream appendRow close heapUsed
               elapsed pool fmt cols {| released := 0; console_errors := [] |})
  with
  | Crashed e =>
      (fmt = "csv" \/ fmt = "xml")
      /\ in_read (db_timing (pool fmt)) = false
      /\ exists r, In r (db_rows (pool fmt))
                   /\ normalized cols (db_heap (pool fmt)) r = Throw e
  | Pending =>
      fmt = "parquet"
      /\ exists pushed,
          openStream (parquet_schema_defs cols) = Silent pushed
          \/ (exists w row, appendRow w row = Silent pushed)
          \/ (exists w, close w = Silent pushed)
  | _ => True
  end.
Proof.
  unfold Index.measureExport, abind, try_finally, lift, await, aret,
    client_release.
  destruct (db_connect (pool fmt)) as [[]|e0]; [|exact I].
  destruct (getFormatter writer openStream appendRow close cols fmt)
    as [F|e0] eqn:HF; [|exact I].
  destruct (pipeline (db_timing (pool fmt)) F (nullStream heapUsed)
              (db_heap (pool fmt)) (db_rows (pool fmt)) (db_end (pool fmt))
              {| bytesWritten := 0; chunkCount := 0; peakMem := 0 |})
    as [[sink received] en] eqn:Hpipe.
  destruct (pipeline_cases _ _ _ _ _ _ _ _ _ _ Hpipe)
    as [cs [res [Hemit [[_ Hen] | [e' [c [rest [He _]]]]]]]];
    [|subst en; cbn; exact I].
  destruct en as [|e|e|]; cbn; try exact I.
  - assert (res = Uncaught e /\ in_read (db_timing (pool fmt)) = false)
      as [-> Hin].
    { destruct res as [|e'|e'|]; cbn [end_of_run] in Hen; try discriminate.
      - destruct (in_read (db_timing (pool fmt))); [discriminate|].
        split; [congruence | reflexivity].
      - destruct (db_end (pool fmt));
          [destruct (source_drained (db_timing (pool fmt)))|]; discriminate. }
    destruct (formatter_crash_cause writer openStream appendRow close fmt cols F
                _ _ _ _ e HF Hemit) as [Hfmt Hrow].
    now repeat split.
  - assert (res = Stalled) as ->.
    { destruct res as [|e'|e'|]; cbn [end_of_run] in Hen; try discriminate.
      - destruct (in_read (db_timing (pool fmt))); discriminate.
      - reflexivity. }
    exact (formatter_stall_cause writer openStream appendRow close fmt cols F
             _ _ _ _ HF Hemit).
Qed.

End IndexFacts.

(** X16 -- [measureExport] of [index.js] logs nothing.  Whenever it
    obtained a client and its run settled, resolved or rejected, it has
    released the client exactly once: also for a format that is not one of
    the four, whose factory call is inside the [try].  It releases nothing
    when the pool hands out no client, when an exception escapes the
    formatter (the csv or the xml run, a row step called from the write of
    the source) and when the run never settles, which only the parquet run
    does, in a step of its writer; that is the case when the export stalls
    and the source ends cleanly.  For a finished export the report shows the
    format, the elapsed time, and as its size the megabytes of the exported
    text. *)
Theorem index_measureExport_releases_once :
  forall (writer : Type)
         (openStream : schema -> reply (writer * list string))
         (appendRow : writer -> props string -> reply (writer * list string))
         (close : writer -> reply (list string))
         (heapUsed : nat -> nat) (elapsed : string -> string)
         (pool : string -> db_run) (fmt : string) (cols : list column)
         (w : world),
    exists w' r,
      Index.measureExport writer openStream appendRow close heapUsed elapsed pool
        fmt cols w = (w', r)
      /\ console_errors w' = console_errors w
      /\ match db_connect (pool fmt) with
         | Throw e => r = Rejected e /\ released w' = released w
         | Ok _ =>
             match r with
             | Resolved _ | Rejected _ => released w' = S (released w)
             | Crashed _ | Pending => released w' = released w
             end
             /\ (getFormatter writer openStream appendRow close cols fmt
                 = Throw (Error_UnknownFormat fmt) ->
                 r = Rejected (Error_UnknownFormat fmt))
         end
      /\ (forall rep, r = Resolved rep -> Index.format rep = fmt)
      /\ (forall e, r = Crashed e ->
                    (fmt = "csv" \/ fmt = "xml")
                    /\ in_read (db_timing (pool fmt)) = false
                    /\ exists row, In row (db_rows (pool fmt))
                                   /\ normalized cols (db_heap (pool fmt)) row
                                      = Throw e)
      /\ (r = Pending ->
          fmt = "parquet"
          /\ exists pushed,
              openStream (parquet_schema_defs cols) = Silent pushed
              \/ (exists w row, appendRow w row = Silent pushed)
              \/ (exists w, close w = Silent pushed))
      /\ (forall F,
             db_connect (pool fmt) = Ok tt ->
             getFormatter writer openStream appendRow close cols fmt = Ok F ->
             db_end (pool fmt) = None ->
             match export F (db_heap (pool fmt)) (db_rows (pool fmt)) with
             | Called (Ok out) =>
                 exists peak,
                   r = Resolved
                         {| Index.format := fmt;
                            Index.duration := elapsed fmt ++ "s";
                            Index.size := fileSizeMB (String.length out) ++ " MB";
                            Index.memory := rounded_MB peak ++ " MB" |}
             | Called (Throw e) => True
             | Silent pushed => r = Pending
             end).
Proof.
  intros writer openStream appendRow close heapUsed elapsed pool fmt cols w.
  rewrite index_measureExport_world. do 2 eexists. split; [reflexivity|].
  pose proof (index_unsettled_cause writer openStream appendRow close heapUsed
                elapsed pool fmt cols) as Hcause.
  revert Hcause.
  unfold Index.measureExport, abind, try_finally, lift, await, aret, client_release.
  destruct (db_connect (pool fmt)) as [[]|e];
    [|intros _; cbn; repeat split; discriminate].
  destruct (getFormatter writer openStream appendRow close cols fmt) as [F|e].
  - destruct (pipeline (db_timing (pool fmt)) F (nullStream heapUsed)
                (db_heap (pool fmt)) (db_rows (pool fmt)) (db_end (pool fmt))
                {| bytesWritten := 0; chunkCount := 0; peakMem := 0 |})
      as [[sink received] res] eqn:Hpipe.
    assert (Hexport : db_end (pool fmt) = None ->
               match export F (db_heap (pool fmt)) (db_rows (pool fmt)) with
               | Called (Ok out) =>
                   res = Finished /\ bytesWritten sink = String.length out
               | Called (Throw e) => True
               | Silent pushed => res = Stalled
               end).
    { intros Hend. rewrite Hend in Hpipe. unfold export.
      unfold pipeline in Hpipe.
      destruct (emit F (db_heap (pool fmt)) (db_rows (pool fmt)) None)
        as [cs [|e|e|]]; try exact I.
      - cbn [reach] in Hpipe.
        destruct (null_write_totals heapUsed cs
                    {| bytesWritten := 0; chunkCount := 0; peakMem := 0 |})
          as [k [Hw [Hbytes _]]].
        rewrite Hw in Hpipe. injection Hpipe as <- _ <-.
        split; [reflexivity | exact Hbytes].
      - destruct (null_write_totals heapUsed
                    (reach (db_timing (pool fmt)) cs Stalled)
                    {| bytesWritten := 0; chunkCount := 0; peakMem := 0 |})
          as [k [Hw _]].
        rewrite Hw in Hpipe. now injection Hpipe as _ _ <-. }
    assert (Hlast : forall r0 : settled Index.report,
               (db_end (pool fmt) = None ->
                match export F (db_heap (pool fmt)) (db_rows (pool fmt)) with
                | Called (Ok out) =>
                    exists peak,
                      r0 = Resolved
                             {| Index.format := fmt;
                                Index.duration := elapsed fmt ++ "s";
                                Index.size :=
                                  fileSizeMB (String.length out) ++ " MB";
                                Index.memory := rounded_MB peak ++ " MB" |}
                | Called (Throw e) => True
                | Silent pushed => r0 = Pending
                end) ->
               forall F0 : Formatter,
                 Ok tt = Ok tt ->
                 Ok F = Ok F0 ->
                 db_end (pool fmt) = None ->
                 match export F0 (db_heap (pool fmt)) (db_rows (pool fmt)) with
                 | Called (Ok out) =>
                     exists peak,
                       r0 = Resolved
                              {| Index.format := fmt;
                                 Index.duration := elapsed fmt ++ "s";
                                 Index.size :=
                                   fileSizeMB (String.length out) ++ " MB";
                                 Index.memory := rounded_MB peak ++ " MB" |}
                 | Called (Throw e) => True
                 | Silent pushed => r0 = Pending
                 end).
    { intros r0 Hr0 F0 _ HF0 Hend. injection HF0 as <-. exact (Hr0 Hend). }
    destruct res as [|e|e|]; cbn; intros Hcause.
    + split; [reflexivity|]. split; [split; [reflexivity | discriminate]|].
      split; [intros rep Hrep; now injection Hrep as <-|].
      split; [discriminate|]. split; [discriminate|].
      apply Hlast. intros Hend. specialize (Hexport Hend).
      destruct (export F (db_heap (pool fmt)) (db_rows (pool fmt)))
        as [[out|e]|pushed]; [|exact I|discriminate].
      destruct Hexport as [_ ->]. now exists (peakMem sink).
    + split; [reflexivity|]. split; [split; [reflexivity | discriminate]|].
      split; [discriminate|]. split; [discriminate|]. split; [discriminate|].
      apply Hlast. intros Hend. specialize (Hexport Hend).
      destruct (export F (db_heap (pool fmt)) (db_rows (pool fmt)))
        as [[out|e']|pushed]; [now destruct Hexport | exact I | discriminate].
    + split; [reflexivity|]. split; [split; [reflexivity | discriminate]|].
      split; [discriminate|].
      split; [intros e' He'; injection He' as <-; exact Hcause|].
      split; [discriminate|].
      apply Hlast. intros Hend. specialize (Hexport Hend).
      destruct (export F (db_heap (pool fmt)) (db_rows (pool fmt)))
        as [[out|e']|pushed]; [now destruct Hexport | exact I | discriminate].
    + split; [reflexivity|]. split; [split; [reflexivity | discriminate]|].
      split; [discriminate|]. split; [discriminate|].
      split; [intros _; exact Hcause|].
      apply Hlast. intros Hend. specialize (Hexport Hend).
      destruct (export F (db_heap (pool fmt)) (db_rows (pool fmt)))
        as [[out|e']|pushed]; [now destruct Hexport | exact I | reflexivity].
  - intros _. cbn.
    split; [reflexivity|].
    split; [split; [reflexivity | intros H; now injection H as <-]|].
    split; [discriminate|]. split; [discriminate|]. split; [discriminate|].
    intros F0 _ HF0. discriminate.
Qed.

Section IndexLoopFacts.

Variable writer : Type.
Variable openStream : schema -> reply (writer * list string).
Variable appendRow : writer -> props string -> reply (writer * list string).
Variable close : writer -> reply (list string).
Variable heapUsed : nat -> nat.
Variable elapsed : string -> string.
Variable gc_exposed : bool.
Variable pool : string -> db_run.

Lemma index_loop_step (fmt : string) (formats : list string)
    (results : list Index.report) (p : process Index.report) :
  Index.loop writer openStream appendRow close heapUsed elapsed gc_exposed pool
    (fmt :: formats) results p
  = match Index.verdict writer openStream appendRow close heapUsed elapsed pool fmt
    with
    | Resolved rep =>
        Index.loop writer openStream appendRow close heapUsed elapsed gc_exposed
          pool formats (results ++ [rep])%list
          (after_index_run gc_exposed pool p fmt [])
    | Rejected e =>
        Index.loop writer openStream appendRow close heapUsed elapsed gc_exposed
          pool formats results
          (after_index_run gc_exposed pool p fmt [("Failed " ++ fmt ++ ":", e)])
    | Crashed e => (after_run gc_exposed p fmt (pworld p), Crashed e)
    | Pending => (after_run gc_exposed p fmt (pworld p), Pending)
    end.
Proof.
  cbn [Index.loop].
  unfold abind at 1 2 3 4, log, forceGC, sleep, try_catch, in_world.
  cbn [pworld console_log error_lines tables gc_runs timeouts pool_ended].
  unfold abind at 1.
  rewrite index_measureExport_world. fold (Index.verdict writer openStream
    appendRow close heapUsed elapsed pool fmt).
  unfold after_index_run, after_run, connected, log_error, aret, abind.
  destruct (Index.verdict writer openStream appendRow close heapUsed elapsed pool
              fmt) as [rep|e|e|];
    destruct (db_connect (pool fmt)) as [[]|e0];
    cbn [pworld console_log error_lines tables gc_runs timeouts pool_ended];
    rewrite ?List.app_nil_r; reflexivity.
Qed.

Lemma index_loop_runs :
  forall (formats : list string) (results : list Index.report)
         (p : process Index.report),
    exists p' r,
      Index.loop writer openStream appendRow close heapUsed elapsed gc_exposed pool
        formats results p = (p', r)
      /\ tables p' = tables p
      /\ pool_ended p' = pool_ended p
      /\ console_errors (pworld p') = console_errors (pworld p)
      /\ match r with
         | Resolved all =>
             all = (results
                      ++ Index.reports_of writer openStream appendRow close
                           heapUsed elapsed pool formats)%list
             /\ console_log p'
                = (console_log p ++ map benchmarking_line formats)%list
             /\ error_lines p'
                = (error_lines p
                     ++ Index.failures_of writer openStream appendRow close
                          heapUsed elapsed pool formats)%list
             /\ gc_runs p'
                = (if gc_exposed then gc_runs p + List.length formats
                   else gc_runs p)
             /\ timeouts p' = (timeouts p ++ repeat 200 (List.length formats))%list
             /\ released (pworld p')
                = released (pworld p)
                  + List.length (filter (connected pool) formats)
         | Rejected e => False
         | Crashed e =>
             exists done fmt rest,
               formats = (done ++ fmt :: rest)%list
               /\ Index.verdict writer openStream appendRow close heapUsed elapsed
                    pool fmt = Crashed e
               /\ console_log p'
                  = (console_log p ++ map benchmarking_line (done ++ [fmt]))%list
               /\ released (pworld p')
                  = released (pworld p)
                    + List.length (filter (connected pool) done)
         | Pending =>
             exists done fmt rest,
               formats = (done ++ fmt :: rest)%list
               /\ Index.verdict writer openStream appendRow close heapUsed elapsed
                    pool fmt = Pending
               /\ console_log p'
                  = (console_log p ++ map benchmarking_line (done ++ [fmt]))%list
               /\ released (pworld p')
                  = released (pworld p)
                    + List.length (filter (connected pool) done)
         end.
Proof.
  induction formats as [|fmt formats IH]; intros results p.
  - exists p, (Resolved results). cbn. rewrite !List.app_nil_r.
    repeat split; try lia. destruct gc_exposed; lia.
  - rewrite index_loop_step.
    unfold Index.reports_of, Index.failures_of. cbn [flat_map filter].
    fold (Index.reports_of writer openStream appendRow close heapUsed elapsed pool
            formats).
    fold (Index.failures_of writer openStream appendRow close heapUsed elapsed
            pool formats).
    destruct (Index.verdict writer openStream appendRow close heapUsed elapsed pool
                fmt) as [rep|e|e|] eqn:Hv.
    + destruct (IH (results ++ [rep])%list (after_index_run gc_exposed pool p fmt []))
        as [p' [r [Hloop [Htb [Hpe [Hce Hout]]]]]].
      exists p', r. split; [exact Hloop|].
      cbn [after_index_run pworld console_log error_lines tables gc_runs timeouts
             pool_ended] in *.
      split; [assumption|]. split; [assumption|].
      split; [rewrite Hce; now destruct (connected pool fmt)|].
      destruct r as [all|e|e|]; [|exact Hout| |].
      * destruct Hout as [-> [Hlog [Herr [Hgc [Hto Hrel]]]]].
        split; [now rewrite <- app_assoc|].
        split; [rewrite Hlog; cbn [map]; now rewrite <- app_assoc|].
        split; [rewrite Herr; now rewrite List.app_nil_r|].
        split; [rewrite Hgc; destruct gc_exposed; simpl; lia|].
        split; [rewrite Hto; cbn [List.length repeat]; now rewrite <- app_assoc|].
        rewrite Hrel. destruct (connected pool fmt); simpl; lia.
      * destruct Hout as [done [f [rest [-> [Hcrash [Hlog Hrel]]]]]].
        exists (fmt :: done), f, rest. split; [reflexivity|].
        split; [exact Hcrash|].
        split; [rewrite Hlog; cbn [map app]; now rewrite <- app_assoc|].
        rewrite Hrel. cbn [filter]. destruct (connected pool fmt); simpl; lia.
      * destruct Hout as [done [f [rest [-> [Hcrash [Hlog Hrel]]]]]].
        exists (fmt :: done), f, rest. split; [reflexivity|].
        split; [exact Hcrash|].
        split; [rewrite Hlog; cbn [map app]; now rewrite <- app_assoc|].
        rewrite Hrel. cbn [filter]. destruct (connected pool fmt); simpl; lia.
    + destruct (IH results
                  (after_index_run gc_exposed pool p fmt
                     [("Failed " ++ fmt ++ ":", e)]))
        as [p' [r [Hloop [Htb [Hpe [Hce Hout]]]]]].
      exists p', r. split; [exact Hloop|].
      cbn [after_index_run pworld console_log error_lines tables gc_runs timeouts
             pool_ended] in *.
      split; [assumption|]. split; [assumption|].
      split; [rewrite Hce; now destruct (connected pool fmt)|].
      destruct r as [all|e'|e'|]; [|exact Hout| |].
      * destruct Hout as [-> [Hlog [Herr [Hgc [Hto Hrel]]]]].
        split; [reflexivity|].
        split; [rewrite Hlog; cbn [map]; now rewrite <- app_assoc|].
        split; [rewrite Herr; cbn [app]; now rewrite <- app_assoc|].
        split; [rewrite Hgc; destruct gc_exposed; simpl; lia|].
        split; [rewrite Hto; cbn [List.length repeat]; now rewrite <- app_assoc|].
        rewrite Hrel. destruct (connected pool fmt); simpl; lia.
      * destruct Hout as [done [f [rest [-> [Hcrash [Hlog Hrel]]]]]].
        exists (fmt :: done), f, rest. split; [reflexivity|].
        split; [exact Hcrash|].
        split; [rewrite Hlog; cbn [map app]; now rewrite <- app_assoc|].
        rewrite Hrel. cbn [filter]. destruct (connected pool fmt); simpl; lia.
      * destruct Hout as [done [f [rest [-> [Hcrash [Hlog Hrel]]]]]].
        exists (fmt :: done), f, rest. split; [reflexivity|].
        split; [exact Hcrash|].
        split; [rewrite Hlog; cbn [map app]; now rewrite <- app_assoc|].
        rewrite Hrel. cbn [filter]. destruct (connected pool fmt); simpl; lia.
    + eexists _, _. split; [reflexivity|]. cbn.
      repeat split.
      exists [], fmt, formats. cbn. repeat split; [assumption | lia].
    + eexists _, _. split; [reflexivity|]. cbn.
      repeat split.
      exists [], fmt, formats. cbn. repeat split; [assumption | lia].
Qed.

End IndexLoopFacts.

(** X17 -- the driver of [index.js] never rejects.  When the first query
    fails it logs the failure as fatal, starts no export and ends the pool.
    Otherwise it starts the formats in order whatever the earlier ones
    came to: a run that rejects is logged and the loop goes on.  When every
    run has settled, the table printed at the end holds the reports of the
    runs that resolved, in order; every client obtained was released; and
    the pool is ended exactly once.  Two things stop the driver early, with
    the pool not ended and no table printed: an exception that escapes a
    formatter, which happens in the csv or the xml run, on a row with a
    value that does not normalize; and a run that never settles, which is
    the parquet run, waiting in a step of its writer. *)
Theorem index_main_attempts_every_format :
  forall (writer : Type)
         (openStream : schema -> reply (writer * list string))
         (appendRow : writer -> props string -> reply (writer * list string))
         (close : writer -> reply (list string))
         (heapUsed : nat -> nat) (elapsed : string -> string)
         (gc_exposed : bool) (pool : string -> db_run) (db_ready : result unit)
         (p : process Index.report),
    exists p' r,
      Index.main writer openStream appendRow close heapUsed elapsed gc_exposed pool
        db_ready p = (p', r)
      /\ console_errors (pworld p') = console_errors (pworld p)
      /\ match db_ready, r with
         | Throw e, _ =>
             r = Resolved tt
             /\ console_log p'
                = (console_log p ++ [Index.opening_line])%list
             /\ error_lines p' = (error_lines p ++ [("Fatal:", e)])%list
             /\ tables p' = tables p
             /\ released (pworld p') = released (pworld p)
             /\ pool_ended p' = S (pool_ended p)
         | Ok _, Resolved _ =>
             console_log p'
             = (console_log p
                  ++ Index.opening_line
                       :: map benchmarking_line ["csv"; "json"; "xml"; "parquet"])%list
             /\ error_lines p'
                = (error_lines p
                     ++ Index.failures_of writer openStream appendRow close
                          heapUsed elapsed pool
                          ["csv"; "json"; "xml"; "parquet"])%list
             /\ tables p'
                = (tables p
                     ++ [Index.reports_of writer openStream appendRow close
                           heapUsed elapsed pool
                           ["csv"; "json"; "xml"; "parquet"]])%list
             /\ released (pworld p')
                = released (pworld p)
                  + List.length (filter (connected pool)
                                   ["csv"; "json"; "xml"; "parquet"])
             /\ pool_ended p' = S (pool_ended p)
         | Ok _, Rejected _ => False
         | Ok _, Crashed e =>
             (exists fmt,
                 (fmt = "csv" \/ fmt = "xml")
                 /\ Index.verdict writer openStream appendRow close heapUsed
                      elapsed pool fmt = Crashed e
                 /\ exists r, In r (db_rows (pool fmt))
                              /\ normalized Index.columns (db_heap (pool fmt)) r
                                 = Throw e)
             /\ tables p' = tables p
             /\ pool_ended p' = pool_ended p
         | Ok _, Pending =>
             Index.verdict writer openStream appendRow close heapUsed
               elapsed pool "parquet" = Pending
             /\ (exists pushed,
                    openStream (parquet_schema_defs Index.columns) = Silent pushed
                    \/ (exists w row, appendRow w row = Silent pushed)
                    \/ (exists w, close w = Silent pushed))
             /\ console_log p'
                = (console_log p
                     ++ Index.opening_line
                          :: map benchmarking_line
                               ["csv"; "json"; "xml"; "parquet"])%list
             /\ released (pworld p')
                = released (pworld p)
                  + List.length (filter (connected pool) ["csv"; "json"; "xml"])
             /\ tables p' = tables p
             /\ pool_ended p' = pool_ended p
         end.
Proof.
  intros writer openStream appendRow close heapUsed elapsed gc_exposed pool
    db_ready p.
  unfold Index.main, abind at 1, log.
  unfold try_finally, try_catch, abind at 1, in_world, lift.
  cbn [pworld console_log error_lines tables gc_runs timeouts pool_ended].
  destruct db_ready as [[]|e].
  - unfold abind at 1.
    match goal with
    | |- context [Index.loop _ _ _ _ _ _ _ _ ?fs ?rs ?q] =>
        destruct (index_loop_runs writer openStream appendRow close heapUsed
                    elapsed gc_exposed pool fs rs q)
          as [p' [r [Hloop [Htb [Hpe [Hce Hout]]]]]]
    end.
    rewrite Hloop.
    cbn [pworld console_log error_lines tables gc_runs timeouts pool_ended] in *.
    destruct r as [all|e|e|]; [|destruct Hout| |].
    + destruct Hout as [-> [Hlog [Herr [_ [_ Hrel]]]]].
      eexists _, _. split; [reflexivity|]. cbn. split; [assumption|].
      split; [rewrite Hlog; now rewrite <- app_assoc|].
      split; [assumption|]. split; [now rewrite Htb|].
      split; [assumption | now rewrite Hpe].
    + destruct Hout as [done [fmt [rest [Hsplit [Hcrash _]]]]].
      eexists _, _. split; [reflexivity|].
      split; [assumption|]. split; [|split; assumption].
      exists fmt.
      pose proof (index_unsettled_cause writer openStream appendRow close heapUsed
                    elapsed pool fmt Index.columns) as Hcause.
      fold (Index.verdict writer openStream appendRow close heapUsed elapsed pool
              fmt) in Hcause.
      rewrite Hcrash in Hcause. destruct Hcause as [Hfmt [_ Hrow]].
      split; [exact Hfmt|]. split; [exact Hcrash | exact Hrow].
    + destruct Hout as [done [fmt [rest [Hsplit [Hstall [Hlog Hrel]]]]]].
      pose proof (index_unsettled_cause writer openStream appendRow close heapUsed
                    elapsed pool fmt Index.columns) as Hcause.
      fold (Index.verdict writer openStream appendRow close heapUsed elapsed pool
              fmt) in Hcause.
      rewrite Hstall in Hcause. destruct Hcause as [-> Hstep].
      assert (done = ["csv"; "json"; "xml"] /\ rest = []) as [-> ->].
      { destruct done as [|a [|b [|c [|d done]]]]; cbn in Hsplit;
          try discriminate.
        - injection Hsplit as <- <- <- <-. now split.
        - injection Hsplit as _ _ _ _ Hnil.
          destruct done; discriminate. }
      eexists _, _. split; [reflexivity|].
      split; [assumption|].
      split; [exact Hstall|]. split; [exact Hstep|].
      split; [rewrite Hlog; now rewrite <- app_assoc|].
      split; [exact Hrel|]. split; assumption.
  - eexists _, _. split; [reflexivity|]. cbn. now repeat split.
Qed.

(** A run that rejects is logged and the loop goes on: with no row in the
    table the writer of the examples refuses to close, and the failure of
    the parquet run is logged like the others. *)
Example index_main_goes_on_after_a_failure :
  Index.main nat sample_open sample_append sample_close
    (fun _ => 3 * 1024 * 1024) (fun _ => "0.0100") false
    (fun fmt =>
       {| db_connect := if String.eqb fmt "xml"
                        then Throw (ExternalError "too many clients") else Ok tt;
          db_rows := [];
          db_heap := [];
          db_end := if String.eqb fmt "csv"
                    then Some (ExternalError "connection lost") else None;
          db_timing := sink_keeps_up 1 |})
    (Ok tt)
    {| pworld := {| released := 0; console_errors := [] |};
       console_log := []; error_lines := []; tables := []; gc_runs := 0;
       timeouts := []; pool_ended := 0 |}
  = ({| pworld := {| released := 3; console_errors := [] |};
        console_log := [ Index.opening_line; "Benchmarking csv...";
                         "Benchmarking json..."; "Benchmarking xml...";
                         "Benchmarking parquet..." ];
        error_lines := [ ("Failed csv:", ExternalError "connection lost");
                         ("Failed xml:", ExternalError "too many clients");
                         ("Failed parquet:", ExternalError "no rows") ];
        tables := [ [ {| Index.format := "json"; Index.duration := "0.0100s";
                         Index.size := "0.00 MB"; Index.memory := "0 MB" |} ] ];
        gc_runs := 0; timeouts := [200; 200; 200; 200]; pool_ended := 1 |},
     Resolved tt).
Proof. reflexivity. Qed.

(** With rows in the table the parquet run of the examples waits for its
    writer: the driver prints no table and does not end the pool. *)
Example index_main_waits_for_parquet :
  Index.main nat sample_open sample_append sample_close
    (fun _ => 3 * 1024 * 1024) (fun _ => "0.0100") false
    (fun fmt =>
       {| db_connect := Ok tt;
          db_rows := [[("id", VNumber (of_Z 1))]];
          db_heap := [];
          db_end := None;
          db_timing := sink_keeps_up 2 |})
    (Ok tt)
    {| pworld := {| released := 0; console_errors := [] |};
       console_log := []; error_lines := []; tables := []; gc_runs := 0;
       timeouts := []; pool_ended := 0 |}
  = ({| pworld := {| released := 3; console_errors := [] |};
        console_log := [ Index.opening_line; "Benchmarking csv...";
                         "Benchmarking json..."; "Benchmarking xml...";
                         "Benchmarking parquet..." ];
        error_lines := []; tables := []; gc_runs := 0;
        timeouts := [200; 200; 200; 200]; pool_ended := 0 |},
     Pending).
Proof. reflexivity. Qed.

(** ** The figures of a report *)

Example report_figures_examples :
  map fileSizeMB [0; 93; 5000 + 242; 5000 + 243; 1024 * 1024; 1536 * 1024]
  = ["0.00"; "0.00"; "0.00"; "0.01"; "1.00"; "1.50"]
  /\ map rounded_MB [0; 5000 + 243; 1024 * 1024; 1536 * 1024; 1300 * 1024]
     = ["0"; "0.01"; "1"; "1.5"; "1.27"].
Proof. split; reflexivity. Qed.

Lemma decimal_value_acc (d : Decimal.uint) :
  forall acc : positive,
    decimal_value (NilEmpty.string_of_uint d) (N.pos acc)
    = N.pos (Pos.of_uint_acc d acc).
Proof.
  induction d; intros acc; cbn [NilEmpty.string_of_uint decimal_value Pos.of_uint_acc];
    try reflexivity;
    rewrite <- IHd; f_equal;
    match goal with
    | |- context [N.of_nat ?t] =>
        let v := eval vm_compute in (N.of_nat t) in change (N.of_nat t) with v
    end; lia.
Qed.

Lemma decimal_value_of_uint (d : Decimal.uint) :
  decimal_value (NilEmpty.string_of_uint d) 0 = Pos.of_uint d.
Proof.
  induction d; cbn [NilEmpty.string_of_uint decimal_value Pos.of_uint];
    try reflexivity; try exact IHd;
    rewrite <- decimal_value_acc; f_equal.
Qed.

Lemma decimal_value_digits_of (n : N) : decimal_value (digits_of n) 0 = n.
Proof.
  unfold digits_of. rewrite decimal_value_of_uint.
  exact (DecimalN.Unsigned.of_to n).
Qed.

Lemma decimal_value_zeros (k : nat) (s : string) :
  decimal_value (repeat_char "0" k ++ s) 0 = decimal_value s 0.
Proof. induction k as [|k IH]; [reflexivity | exact IH]. Qed.

Lemma length_repeat_char (c : ascii) (k : nat) : String.length (repeat_char c k) = k.
Proof. induction k as [|k IH]; simpl; congruence. Qed.

Lemma length_str_drop (n : nat) (s : string) :
  String.length (str_drop n s) = String.length s - n.
Proof.
  revert s. induction n as [|n IH]; intros [|c s]; simpl; try reflexivity.
  apply IH.
Qed.

(** X18 -- the size in megabytes that a report shows is written with
    digits, a point and exactly two digits after it; read without the
    point it is the number of hundredths of a megabyte nearest to the byte
    count, so the figure is off by at most half a hundredth. *)
Theorem fileSizeMB_is_two_decimals :
  forall bytesWritten : nat,
    exists whole cents,
      fileSizeMB bytesWritten = whole ++ "." ++ cents
      /\ whole <> EmptyString
      /\ String.length cents = 2
      /\ str_forall is_digit whole = true
      /\ str_forall is_digit cents = true
      /\ decimal_value (whole ++ cents) 0
         = hundredths_of_MB (N.of_nat bytesWritten)
      /\ (100 * Z.of_nat bytesWritten - 524288
          < 1048576 * Z.of_N (hundredths_of_MB (N.of_nat bytesWritten))
          <= 100 * Z.of_nat bytesWritten + 524288)%Z.
Proof.
  intros bytesWritten. unfold fileSizeMB, fixed2.
  set (n := hundredths_of_MB (N.of_nat bytesWritten)).
  set (m := if (String.length (digits_of n) <=? 2)%nat
            then repeat_char "0" (3 - String.length (digits_of n)) ++ digits_of n
            else digits_of n).
  assert (Hlen : 3 <= String.length m).
  { unfold m. destruct (Nat.leb_spec (String.length (digits_of n)) 2) as [Hle | Hgt].
    - rewrite length_append, length_repeat_char. lia.
    - lia. }
  assert (Hdig : str_forall is_digit m = true).
  { unfold m. destruct (String.length (digits_of n) <=? 2)%nat.
    - now rewrite str_forall_append, str_forall_repeat_zero, digits_of_digits.
    - apply digits_of_digits. }
  assert (Hval : decimal_value m 0 = n).
  { unfold m. destruct (String.length (digits_of n) <=? 2)%nat.
    - now rewrite decimal_value_zeros, decimal_value_digits_of.
    - apply decimal_value_digits_of. }
  exists (str_take (String.length m - 2) m), (str_drop (String.length m - 2) m).
  split; [reflexivity|]. split; [|split; [|split; [|split; [|split]]]].
  - clearbody m. destruct m as [|c m']; [simpl in Hlen; lia|].
    cbn [String.length] in *.
    destruct (String.length m' - 1) as [|k] eqn:Hk; [lia|].
    replace (S (String.length m') - 2) with (S k) by lia.
    discriminate.
  - rewrite length_str_drop. lia.
  - now apply str_forall_take.
  - now apply str_forall_drop.
  - now rewrite str_take_drop.
  - unfold n, hundredths_of_MB. rewrite N2Z.inj_div, N2Z.inj_add, N2Z.inj_mul.
    rewrite nat_N_Z. change (Z.of_N 100) with 100%Z.
    change (Z.of_N 524288) with 524288%Z. change (Z.of_N 1048576) with 1048576%Z.
    pose proof (Z.div_mod (100 * Z.of_nat bytesWritten + 524288) 1048576
                  ltac:(lia)) as Hdm.
    pose proof (Z.mod_pos_bound (100 * Z.of_nat bytesWritten + 524288) 1048576
                  ltac:(lia)) as Hb.
    lia.
Qed.

(** * Properties of [seed.js] *)

(** ** Integers in a template *)

Lemma strip_zeros_parts (s : string) :
  s = fst (strip_zeros s) ++ repeat_char "0" (snd (strip_zeros s)).
Proof.
  induction s as [|c s IH]; [reflexivity|]. simpl.
  destruct (strip_zeros s) as [t z]. cbn [fst snd] in IH.
  destruct t as [|a t].
  - destruct (Ascii.eqb_spec c "0") as [-> | _]; cbn [fst snd append].
    + simpl in IH. now rewrite IH at 1.
    + simpl in IH. now rewrite IH at 1.
  - cbn [fst snd append]. now rewrite IH at 1.
Qed.

Lemma decimal_value_grows (s : string) :
  forall acc : N, (acc * 10 ^ N.of_nat (String.length s) <= decimal_value s acc)%N.
Proof.
  induction s as [|c s IH]; intros acc.
  - simpl. lia.
  - cbn [decimal_value String.length]. rewrite Nat2N.inj_succ, N.pow_succ_r'.
    specialize (IH (10 * acc + N.of_nat (nat_of_ascii c - 48))%N).
    etransitivity; [|exact IH].
    rewrite N.mul_assoc. apply N.mul_le_mono_r. lia.
Qed.

Lemma digits_of_length (m : N) (k : nat) :
  (m < 10 ^ N.of_nat k)%N -> String.length (digits_of m) <= Nat.max 1 k.
Proof.
  intros Hm. destruct (N.eq_dec m 0) as [-> | Hnz].
  { change (String.length (digits_of 0)) with 1. lia. }
  destruct (digits_of_head m Hnz) as [c [ds [Hd Hc]]].
  pose proof (decimal_value_digits_of m) as Hval.
  pose proof (digits_of_digits m) as Hdig.
  rewrite Hd in Hval, Hdig |- *. cbn [decimal_value str_forall String.length] in *.
  apply andb_prop in Hdig. destruct Hdig as [Hcd _].
  assert (Hone : (1 <= 10 * 0 + N.of_nat (nat_of_ascii c - 48))%N).
  { clear -Hcd Hc. destruct c as [[] [] [] [] [] [] [] []]; try discriminate;
      vm_compute; discriminate. }
  pose proof (decimal_value_grows ds (10 * 0 + N.of_nat (nat_of_ascii c - 48))%N)
    as Hgrow.
  rewrite Hval in Hgrow.
  assert (Hpow : (10 ^ N.of_nat (String.length ds) < 10 ^ N.of_nat k)%N).
  { eapply N.le_lt_trans; [|exact Hm].
    etransitivity; [|exact Hgrow].
    rewrite <- (N.mul_1_l (10 ^ _)) at 1. now apply N.mul_le_mono_r. }
  apply N.pow_lt_mono_r_iff in Hpow; lia.
Qed.

(** An integer below 10^21 is interpolated as its decimal numeral. *)
Lemma number_text_digits (k : N) :
  (k < 10 ^ 21)%N -> Seed.number_text k = digits_of k.
Proof.
  intros Hk. unfold Seed.number_text, of_Z. rewrite Zabs2N.id.
  replace (Z.of_N k <? 0)%Z with false by (symmetry; apply Z.ltb_ge; lia).
  destruct k as [|p]; [reflexivity|]. unfold Number_toString.
  pose proof (strip_zeros_parts (digits_of (N.pos p))) as Hparts.
  pose proof (digits_of_length (N.pos p) 21 Hk) as Hlen.
  destruct (strip_zeros (digits_of (N.pos p))) as [ds z]. cbn [fst snd] in Hparts.
  rewrite Hparts, length_append, length_repeat_char in Hlen.
  change (Nat.max 1 21) with 21 in Hlen.
  unfold positive_to_string.
  replace ((Z.of_nat (String.length ds)
              <=? 0 + Z.of_nat z + Z.of_nat (String.length ds))
           && (0 + Z.of_nat z + Z.of_nat (String.length ds) <=? 21))%Z
    with true
    by (symmetry; apply andb_true_intro; split; apply Z.leb_le; lia).
  replace (Z.to_nat (0 + Z.of_nat z + Z.of_nat (String.length ds)
                     - Z.of_nat (String.length ds))) with z by lia.
  now rewrite Hparts.
Qed.

(** ** The tuples *)

Lemma seed_meta_text (k : N) : Seed.meta k = Ok (meta_text k).
Proof.
  unfold Seed.meta, JSON_stringify_fresh, fresh_object_json, meta_text,
    Seed.number_text, of_Z.
  cbn [ser_members to_json enough_fuel List.length is_finite bind json_print map
         fst snd String.concat json_quote json_escape].
  reflexivity.
Qed.

Lemma seed_value_tuple (random1000 : N -> N) (k : N) :
  Seed.value_tuple random1000 k = Ok (tuple_text random1000 k).
Proof. unfold Seed.value_tuple. now rewrite seed_meta_text. Qed.

Lemma includes_append (c : ascii) (s1 s2 : string) :
  includes c (s1 ++ s2) = (includes c s1 || includes c s2)%bool.
Proof.
  induction s1 as [|a s1 IH]; [reflexivity|]. simpl.
  destruct (Ascii.eqb a c); [reflexivity | exact IH].
Qed.

(** X19 -- the tuple that the seeding script writes for the row of index
    [k] (below 2^53, so that a number holds it exactly; the script stays
    below 100000) names the record by the decimal numeral of [k] and
    carries as metadata a JSON text that reads back as the object with the
    tag test and the index [k]; the text holds no apostrophe, so it stays
    inside the SQL string literal the script wraps around it. *)
Theorem seed_tuple_is_well_formed :
  forall (random1000 : N -> N) (k : N),
    (k < 2 ^ 53)%N ->
    Seed.meta k
    = Ok ("{" ++ dq ++ "tag" ++ dq ++ ":" ++ dq ++ "test" ++ dq ++ "," ++ dq
            ++ "index" ++ dq ++ ":" ++ digits_of k ++ "}")
    /\ JSON_parse (meta_text k)
       = Some (JObj [("tag", JStr "test"); ("index", JNum (digits_of k))])
    /\ includes "'" (meta_text k) = false
    /\ Seed.value_tuple random1000 k
       = Ok ("('Record_" ++ digits_of k ++ "', "
               ++ Seed.number_text (random1000 k) ++ ", '" ++ meta_text k
               ++ "'::jsonb)")
    /\ ((random1000 k < 1000)%N ->
        Seed.number_text (random1000 k) = digits_of (random1000 k)
        /\ String.length (digits_of (random1000 k)) <= 3).
Proof.
  intros random1000 k Hk.
  assert (Hk21 : (k < 10 ^ 21)%N) by (eapply N.lt_trans; [exact Hk | reflexivity]).
  pose proof (number_text_digits k Hk21) as Hnum.
  split; [|split; [|split; [|split]]].
  - rewrite seed_meta_text. unfold meta_text. now rewrite Hnum.
  - assert (Htext : meta_text k
                    = json_print (JObj [("tag", JStr "test");
                                        ("index", JNum (digits_of k))])).
    { unfold meta_text. now rewrite Hnum. }
    rewrite Htext. apply JSON_parse_print. cbn [json_wf forallb snd].
    rewrite <- Hnum. unfold Seed.number_text.
    now rewrite (Number_toString_token (of_Z (Z.of_N k)) eq_refl).
  - unfold meta_text. rewrite Hnum.
    change ("{" ++ dq ++ "tag" ++ dq ++ ":" ++ dq ++ "test" ++ dq ++ "," ++ dq
              ++ "index" ++ dq ++ ":" ++ digits_of k ++ "}")
      with (("{" ++ dq ++ "tag" ++ dq ++ ":" ++ dq ++ "test" ++ dq ++ "," ++ dq
               ++ "index" ++ dq ++ ":") ++ digits_of k ++ "}").
    rewrite !includes_append.
    rewrite (plain_text_includes (digits_of k) "'"
               (digits_plain _ (digits_of_digits k)) eq_refl).
    reflexivity.
  - rewrite seed_value_tuple. unfold tuple_text. now rewrite Hnum.
  - intros Hr. split.
    + apply number_text_digits. eapply N.lt_trans; [exact Hr|]. reflexivity.
    + exact (digits_of_length (random1000 k) 3 Hr).
Qed.

Lemma seed_tuple_is_well_formed_witness :
  Seed.meta 42
  = Ok ("{" ++ dq ++ "tag" ++ dq ++ ":" ++ dq ++ "test" ++ dq ++ "," ++ dq
          ++ "index" ++ dq ++ ":" ++ digits_of 42 ++ "}")
  /\ JSON_parse (meta_text 42)
     = Some (JObj [("tag", JStr "test"); ("index", JNum (digits_of 42))])
  /\ includes "'" (meta_text 42) = false
  /\ Seed.value_tuple (fun _ => 7%N) 42
     = Ok ("('Record_" ++ digits_of 42 ++ "', "
             ++ Seed.number_text 7 ++ ", '" ++ meta_text 42 ++ "'::jsonb)")
  /\ ((7 < 1000)%N ->
      Seed.number_text 7 = digits_of 7 /\ String.length (digits_of 7) <= 3).
Proof.
  exact (seed_tuple_is_well_formed (fun _ => 7%N) 42 eq_refl).
Defined.

Example seed_tuple_example :
  Seed.value_tuple (fun _ => 7%N) 42
  = Ok ("('Record_42', 7, '{" ++ dq ++ "tag" ++ dq ++ ":" ++ dq ++ "test" ++ dq
          ++ "," ++ dq ++ "index" ++ dq ++ ":42}'::jsonb)").
Proof. reflexivity. Qed.

(** ** The statements *)

Section SeedFacts.

Variable exec : nat -> string -> result unit.
Variable random1000 : N -> N.

Lemma seed_insert_statement (batch i : N) :
  Seed.insert_statement random1000 batch i = Ok (insert_text random1000 batch i).
Proof.
  unfold Seed.insert_statement, insert_text, batch_rows.
  assert (H : forall l,
             mapM (fun j => Seed.value_tuple random1000 (i + j)) l
             = Ok (map (tuple_text random1000) (map (fun j => (i + j)%N) l))).
  { induction l as [|j l IH]; [reflexivity|].
    cbn [mapM map]. now rewrite seed_value_tuple, IH. }
  now rewrite H.
Qed.

(** One turn of the loop. *)
Lemma seed_insert_loop_step (fuel : nat) (total batch i : N) (s : Seed.seeding) :
  (i < total)%N ->
  Seed.insert_loop exec random1000 (S fuel) total batch i s
  = match exec (List.length (Seed.sent s)) (insert_text random1000 batch i) with
    | Ok _ =>
        Seed.insert_loop exec random1000 fuel total batch (i + batch)
          {| Seed.sent := (Seed.sent s ++ [insert_text random1000 batch i])%list;
             Seed.seed_log := Seed.seed_log s;
             Seed.seed_errors := Seed.seed_errors s;
             Seed.seed_released := Seed.seed_released s;
             Seed.seed_ended := Seed.seed_ended s |}
    | Throw e =>
        ({| Seed.sent := (Seed.sent s ++ [insert_text random1000 batch i])%list;
            Seed.seed_log := Seed.seed_log s;
            Seed.seed_errors := Seed.seed_errors s;
            Seed.seed_released := Seed.seed_released s;
            Seed.seed_ended := Seed.seed_ended s |}, Rejected e)
    end.
Proof.
  intros Hi. apply N.ltb_lt in Hi. cbn [Seed.insert_loop]. rewrite Hi.
  unfold abind, Seed.client_query. rewrite seed_insert_statement.
  destruct (exec (List.length (Seed.sent s)) (insert_text random1000 batch i));
    reflexivity.
Qed.

(** The loop sends the statements of successive batches until the database
    refuses one or the rows are used up; it does not run out of fuel. *)
Lemma seed_insert_loop_runs :
  forall (fuel : nat) (total batch i : N) (s : Seed.seeding),
    (0 < batch)%N ->
    N.to_nat (total - i) <= fuel ->
    exists s' r n,
      Seed.insert_loop exec random1000 fuel total batch i s = (s', r)
      /\ Seed.sent s'
         = (Seed.sent s
              ++ map (insert_text random1000 batch) (batch_starts n batch i))%list
      /\ Seed.seed_log s' = Seed.seed_log s
      /\ Seed.seed_errors s' = Seed.seed_errors s
      /\ Seed.seed_released s' = Seed.seed_released s
      /\ Seed.seed_ended s' = Seed.seed_ended s
      /\ (forall start, In start (batch_starts n batch i) -> (start < total)%N)
      /\ match r with
         | Resolved _ =>
             (total <= i + batch * N.of_nat n)%N
             /\ forall m text,
                 nth_error (map (insert_text random1000 batch)
                              (batch_starts n batch i)) m = Some text ->
                 exec (List.length (Seed.sent s) + m) text = Ok tt
         | Rejected e =>
             refused_at exec (List.length (Seed.sent s))
               (map (insert_text random1000 batch) (batch_starts n batch i)) e
         | Crashed _ | Pending => False
         end.
Proof.
  induction fuel as [|fuel IH]; intros total batch i s Hbatch Hfuel.
  - assert (Hdone : (i <? total)%N = false) by (apply N.ltb_ge; lia).
    exists s, (Resolved tt), 0. cbn [Seed.insert_loop]. rewrite Hdone.
    cbn [batch_starts map]. rewrite List.app_nil_r.
    do 6 (split; [reflexivity|]). split; [intros start []|].
    split; [apply N.ltb_ge in Hdone; lia|].
    intros m text Hm. destruct m; discriminate.
  - destruct (N.ltb_spec i total) as [Hi | Hi].
    + rewrite (seed_insert_loop_step fuel total batch i s Hi).
      destruct (exec (List.length (Seed.sent s)) (insert_text random1000 batch i))
        as [[]|e] eqn:Hexec.
      * match goal with
        | |- context [Seed.insert_loop _ _ fuel total batch (i + batch)%N ?q] =>
            destruct (IH total batch (i + batch)%N q Hbatch)
              as [s' [r [n [Hloop [Hsent [Hlog [Herr [Hrel [Hend [Hlt Hout]]]]]]]]]];
              [lia|]
        end.
        cbn [Seed.sent Seed.seed_log Seed.seed_errors Seed.seed_released
               Seed.seed_ended] in *.
        exists s', r, (S n). split; [exact Hloop|].
        split; [rewrite Hsent; cbn [batch_starts map]; now rewrite <- app_assoc|].
        repeat (split; [assumption|]).
        split; [intros start [<- | Hin]; [assumption | now apply Hlt]|].
        rewrite length_app in Hout. cbn [List.length] in Hout.
        destruct r as [[]|e|e|]; [| |exact Hout|exact Hout].
        -- destruct Hout as [Htotal Hacc]. split; [lia|].
           intros m text Hm. destruct m as [|m]; cbn [batch_starts map nth_error] in Hm.
           ++ injection Hm as <-. now rewrite Nat.add_0_r.
           ++ replace (List.length (Seed.sent s) + S m)
                with (List.length (Seed.sent s) + 1 + m) by lia.
              now apply Hacc.
        -- destruct Hout as [done [last [Hsplit Hrefused]]].
           exists (insert_text random1000 batch i :: done), last.
           split; [cbn [batch_starts map]; now rewrite Hsplit|].
           cbn [List.length].
           replace (List.length (Seed.sent s) + S (List.length done))
             with (List.length (Seed.sent s) + 1 + List.length done) by lia.
           exact Hrefused.
      * eexists _, _, 1. split; [reflexivity|].
        cbn [batch_starts map Seed.sent Seed.seed_log Seed.seed_errors
               Seed.seed_released Seed.seed_ended].
        do 5 (split; [reflexivity|]).
        split; [intros start [<- | []]; assumption|].
        exists [], (insert_text random1000 batch i).
        split; [reflexivity|]. cbn [List.length]. now rewrite Nat.add_0_r.
    + assert (Hdone : (i <? total)%N = false) by (apply N.ltb_ge; lia).
      exists s, (Resolved tt), 0. cbn [Seed.insert_loop]. rewrite Hdone.
      cbn [batch_starts map]. rewrite List.app_nil_r.
      do 6 (split; [reflexivity|]). split; [intros start []|].
      split; [lia|].
      intros m text Hm. destruct m; discriminate.
Qed.

End SeedFacts.

Lemma batch_starts_app (n k : nat) (batch : N) :
  forall i,
    batch_starts (n + k) batch i
    = (batch_starts n batch i
         ++ batch_starts k batch (i + batch * N.of_nat n))%list.
Proof.
  induction n as [|n IH]; intros i.
  - cbn [batch_starts Nat.add app]. f_equal. lia.
  - cbn [batch_starts Nat.add app]. rewrite IH. do 3 f_equal. lia.
Qed.

Lemma batch_starts_last (n : nat) (batch i : N) :
  In (i + batch * N.of_nat n)%N (batch_starts (S n) batch i).
Proof.
  replace (S n) with (n + 1) by lia. rewrite batch_starts_app.
  apply in_or_app. right. now left.
Qed.

Lemma count_from_app (a b : nat) :
  forall start,
    Seed.count_from start (a + b)
    = (Seed.count_from start a ++ Seed.count_from (start + N.of_nat a) b)%list.
Proof.
  induction a as [|a IH]; intros start.
  - cbn [Seed.count_from Nat.add app]. f_equal. lia.
  - cbn [Seed.count_from Nat.add app]. rewrite IH. do 3 f_equal. lia.
Qed.

Lemma count_from_shift (len : nat) :
  forall start i,
    map (fun j => (i + j)%N) (Seed.count_from start len)
    = Seed.count_from (i + start) len.
Proof.
  induction len as [|len IH]; intros start i; [reflexivity|].
  cbn [Seed.count_from map]. rewrite IH. do 2 f_equal. lia.
Qed.

(** The rows of successive batches are consecutive. *)
Lemma batch_rows_cover (batch : N) (n : nat) :
  forall i,
    flat_map (batch_rows batch) (batch_starts n batch i)
    = Seed.count_from i (n * N.to_nat batch).
Proof.
  induction n as [|n IH]; intros i; [reflexivity|].
  cbn [batch_starts flat_map Nat.mul]. rewrite IH, count_from_app.
  unfold batch_rows. rewrite count_from_shift, N.add_0_r, N2Nat.id.
  reflexivity.
Qed.

Section SeedScriptFacts.

Variable exec : nat -> string -> result unit.
Variable random1000 : N -> N.

Lemma seed_script_runs (total batch : N) (s : Seed.seeding) :
  (0 < batch)%N ->
  exists s' n stmts,
    Seed.script (Ok tt) exec random1000 total batch s = (s', Resolved tt)
    /\ Seed.seed_released s' = S (Seed.seed_released s)
    /\ Seed.seed_ended s' = S (Seed.seed_ended s)
    /\ Seed.sent s' = (Seed.sent s ++ stmts)%list
    /\ (forall start, In start (batch_starts n batch 0) -> (start < total)%N)
    /\ ((stmts = Seed.drop_table :: Seed.create_table
                   :: map (insert_text random1000 batch) (batch_starts n batch 0)
         /\ (total <= batch * N.of_nat n)%N
         /\ Seed.seed_errors s' = Seed.seed_errors s
         /\ Seed.seed_log s'
            = (Seed.seed_log s
                 ++ [Seed.seeding_line; Seed.inserting_line; Seed.done_line])%list
         /\ forall m text,
             nth_error stmts m = Some text ->
             exec (List.length (Seed.sent s) + m) text = Ok tt)
        \/ (exists e rest,
               Seed.drop_table :: Seed.create_table
                 :: map (insert_text random1000 batch) (batch_starts n batch 0)
               = (stmts ++ rest)%list
               /\ refused_at exec (List.length (Seed.sent s)) stmts e
               /\ Seed.seed_errors s' = (Seed.seed_errors s ++ [e])%list
               /\ (Seed.seed_log s' = (Seed.seed_log s ++ [Seed.seeding_line])%list
                   \/ Seed.seed_log s'
                      = (Seed.seed_log s
                           ++ [Seed.seeding_line; Seed.inserting_line])%list))).
Proof.
  intros Hbatch.
  unfold Seed.script, abind at 1, try_finally, try_catch.
  unfold abind at 1, Seed.say at 1.
  unfold abind at 1, Seed.client_query at 1.
  cbn [Seed.sent Seed.seed_log Seed.seed_errors Seed.seed_released Seed.seed_ended].
  destruct (exec (List.length (Seed.sent s)) Seed.drop_table) as [[]|e] eqn:Hdrop.
  - unfold abind at 1, Seed.client_query at 1.
    cbn [Seed.sent Seed.seed_log Seed.seed_errors Seed.seed_released
           Seed.seed_ended].
    rewrite length_app. cbn [List.length].
    destruct (exec (List.length (Seed.sent s) + 1) Seed.create_table)
      as [[]|e] eqn:Hcreate.
    + unfold abind at 1, Seed.say at 1.
      cbn [Seed.sent Seed.seed_log Seed.seed_errors Seed.seed_released
             Seed.seed_ended].
      unfold abind at 1.
      match goal with
      | |- context [Seed.insert_loop _ _ ?f total batch 0%N ?q] =>
          destruct (seed_insert_loop_runs exec random1000 f total batch 0%N q
                      Hbatch)
            as [s' [r [n [Hloop [Hsent [Hlog [Herr [Hrel [Hend [Hlt Hout]]]]]]]]]];
            [lia|]
      end.
      rewrite Hloop.
      cbn [Seed.sent Seed.seed_log Seed.seed_errors Seed.seed_released
             Seed.seed_ended] in *.
      rewrite !length_app in Hout. cbn [List.length] in Hout.
      destruct r as [[]|e|e|]; [| |destruct Hout|destruct Hout].
      * destruct Hout as [Htotal Hacc].
        eexists _, n, _. split; [reflexivity|].
        cbn [Seed.say Seed.release_and_end Seed.sent Seed.seed_log Seed.seed_errors
               Seed.seed_released Seed.seed_ended].
        split; [now rewrite Hrel|]. split; [now rewrite Hend|].
        split; [rewrite Hsent, <- !app_assoc; reflexivity|].
        split; [exact Hlt|]. left.
        split; [reflexivity|]. split; [lia|]. split; [exact Herr|].
        split; [rewrite Hlog, <- !app_assoc; reflexivity|].
        intros m text Hm. destruct m as [|[|m]]; cbn [nth_error app] in Hm.
        -- injection Hm as <-. now rewrite Nat.add_0_r.
        -- injection Hm as <-. exact Hcreate.
        -- replace (List.length (Seed.sent s) + S (S m))
             with (List.length (Seed.sent s) + 1 + 1 + m) by lia.
           now apply Hacc.
      * destruct Hout as [done [last [Hsplit Hrefused]]].
        eexists _, n, _. split; [reflexivity|].
        cbn [Seed.report_error Seed.release_and_end Seed.sent Seed.seed_log
               Seed.seed_errors Seed.seed_released Seed.seed_ended].
        split; [now rewrite Hrel|]. split; [now rewrite Hend|].
        split; [rewrite Hsent, <- !app_assoc; reflexivity|].
        split; [exact Hlt|]. right. exists e, [].
        split; [now rewrite List.app_nil_r|].
        split; [|split; [now rewrite Herr|right; rewrite Hlog, <- app_assoc;
                                           reflexivity]].
        exists (Seed.drop_table :: Seed.create_table :: done), last.
        split; [cbn [app]; now rewrite Hsplit|].
        cbn [List.length].
        replace (List.length (Seed.sent s) + S (S (List.length done)))
          with (List.length (Seed.sent s) + 1 + 1 + List.length done) by lia.
        exact Hrefused.
    + eexists _, 0, _. split; [reflexivity|].
      cbn [Seed.report_error Seed.release_and_end Seed.sent Seed.seed_log
             Seed.seed_errors Seed.seed_released Seed.seed_ended batch_starts map].
      split; [reflexivity|]. split; [reflexivity|].
      split; [rewrite <- app_assoc; reflexivity|].
      split; [intros start []|]. right. exists e, [].
      split; [reflexivity|]. split; [|split; [reflexivity | now left]].
      exists [Seed.drop_table], Seed.create_table. split; [reflexivity|].
      exact Hcreate.
  - eexists _, 0, _. split; [reflexivity|].
    cbn [Seed.report_error Seed.release_and_end Seed.sent Seed.seed_log
           Seed.seed_errors Seed.seed_released Seed.seed_ended batch_starts map].
    split; [reflexivity|]. split; [reflexivity|]. split; [reflexivity|].
    split; [intros start []|]. right. exists e, [Seed.create_table].
    split; [reflexivity|]. split; [|split; [reflexivity | now left]].
    exists [], Seed.drop_table. split; [reflexivity|].
    cbn [List.length]. now rewrite Nat.add_0_r.
Qed.

End SeedScriptFacts.

Lemma batch_starts_count (n : nat) :
  (forall start, In start (batch_starts n 5000 0) -> (start < 100000)%N) ->
  n <= 20.
Proof.
  intros Hlt. destruct n as [|n]; [lia|].
  pose proof (Hlt _ (batch_starts_last n 5000 0)) as Hlast. lia.
Qed.

(** X20 -- the seeding script ends by releasing its client and ending the
    pool exactly once, whether the database accepts every statement or
    refuses one, and it resolves in both cases.  When every statement is
    accepted it has sent the drop, the create and the twenty insert
    statements, in this order, and logged its three lines.  The first
    statement that is refused is the last one sent: the error is given to
    [console.error] and the closing line is not logged.  When the pool
    hands out no client the script rejects before it does anything. *)
Theorem seed_script_stops_at_first_refusal :
  forall (exec : nat -> string -> result unit) (random1000 : N -> N)
         (s : Seed.seeding),
    (forall e, Seed.main (Throw e) exec random1000 s = (s, Rejected e))
    /\ exists s',
        Seed.main (Ok tt) exec random1000 s = (s', Resolved tt)
        /\ Seed.seed_released s' = S (Seed.seed_released s)
        /\ Seed.seed_ended s' = S (Seed.seed_ended s)
        /\ ((Seed.sent s' = (Seed.sent s ++ seed_statements random1000)%list
             /\ Seed.seed_errors s' = Seed.seed_errors s
             /\ Seed.seed_log s'
                = (Seed.seed_log s
                     ++ [Seed.seeding_line; Seed.inserting_line; Seed.done_line])%list
             /\ forall m text,
                 nth_error (seed_statements random1000) m = Some text ->
                 exec (List.length (Seed.sent s) + m) text = Ok tt)
            \/ (exists e stmts rest,
                   Seed.sent s' = (Seed.sent s ++ stmts)%list
                   /\ seed_statements random1000 = (stmts ++ rest)%list
                   /\ refused_at exec (List.length (Seed.sent s)) stmts e
                   /\ Seed.seed_errors s' = (Seed.seed_errors s ++ [e])%list
                   /\ (Seed.seed_log s'
                       = (Seed.seed_log s ++ [Seed.seeding_line])%list
                       \/ Seed.seed_log s'
                          = (Seed.seed_log s
                               ++ [Seed.seeding_line; Seed.inserting_line])%list))).
Proof.
  intros exec random1000 s. split; [reflexivity|].
  destruct (seed_script_runs exec random1000 100000 5000 s eq_refl)
    as [s' [n [stmts [Hrun [Hrel [Hend [Hsent [Hlt Hcases]]]]]]]].
  exists s'. unfold Seed.main. split; [exact Hrun|].
  split; [exact Hrel|]. split; [exact Hend|].
  pose proof (batch_starts_count n Hlt) as Hn.
  destruct Hcases as [[-> [Htotal [Herr [Hlog Hacc]]]]
                     | [e [rest [Hsplit [Hrefused [Herr Hlog]]]]]].
  - left. assert (n = 20) as -> by lia.
    split; [exact Hsent|]. split; [exact Herr|]. split; [exact Hlog | exact Hacc].
  - right.
    exists e, stmts,
      (rest ++ map (insert_text random1000 5000)
                 (batch_starts (20 - n) 5000 (0 + 5000 * N.of_nat n)))%list.
    split; [exact Hsent|]. split; [|now repeat split].
    unfold seed_statements. replace 20 with (n + (20 - n)) at 1 by lia.
    rewrite batch_starts_app, map_app, app_assoc, <- Hsplit. reflexivity.
Qed.

(** X21 -- the twenty insert statements start at the rows 0, 5000, ...,
    95000; each carries the tuples of 5000 consecutive rows, and together
    they carry the rows 0 to 99999, each once and in order. *)
Theorem seed_batches_cover_every_row_once :
  forall random1000 : N -> N,
    batch_starts 20 5000 0
    = [ 0; 5000; 10000; 15000; 20000; 25000; 30000; 35000; 40000; 45000; 50000;
        55000; 60000; 65000; 70000; 75000; 80000; 85000; 90000; 95000 ]%N
    /\ List.length (seed_statements random1000) = 22
    /\ (forall i,
           Seed.insert_statement random1000 5000 i
           = Ok ("INSERT INTO records (name, value, metadata) VALUES "
                   ++ String.concat ","
                        (map (tuple_text random1000) (batch_rows 5000 i)))
           /\ batch_rows 5000 i = Seed.count_from i (5 * 1000)
           /\ List.length (batch_rows 5000 i) = 5 * 1000)
    /\ flat_map (batch_rows 5000) (batch_starts 20 5000 0)
       = Seed.count_from 0 (20 * (5 * 1000))
    /\ forall k,
        (k < 100000)%N ->
        nth_error (flat_map (batch_rows 5000) (batch_starts 20 5000 0)) (N.to_nat k)
        = Some k.
Proof.
  intros random1000.
  assert (Hbatch : N.to_nat 5000 = 5 * 1000) by (apply Nat2N.inj; now rewrite N2Nat.id).
  assert (Hlen : forall len start, List.length (Seed.count_from start len) = len).
  { induction len as [|len IH]; intros start; simpl; [reflexivity | now rewrite IH]. }
  assert (Hnth : forall len start j,
             j < len ->
             nth_error (Seed.count_from start len) j = Some (start + N.of_nat j)%N).
  { induction len as [|len IH]; intros start j Hj; [lia|].
    destruct j as [|j]; cbn [Seed.count_from nth_error].
    - f_equal. lia.
    - rewrite IH by lia. f_equal. lia. }
  assert (Hcover : flat_map (batch_rows 5000) (batch_starts 20 5000 0)
                   = Seed.count_from 0 (20 * (5 * 1000))).
  { rewrite batch_rows_cover. now rewrite Hbatch. }
  split; [reflexivity|]. split; [reflexivity|]. split; [|split; [exact Hcover|]].
  - intros i. split; [apply seed_insert_statement|].
    assert (Hrows : batch_rows 5000 i = Seed.count_from i (5 * 1000)).
    { unfold batch_rows. rewrite count_from_shift, N.add_0_r. now rewrite Hbatch. }
    split; [exact Hrows|]. rewrite Hrows. apply Hlen.
  - intros k Hk. rewrite Hcover, Hnth.
    + now rewrite N2Nat.id.
    + lia.
Qed.

Example seed_script_small :
  Seed.script (Ok tt)
    (fun n _ => if (n =? 3)%nat then Throw (ExternalError "disk full") else Ok tt)
    (fun k => (k + 1)%N) 6 2
    {| Seed.sent := []; Seed.seed_log := []; Seed.seed_errors := [];
       Seed.seed_released := 0; Seed.seed_ended := 0 |}
  = ({| Seed.sent :=
          [ Seed.drop_table; Seed.create_table;
            "INSERT INTO records (name, value, metadata) VALUES "
              ++ "('Record_0', 1, '{" ++ dq ++ "tag" ++ dq ++ ":" ++ dq ++ "test"
              ++ dq ++ "," ++ dq ++ "index" ++ dq ++ ":0}'::jsonb),"
              ++ "('Record_1', 2, '{" ++ dq ++ "tag" ++ dq ++ ":" ++ dq ++ "test"
              ++ dq ++ "," ++ dq ++ "index" ++ dq ++ ":1}'::jsonb)";
            "INSERT INTO records (name, value, metadata) VALUES "
              ++ "('Record_2', 3, '{" ++ dq ++ "tag" ++ dq ++ ":" ++ dq ++ "test"
              ++ dq ++ "," ++ dq ++ "index" ++ dq ++ ":2}'::jsonb),"
              ++ "('Record_3', 4, '{" ++ dq ++ "tag" ++ dq ++ ":" ++ dq ++ "test"
              ++ dq ++ "," ++ dq ++ "index" ++ dq ++ ":3}'::jsonb)" ];
        Seed.seed_log := [Seed.seeding_line; Seed.inserting_line];
        Seed.seed_errors := [ExternalError "disk full"];
        Seed.seed_released := 1; Seed.seed_ended := 1 |},
     Resolved tt).
Proof. reflexivity. Qed.
